(** * OttoChain health monitor: detection and restart engine

    A shallow embedding of the fork detector, the stall tracker, the
    per-tick condition engine and the restart gating of the
    ottochain-monitoring repository, followed by the properties its
    specification states about them.
    A second part of the embedding has the stall detection with its
    clock, the restart procedures and the hypergraph detector; the
    properties of the second part are read off the code.

    Conventions of the embedding:
    - TypeScript [string] is [string]; every character stands for one
      code unit, and [String.le] is the order [Array.prototype.sort]
      uses when it is called without a comparator.
    - TypeScript [number] is [Z] wherever the code only stores integers
      (ports, ordinals, epoch milliseconds).
    - A JavaScript [Map] is an association list in insertion order
      ([JsMap]) where the code iterates over it, and a [gmap] where the
      code only reads and writes single keys.
    - [Date.now()], [new Date().toISOString()] and the network are inputs
      of the functions that read them. *)

From stdpp Require Import base list strings sorting gmap pretty.
From Stdlib Require Import ZArith Lia Ascii.
From Stdlib Require QArith Qround.

(** ** JavaScript primitives used by the sources *)

Module Js.

(** Truthiness of a value of type [string | undefined]: [undefined] and
    the empty string are falsy. *)
Definition truthy (o : option string) : bool :=
  match o with
  | Some s => negb (String.eqb s "")
  | None => false
  end.

(** [a || b] on strings. *)
Definition or_else (a b : string) : string :=
  if String.eqb a "" then b else a.

(** [Array.prototype.join]. *)
Definition join (sep : string) (l : list string) : string :=
  String.concat sep l.

(** [Array.prototype.sort()] on an array of strings. *)
Definition sort (l : list string) : list string :=
  merge_sort String.le l.

(** What a promise settles to, or what a [try] block completes with;
    a rejection carries [String(err)]. *)
Inductive Settled (A : Type) : Type :=
| Resolved (value : A)
| Rejected (err : string).
Arguments Resolved {A} value.
Arguments Rejected {A} err.

End Js.

(** A [Map] iterated in insertion order. *)
Module JsMap.
Section assoc.
Context {K V : Type} `{EqDecision K}.

Fixpoint get (m : list (K * V)) (k : K) : option V :=
  match m with
  | [] => None
  | (k', v) :: m' => if decide (k = k') then Some v else get m' k
  end.

(** [set] on a present key keeps the key's position. *)
Fixpoint set (m : list (K * V)) (k : K) (v : V) : list (K * V) :=
  match m with
  | [] => [(k, v)]
  | (k', v') :: m' =>
      if decide (k = k') then (k', v) :: m' else (k', v') :: set m' k v
  end.
End assoc.
End JsMap.

(** ** packages/health-monitor/src/types.ts *)

Inductive LayerName : Type := GL0 | ML0 | CL1 | DL1.

Global Instance LayerName_eq_dec : EqDecision LayerName.
Proof. solve_decision. Defined.

Definition LayerName_str (l : LayerName) : string :=
  match l with
  | GL0 => "GL0"
  | ML0 => "ML0"
  | CL1 => "CL1"
  | DL1 => "DL1"
  end.

Module LayerConfig.
Record t : Type := mk { name : LayerName; port : Z }.
End LayerConfig.

Module NodeInfo.
Record t : Type := mk {
  nodeId : string;
  host : string;
  layers : list LayerConfig.t
}.
End NodeInfo.

Module ClusterPeer.
Record t : Type := mk {
  id : string;
  ip : option string;
  state : string
}.
End ClusterPeer.

Module NodeClusterView.
Record t : Type := mk {
  nodeId : string;
  layer : LayerName;
  host : string;
  port : Z;
  peers : list ClusterPeer.t;
  polledAt : string;
  error : option string
}.
End NodeClusterView.

Module ClusterSnapshot.
Record t : Type := mk {
  layer : LayerName;
  timestamp : string;
  views : list NodeClusterView.t
}.
End ClusterSnapshot.

Inductive HealthCondition : Type :=
| HEALTHY
| FORK_DETECTED
| SNAPSHOT_STALL
| NODE_UNREACHABLE
| MINORITY_PARTITION.

Global Instance HealthCondition_eq_dec : EqDecision HealthCondition.
Proof. solve_decision. Defined.

Inductive RestartGroup : Type :=
| IndividualNode
| FullLayer
| FullMetagraph.

Global Instance RestartGroup_eq_dec : EqDecision RestartGroup.
Proof. solve_decision. Defined.

Module HealthEvent.
Record t : Type := mk {
  condition : HealthCondition;
  layer : LayerName;
  nodeIds : list string;
  description : string;
  timestamp : string;
  suggestedAction : option RestartGroup
}.
End HealthEvent.

Module OrdinalSnapshot.
Record t : Type := mk {
  nodeId : string;
  layer : LayerName;
  ordinal : Z;
  timestamp : string
}.
End OrdinalSnapshot.

(** ** packages/health-monitor/src/cluster.ts *)

Module Cluster.

(** The body a fetch resolves to: [Array.isArray] tells the two cases
    apart. *)
Inductive Json : Type :=
| JArray (items : list ClusterPeer.t)
| JOther.

Definition FetchFn : Type := string -> Js.Settled Json.

Definition pollNodeCluster (node : NodeInfo.t) (layer : LayerName)
    (fetchFn : FetchFn) (now : string) : NodeClusterView.t :=
  match List.find (fun l => bool_decide (LayerConfig.name l = layer))
                  (NodeInfo.layers node) with
  | None =>
      NodeClusterView.mk (NodeInfo.nodeId node) layer (NodeInfo.host node)
        0 [] now
        (Some ("Layer " +:+ LayerName_str layer +:+
               " not configured for node " +:+ NodeInfo.nodeId node))
  | Some layerConfig =>
      let url := "http://" +:+ NodeInfo.host node +:+ ":" +:+
                 pretty (LayerConfig.port layerConfig) +:+ "/cluster/info" in
      match fetchFn url with
      | Js.Resolved data =>
          NodeClusterView.mk (NodeInfo.nodeId node) layer
            (NodeInfo.host node) (LayerConfig.port layerConfig)
            (match data with JArray items => items | JOther => [] end)
            now None
      | Js.Rejected err =>
          NodeClusterView.mk (NodeInfo.nodeId node) layer
            (NodeInfo.host node) (LayerConfig.port layerConfig)
            [] now (Some err)
      end
  end.

Definition pollLayerCluster (nodes : list NodeInfo.t) (layer : LayerName)
    (fetchFn : FetchFn) (now : string) : ClusterSnapshot.t :=
  ClusterSnapshot.mk layer now
    (map (fun node => pollNodeCluster node layer fetchFn now) nodes).

Definition clusterKey (view : NodeClusterView.t) : string :=
  if Js.truthy (NodeClusterView.error view)
  then "ERROR:" +:+ NodeClusterView.nodeId view
  else
    let ids :=
      Js.join "," (Js.sort (map ClusterPeer.id (NodeClusterView.peers view))) in
    Js.or_else ids "EMPTY".

Module Majority.
Record t : Type := mk {
  majorityKey : string;
  majorityNodes : list string;
  minorityNodes : list string;
  unreachable : list string
}.
End Majority.

(** First loop of [findMajority]: the groups, in the order in which their
    keys first occur among the views without error. *)
Definition keyGroups (views : list NodeClusterView.t)
    : list (string * list string) :=
  fold_left
    (fun keyGroups view =>
       if Js.truthy (NodeClusterView.error view) then keyGroups
       else
         let key := clusterKey view in
         let group := default [] (JsMap.get keyGroups key) in
         JsMap.set keyGroups key (group ++ [NodeClusterView.nodeId view]))
    views [].

(** Second loop: a later group replaces the current one only when it is
    strictly longer. *)
Definition largest {K : Type} (init : K) (groups : list (K * list string))
    : K * list string :=
  fold_left
    (fun best entry =>
       if (length (snd best) <? length (snd entry))%nat then entry else best)
    groups (init, []).

Definition findMajority (snapshot : ClusterSnapshot.t) : Majority.t :=
  let keyGroups := keyGroups (ClusterSnapshot.views snapshot) in
  let unreachable :=
    map NodeClusterView.nodeId
      (List.filter (fun v => Js.truthy (NodeClusterView.error v))
                   (ClusterSnapshot.views snapshot)) in
  match keyGroups with
  | [] => Majority.mk "EMPTY" [] [] unreachable
  | _ :: _ =>
      let best := largest "" keyGroups in
      let minorityNodes :=
        flat_map (fun entry =>
                    if decide (fst entry = fst best) then [] else snd entry)
                 keyGroups in
      Majority.mk (fst best) (snd best) minorityNodes unreachable
  end.

Definition forkEvent (snapshot : ClusterSnapshot.t) (m : Majority.t)
    : HealthEvent.t :=
  HealthEvent.mk FORK_DETECTED (ClusterSnapshot.layer snapshot)
    (Majority.minorityNodes m)
    ("Fork detected on " +:+ LayerName_str (ClusterSnapshot.layer snapshot)
     +:+ ": node(s) " +:+ Js.join ", " (Majority.minorityNodes m)
     +:+ " are in a minority partition (majority: "
     +:+ Js.join ", " (Majority.majorityNodes m) +:+ ")")
    (ClusterSnapshot.timestamp snapshot)
    (Some (if (length (Majority.minorityNodes m)
               <? length (Majority.majorityNodes m))%nat
           then IndividualNode else FullLayer)).

Definition unreachableEvent (snapshot : ClusterSnapshot.t) (m : Majority.t)
    : HealthEvent.t :=
  HealthEvent.mk NODE_UNREACHABLE (ClusterSnapshot.layer snapshot)
    (Majority.unreachable m)
    ("Unreachable node(s) on "
     +:+ LayerName_str (ClusterSnapshot.layer snapshot) +:+ ": "
     +:+ Js.join ", " (Majority.unreachable m))
    (ClusterSnapshot.timestamp snapshot)
    (Some IndividualNode).

Definition detectForks (snapshot : ClusterSnapshot.t) : list HealthEvent.t :=
  let m := findMajority snapshot in
  (if (0 <? length (Majority.minorityNodes m))%nat
   then [forkEvent snapshot m] else [])
  ++
  (if (0 <? length (Majority.unreachable m))%nat
   then [unreachableEvent snapshot m] else []).

Module GL0NodeState.
Record t : Type := mk { nodeId : string; ordinal : Z; hash : option string }.
End GL0NodeState.

Definition ordinalCount (states : list GL0NodeState.t)
    : list (Z * list string) :=
  fold_left
    (fun ordinalCount s =>
       let nodes :=
         default [] (JsMap.get ordinalCount (GL0NodeState.ordinal s)) in
       JsMap.set ordinalCount (GL0NodeState.ordinal s)
                 (nodes ++ [GL0NodeState.nodeId s]))
    states [].

Definition majorityOrdinal (states : list GL0NodeState.t) : Z :=
  fst (largest 0%Z (ordinalCount states)).

Definition detectGL0Fork (states : list GL0NodeState.t) (timestamp : string)
    : option HealthEvent.t :=
  if (length states <? 2)%nat then None
  else
    let majorityOrdinal := majorityOrdinal states in
    let minorityNodes :=
      map GL0NodeState.nodeId
        (List.filter
           (fun s => negb (bool_decide (GL0NodeState.ordinal s = majorityOrdinal)))
           states) in
    if (length minorityNodes =? 0)%nat then None
    else
      Some (HealthEvent.mk FORK_DETECTED GL0 minorityNodes
              ("GL0 fork: node(s) " +:+ Js.join ", " minorityNodes
               +:+ " are at divergent ordinals (majority: "
               +:+ pretty majorityOrdinal +:+ ")")
              timestamp (Some IndividualNode)).

End Cluster.

(** ** packages/health-monitor/src/snapshot.ts *)

Module Snapshot.

Module StallTracker.
Record t : Type := mk {
  lastOrdinal : gmap string Z;
  lastChanged : gmap string Z
}.

Definition new : t := mk ∅ ∅.

Definition key (nodeId layer : string) : string :=
  nodeId +:+ ":" +:+ layer.

(** [update] reads [Date.now()] once, in the branch that writes. *)
Definition update (this : t) (snap : OrdinalSnapshot.t) (now : Z)
    : t * bool :=
  let k := key (OrdinalSnapshot.nodeId snap)
               (LayerName_str (OrdinalSnapshot.layer snap)) in
  let prev := lastOrdinal this !! k in
  if match prev with
     | None => true
     | Some prev => (prev <? OrdinalSnapshot.ordinal snap)%Z
     end
  then (mk (<[k := OrdinalSnapshot.ordinal snap]> (lastOrdinal this))
           (<[k := now]> (lastChanged this)),
        true)
  else (this, false).

Definition lastOrdinalFor (this : t) (nodeId layer : string) : option Z :=
  lastOrdinal this !! key nodeId layer.

Definition reset (this : t) : t := mk ∅ ∅.
End StallTracker.

(** A sequence of [update] calls, each with the clock reading of its
    call; the results of the calls are collected in order. *)
Fixpoint updates (this : StallTracker.t)
    (calls : list (OrdinalSnapshot.t * Z)) : StallTracker.t * list bool :=
  match calls with
  | [] => (this, [])
  | (snap, now) :: calls' =>
      let '(this', r) := StallTracker.update this snap now in
      let '(final, rs) := updates this' calls' in
      (final, r :: rs)
  end.

End Snapshot.

(** ** src/: the watchdog, its detectors and its loop

    [src/types.ts], [src/services/node-api.ts],
    [src/conditions/unhealthy-nodes.ts] and [src/restart/orchestrator.ts]
    are not part of the sources at hand.  The types are read off the
    object literals the detectors build; the node API is an input of the
    detectors. *)

Module Watchdog.

Inductive Layer : Type := gl0 | ml0 | cl1 | dl1.

Global Instance Layer_eq_dec : EqDecision Layer.
Proof. solve_decision. Defined.

Definition toUpperCase (l : Layer) : string :=
  match l with
  | gl0 => "GL0"
  | ml0 => "ML0"
  | cl1 => "CL1"
  | dl1 => "DL1"
  end.

Module ClusterMember.
Record t : Type := mk { id : string; state : string }.
End ClusterMember.

Module NodeConfig.
Record t : Type := mk { name : string; ip : string }.
End NodeConfig.

Module Ports.
Record t : Type := mk { gl0 : Z; ml0 : Z; cl1 : Z; dl1 : Z }.

Definition get (p : t) (l : Layer) : Z :=
  match l with
  | Watchdog.gl0 => gl0 p
  | Watchdog.ml0 => ml0 p
  | Watchdog.cl1 => cl1 p
  | Watchdog.dl1 => dl1 p
  end.
End Ports.

(** The fields of [Config] the detectors and the loop read. *)
Module Config.
Record t : Type := mk {
  nodes : list NodeConfig.t;
  ports : Ports.t;
  snapshotStallMinutes : Z;
  healthCheckIntervalSeconds : Z;
  restartCooldownMinutes : Z;
  maxRestartsPerHour : Z
}.
End Config.

Inductive RestartScope : Type :=
| none
| individual_node
| full_layer
| full_metagraph.

Global Instance RestartScope_eq_dec : EqDecision RestartScope.
Proof. solve_decision. Defined.

Inductive ConditionName : Type :=
| ForkedCluster
| SnapshotsStopped
| UnhealthyNodes.

Global Instance ConditionName_eq_dec : EqDecision ConditionName.
Proof. solve_decision. Defined.

Module DetectionResult.
Record t : Type := mk {
  detected : bool;
  condition : ConditionName;
  details : string;
  restartScope : RestartScope;
  affectedNodes : option (list string);
  affectedLayers : option (list Layer)
}.
End DetectionResult.

(** [Array.prototype.sort(compare)]: a stable sort. *)
Section sort_by.
Context {A : Type} (compare : A -> A -> Z).

Fixpoint insert_by (x : A) (l : list A) : list A :=
  match l with
  | [] => [x]
  | y :: l' =>
      if (compare x y <=? 0)%Z then x :: y :: l' else y :: insert_by x l'
  end.

Definition sort_by (l : list A) : list A := foldr insert_by [] l.
End sort_by.

(** *** src/conditions/forked-cluster.ts *)

Module ForkedCluster.

Module Pov.
Record t : Type := mk {
  ip : string;
  hash : string;
  members : list ClusterMember.t
}.
End Pov.

Module LayerFork.
Record t : Type := mk { forked : bool; minorityNodes : list string }.
End LayerFork.

Section detector.
(** [createHash('sha256').update(s).digest('hex')] and
    [JSON.stringify] on an array of strings. *)
Variable sha256_hex : string -> string.
Variable stringify : list string -> string.
(** [getClusterInfo(ip, port)] of the node API. *)
Variable getClusterInfo : string -> Z -> list ClusterMember.t.

Definition hashClusterPOV (members : list ClusterMember.t) : string :=
  let sorted := Js.sort (map ClusterMember.id members) in
  String.substring 0 12 (sha256_hex (stringify sorted)).

Definition povs (config : Config.t) (layer : Layer) : list Pov.t :=
  let port := Ports.get (Config.ports config) layer in
  map (fun node =>
         let members := getClusterInfo (NodeConfig.ip node) port in
         if (length members =? 0)%nat
         then Pov.mk (NodeConfig.ip node) "unreachable" []
         else Pov.mk (NodeConfig.ip node) (hashClusterPOV members) members)
      (Config.nodes config).

(** [freq], with its keys in the order [Object.entries] lists them:
    insertion order, none of the keys being an array index (a
    digest prefix has twelve characters, an array index at most
    ten). *)
Definition freq (povs : list Pov.t) : list (string * Z) :=
  fold_left
    (fun freq p =>
       JsMap.set freq (Pov.hash p)
                 (default 0 (JsMap.get freq (Pov.hash p)) + 1)%Z)
    povs [].

Definition majorityHash (povs : list Pov.t) : option string :=
  fst <$> head (sort_by (fun a b => (snd b - snd a)%Z) (freq povs)).

Definition checkLayerFork (config : Config.t) (layer : Layer)
    : LayerFork.t :=
  let povs := povs config layer in
  let majorityHash := majorityHash povs in
  let minorityNodes :=
    map Pov.ip
      (List.filter
         (fun p => negb (bool_decide (Some (Pov.hash p) = majorityHash)))
         povs) in
  LayerFork.mk (0 <? length minorityNodes)%nat minorityNodes.

(** The [for] loop over the layers: a later layer is checked only
    when the earlier ones are not forked. *)
Fixpoint checkLayers (config : Config.t) (layers : list Layer)
    : DetectionResult.t :=
  match layers with
  | [] => DetectionResult.mk false ForkedCluster "" none None None
  | layer :: rest =>
      let result := checkLayerFork config layer in
      if LayerFork.forked result then
        let allForked :=
          (Z.of_nat (length (Config.nodes config)) - 1
           <=? Z.of_nat (length (LayerFork.minorityNodes result)))%Z in
        DetectionResult.mk true ForkedCluster
          (toUpperCase layer +:+ " forked — minority nodes: "
           +:+ Js.join ", " (LayerFork.minorityNodes result))
          (if allForked then full_layer else individual_node)
          (Some (LayerFork.minorityNodes result))
          (Some [layer])
      else checkLayers config rest
  end.

Definition detectForkedCluster (config : Config.t) : DetectionResult.t :=
  checkLayers config [ml0; cl1; dl1].
End detector.
End ForkedCluster.

(** *** src/conditions/snapshots-stopped.ts *)

Module SnapshotsStopped.

(** The two module-level variables. *)
Module State.
Record t : Type := mk {
  lastKnownOrdinal : Z;
  lastOrdinalChangeTime : Z
}.
(** Their values once the module is loaded, at time [loaded]. *)
Definition initial (loaded : Z) : t := mk (-1) loaded.
End State.

Section detector.
(** [getLatestOrdinal(ip, port, 'ml0')] of the node API; [-1] stands
    for a failed request. *)
Variable getLatestOrdinal : string -> Z -> Layer -> Z.
(** [stalledMinutes.toFixed(1)] as a function of the elapsed
    milliseconds. *)
Variable toFixed1 : Z -> string.

(** The ML0 ordinal a node answers with in this tick. *)
Definition ordinalOf (config : Config.t) (node : NodeConfig.t) : Z :=
  getLatestOrdinal (NodeConfig.ip node) (Ports.ml0 (Config.ports config))
                   ml0.

(** The loop over the nodes: the ordinal it ends with, and the
    nodes it asked, in order. *)
Fixpoint firstOrdinal (port : Z) (nodes : list NodeConfig.t)
    : Z * list string :=
  match nodes with
  | [] => (-1, [])%Z
  | node :: rest =>
      let ordinal := getLatestOrdinal (NodeConfig.ip node) port ml0 in
      if (0 <=? ordinal)%Z then (ordinal, [NodeConfig.ip node])
      else
        let '(currentOrdinal, asked) := firstOrdinal port rest in
        (currentOrdinal, NodeConfig.ip node :: asked)
  end.

(** [now] is the reading of [Date.now()] in the branch taken.  The
    threshold in minutes is compared with the elapsed milliseconds
    divided by 60 000; the model compares the exact quotient, which
    is what the division on doubles yields for every elapsed time
    and threshold a clock and a configuration can hold. *)
Definition detectSnapshotsStopped (config : Config.t) (now : Z)
    (st : State.t) : State.t * DetectionResult.t * list string :=
  let '(currentOrdinal, asked) :=
    firstOrdinal (Ports.ml0 (Config.ports config)) (Config.nodes config) in
  if (currentOrdinal <? 0)%Z then
    (st,
     DetectionResult.mk false SnapshotsStopped "ML0 unreachable" none
       None None,
     asked)
  else if negb (bool_decide (currentOrdinal = State.lastKnownOrdinal st))
  then
    (State.mk currentOrdinal now,
     DetectionResult.mk false SnapshotsStopped "" none None None,
     asked)
  else
    let stalledMs := (now - State.lastOrdinalChangeTime st)%Z in
    if (Config.snapshotStallMinutes config * 60000 <=? stalledMs)%Z then
      (st,
       DetectionResult.mk true SnapshotsStopped
         ("ML0 snapshots stalled at ordinal " +:+ pretty currentOrdinal
          +:+ " for " +:+ toFixed1 stalledMs +:+ " minutes")
         full_metagraph
         (Some (map NodeConfig.ip (Config.nodes config)))
         (Some [ml0; cl1; dl1]),
       asked)
    else
      (st,
       DetectionResult.mk false SnapshotsStopped "" none None None,
       asked).
End detector.
End SnapshotsStopped.

(** *** src/index.ts *)

Module Monitor.

(** The calls [runHealthCheck] makes, in order, each with what it
    completed with. *)
Inductive Step : Type :=
| Detect (name : ConditionName) (result : Js.Settled DetectionResult.t)
| ExecuteRestart (name : ConditionName) (restarted : Js.Settled bool).

Section loop.
(** Everything the detectors and the orchestrator read and write:
    the cluster, the clock, their module-level variables. *)
Context {W : Type}.
Variable detectForkedCluster : W -> W * Js.Settled DetectionResult.t.
Variable detectSnapshotsStopped : W -> W * Js.Settled DetectionResult.t.
Variable detectUnhealthyNodes : W -> W * Js.Settled DetectionResult.t.
Variable executeRestart : DetectionResult.t -> W -> W * Js.Settled bool.

Definition conditions
    : list (ConditionName * (W -> W * Js.Settled DetectionResult.t)) :=
  [ (ForkedCluster, detectForkedCluster);
    (SnapshotsStopped, detectSnapshotsStopped);
    (UnhealthyNodes, detectUnhealthyNodes) ].

(** The [for] loop with its [try]/[catch]: a rejected [detect] or
    [executeRestart] is logged and the loop goes on; only a restart
    that was performed returns from the function. *)
Fixpoint check
    (conditions : list (ConditionName * (W -> W * Js.Settled DetectionResult.t)))
    (w : W) : W * list Step :=
  match conditions with
  | [] => (w, [])
  | (name, detect) :: rest =>
      let '(w1, result) := detect w in
      match result with
      | Js.Resolved r =>
          if DetectionResult.detected r then
            let '(w2, restarted) := executeRestart r w1 in
            match restarted with
            | Js.Resolved true =>
                (w2, [Detect name result; ExecuteRestart name restarted])
            | _ =>
                let '(w3, steps) := check rest w2 in
                (w3, Detect name result :: ExecuteRestart name restarted :: steps)
            end
          else
            let '(w3, steps) := check rest w1 in
            (w3, Detect name result :: steps)
      | Js.Rejected _ =>
          let '(w3, steps) := check rest w1 in
          (w3, Detect name result :: steps)
      end
  end.

Definition runHealthCheck (w : W) : W * list Step := check conditions w.
End loop.






End Monitor.

End Watchdog.

(** ** The restart orchestrator

    [src/restart/orchestrator.ts], whose [executeRestart] the loop of
    [src/index.ts] calls, is not part of the sources at hand.  This module
    follows sections 3, 4.7 and 6.2 of the specification. *)

Module Orchestrator.

Inductive Layer : Type := L0g | L0m | L1c | L1d.

Module RestartScope.
Inductive t : Type := None | IndividualNode | FullLayer | FullMetagraph.
End RestartScope.

Module Node.
Record t : Type := mk { id : string; host : string }.
End Node.

Module HealthEvent.
Record t : Type := mk {
  layer : Layer;
  nodeIds : list string;
  suggestedAction : RestartScope.t
}.
End HealthEvent.

Module Config.
Record t : Type := mk {
  nodes : list Node.t;
  restartCooldownMinutes : Z;
  maxRestartsPerHour : Z
}.
End Config.

Inductive SkipReason : Type := cooldown | rate_limit | not_actionable.

Inductive Outcome : Type :=
| Restarted
| Skipped (reason : SkipReason)
| Failed (err : string).

Inductive RecordedOutcome : Type := success | failed | skipped.

Module RestartRecord.
Record t : Type := mk {
  scope : RestartScope.t;
  layer : option Layer;
  nodeIds : list string;
  startedAt : Z;
  finishedAt : Z;
  outcome : RecordedOutcome
}.
End RestartRecord.

(** The operations of the command port (section 6.2). *)
Inductive Command : Type :=
| stop (host : string) (layer : Layer)
| startGenesis (host : string) (layer : Layer)
| startAndJoin (host : string) (layer : Layer) (seedHost : string).

(** What the orchestrator owns: the restart records, most recent first,
    and every command it has sent through the command port. *)
Module State.
Record t : Type := mk {
  records : list RestartRecord.t;
  invocations : list Command
}.
Definition initial : t := mk [] [].
End State.

(** A running procedure: the clock, moved by the waits, and the commands
    sent so far. *)
Module Run.
Record t : Type := mk { clock : Z; issued : list Command }.
End Run.

(** A step of a procedure either fails with a message, which ends the
    procedure, or goes on. *)
Definition Proc (A : Type) : Type := Run.t -> Run.t * (string + A).

Global Instance Proc_ret : MRet Proc := fun A x r => (r, inr x).

Global Instance Proc_bind : MBind Proc := fun A B f c r =>
  match c r with
  | (r', inr x) => f x r'
  | (r', inl err) => (r', inl err)
  end.

Section orchestrator.
(** The command port: [true] for exit code 0. *)
Variable port : Command -> bool.
Variable config : Config.t.

Definition invoke (c : Command) : Proc unit := fun r =>
  (Run.mk (Run.clock r) (Run.issued r ++ [c]),
   if port c then inr () else inl "command failed").

(** Commands sent in parallel: all of them are sent, and the step
    fails when one of them does. *)
Definition parallel (cs : list Command) : Proc unit := fun r =>
  (Run.mk (Run.clock r) (Run.issued r ++ cs),
   if forallb port cs then inr () else inl "command failed").

Definition wait (ms : Z) : Proc unit := fun r =>
  (Run.mk (Run.clock r + ms)%Z (Run.issued r), inr ()).

Fixpoint forEach {A : Type} (l : list A) (body : A -> Proc unit)
    : Proc unit :=
  match l with
  | [] => mret ()
  | x :: l' => body x ;; forEach l' body
  end.

Definition stopAll (layer : Layer) : Proc unit :=
  parallel (map (fun n => stop (Node.host n) layer) (Config.nodes config)).

(** Modelled from the spec: steps 2 to 4 of the FullLayer procedure of
    section 4.7 (genesis is the first configured node). *)
Definition startLayer (layer : Layer) : Proc unit :=
  match Config.nodes config with
  | [] => mret ()
  | genesis :: rest =>
      invoke (startGenesis (Node.host genesis) layer) ;;
      wait 30000 ;;
      forEach rest (fun n =>
        invoke (startAndJoin (Node.host n) layer (Node.host genesis)) ;;
        wait 10000)
  end.

(** Modelled from the spec: the FullLayer procedure of section 4.7. *)
Definition fullLayer (layer : Layer) : Proc unit :=
  stopAll layer ;; wait 5000 ;; startLayer layer.

(** Modelled from the spec: the FullMetagraph procedure of section 4.7,
    with its stop order and its start order. *)
Definition fullMetagraph : Proc unit :=
  forEach [L1d; L1c; L0g; L0m] (fun layer => stopAll layer ;; wait 3000) ;;
  forEach [L0m; L0g; L1c; L1d] (fun layer => startLayer layer ;; wait 20000).

(** Modelled from the spec: the seed of a target in the IndividualNode
    procedure of section 4.7, the node of lowest id among those the event
    does not name. *)
Definition lowest (candidates : list Node.t) : option Node.t :=
  foldr (fun n best =>
           match best with
           | Some b => if String.leb (Node.id n) (Node.id b)
                       then Some n else Some b
           | Datatypes.None => Some n
           end) Datatypes.None candidates.

Definition seedFor (event : HealthEvent.t) (target : Node.t)
    : option Node.t :=
  lowest
    (List.filter
       (fun n =>
          negb (bool_decide (Node.id n ∈ HealthEvent.nodeIds event))
          && negb (bool_decide (Node.id n = Node.id target)))
       (Config.nodes config)).

(** Modelled from the spec: the IndividualNode procedure of section 4.7;
    a target without seed downgrades the restart to FullLayer. *)
Fixpoint individualNode (event : HealthEvent.t) (targets : list Node.t)
    : Proc unit :=
  match targets with
  | [] => mret ()
  | target :: rest =>
      match seedFor event target with
      | Datatypes.None => fullLayer (HealthEvent.layer event)
      | Some seed =>
          invoke (stop (Node.host target) (HealthEvent.layer event)) ;;
          wait 5000 ;;
          invoke (startAndJoin (Node.host target) (HealthEvent.layer event)
                               (Node.host seed)) ;;
          wait 15000 ;;
          individualNode event rest
      end
  end.

(** Modelled from the spec: the dispatch on [suggestedAction], gate 3 of
    section 4.7. *)
Definition procedure (event : HealthEvent.t) : Proc unit :=
  match HealthEvent.suggestedAction event with
  | RestartScope.None => mret ()
  | RestartScope.IndividualNode =>
      individualNode event
        (List.filter
           (fun n => bool_decide (Node.id n ∈ HealthEvent.nodeIds event))
           (Config.nodes config))
  | RestartScope.FullLayer => fullLayer (HealthEvent.layer event)
  | RestartScope.FullMetagraph => fullMetagraph
  end.

(** Modelled from the spec: gate 1 of section 4.7, the cooldown.  The
    most recent record finished less than [restartCooldownMinutes]
    ago. *)
Definition inCooldown (now : Z) (st : State.t) : bool :=
  match State.records st with
  | [] => false
  | r :: _ =>
      (now - RestartRecord.finishedAt r
       <? Config.restartCooldownMinutes config * 60000)%Z
  end.

(** Modelled from the spec: gate 2 of section 4.7, the rate limit.  The
    records started within the last hour reach [maxRestartsPerHour]. *)
Definition rateLimited (now : Z) (st : State.t) : bool :=
  (Config.maxRestartsPerHour config
   <=? Z.of_nat
         (length
            (List.filter
               (fun r => (now - 3600000 <? RestartRecord.startedAt r)%Z)
               (State.records st))))%Z.

(** Modelled from the spec: [execute], the public contract of the
    restart orchestrator (section 4.7), whose source file is missing.
    The gates come first, in the order cooldown, rate limit, scope;
    a procedure that ran, to its end or to its first failing command,
    leaves a record that finishes at the procedure's last clock
    reading. *)
Definition execute (event : HealthEvent.t) (now : Z) (st : State.t)
    : State.t * Outcome :=
  if inCooldown now st then (st, Skipped cooldown)
  else if rateLimited now st then (st, Skipped rate_limit)
  else
    match HealthEvent.suggestedAction event with
    | RestartScope.None => (st, Skipped not_actionable)
    | scope =>
        let '(run, result) := procedure event (Run.mk now []) in
        let record outcome :=
          RestartRecord.mk scope (Some (HealthEvent.layer event))
            (HealthEvent.nodeIds event) now (Run.clock run) outcome in
        match result with
        | inr _ =>
            (State.mk (record success :: State.records st)
                      (State.invocations st ++ Run.issued run),
             Restarted)
        | inl err =>
            (State.mk (record failed :: State.records st)
                      (State.invocations st ++ Run.issued run),
             Failed err)
        end
    end.
End orchestrator.

End Orchestrator.

(** ** Vocabulary of the statements *)

(** *** Views and snapshots *)

Definition isError (v : NodeClusterView.t) : bool :=
  Js.truthy (NodeClusterView.error v).

(** The views without error whose canonical key is [k], and those whose
    key is another one, in the order of the snapshot. *)
Definition healthyWithKey (k : string) (views : list NodeClusterView.t)
    : list NodeClusterView.t :=
  List.filter
    (fun v => negb (isError v) && bool_decide (Cluster.clusterKey v = k)) views.

Definition healthyOffKey (k : string) (views : list NodeClusterView.t)
    : list NodeClusterView.t :=
  List.filter
    (fun v => negb (isError v) && negb (bool_decide (Cluster.clusterKey v = k)))
    views.

Definition withPeers (view : NodeClusterView.t) (peers : list ClusterPeer.t)
    : NodeClusterView.t :=
  NodeClusterView.mk (NodeClusterView.nodeId view) (NodeClusterView.layer view)
    (NodeClusterView.host view) (NodeClusterView.port view) peers
    (NodeClusterView.polledAt view) (NodeClusterView.error view).

Definition withViews (s : ClusterSnapshot.t) (views : list NodeClusterView.t)
    : ClusterSnapshot.t :=
  ClusterSnapshot.mk (ClusterSnapshot.layer s) (ClusterSnapshot.timestamp s) views.

Definition isFork (e : HealthEvent.t) : bool :=
  bool_decide (HealthEvent.condition e = FORK_DETECTED).

(** The layer entry [pollNodeCluster] finds, and the URL it fetches. *)
Definition layerConfigOf (node : NodeInfo.t) (layer : LayerName)
    : option LayerConfig.t :=
  List.find (fun l => bool_decide (LayerConfig.name l = layer))
            (NodeInfo.layers node).

Definition clusterInfoUrl (host : string) (port : Z) : string :=
  "http://" +:+ host +:+ ":" +:+ pretty port +:+ "/cluster/info".

(** The points of view of the watchdog with a hash, and the others. *)
Definition withHash (h : option string)
    (povs : list Watchdog.ForkedCluster.Pov.t)
    : list Watchdog.ForkedCluster.Pov.t :=
  List.filter
    (fun p => bool_decide (Some (Watchdog.ForkedCluster.Pov.hash p) = h)) povs.

Definition offHash (h : option string)
    (povs : list Watchdog.ForkedCluster.Pov.t)
    : list Watchdog.ForkedCluster.Pov.t :=
  List.filter
    (fun p => negb (bool_decide (Some (Watchdog.ForkedCluster.Pov.hash p) = h)))
    povs.

(** The states at an ordinal, and those at another one. *)
Definition atOrdinal (o : Z) (states : list Cluster.GL0NodeState.t)
    : list Cluster.GL0NodeState.t :=
  List.filter (fun s => bool_decide (Cluster.GL0NodeState.ordinal s = o)) states.

Definition offOrdinal (o : Z) (states : list Cluster.GL0NodeState.t)
    : list Cluster.GL0NodeState.t :=
  List.filter
    (fun s => negb (bool_decide (Cluster.GL0NodeState.ordinal s = o))) states.

(** The key of the tracker an ordinal snapshot is filed under. *)
Definition keyOf (snap : OrdinalSnapshot.t) : string :=
  Snapshot.StallTracker.key (OrdinalSnapshot.nodeId snap)
    (LayerName_str (OrdinalSnapshot.layer snap)).

(** *** The grouping loop

    [findMajority] and [detectGL0Fork] build their groups with the same
    loop; [groupsOf] is that loop for any way of skipping elements,
    taking their key and taking the value that is stored. *)

Section groups.
Context {A K : Type} `{EqDecision K}.
Variables (skip : A -> bool) (key : A -> K) (val : A -> string).

Definition groupStep (m : list (K * list string)) (x : A)
    : list (K * list string) :=
  if skip x then m
  else JsMap.set m (key x) (default [] (JsMap.get m (key x)) ++ [val x]).

Definition groupsOf (l : list A) : list (K * list string) :=
  fold_left groupStep l [].

(** The values of the elements that are kept and have key [k], and of
    those that are kept and have another key, in order. *)
Definition members (k : K) (l : list A) : list string :=
  map val (List.filter (fun x => negb (skip x) && bool_decide (key x = k)) l).

Definition others (k : K) (l : list A) : list string :=
  map val
    (List.filter (fun x => negb (skip x) && negb (bool_decide (key x = k))) l).

Definition offKey (k : K) (entry : K * list string) : list string :=
  if decide (fst entry = k) then [] else snd entry.

(** What the grouping loop maintains: no key twice, every group holds
    the values of its key and is not empty, every kept element has its
    group. *)
Definition grouped (l : list A) (m : list (K * list string)) : Prop :=
  List.NoDup (map fst m)
  /\ (forall k ns, In (k, ns) m -> ns = members k l /\ ns <> [])
  /\ (forall x, In x l -> skip x = false -> In (key x) (map fst m)).
End groups.

(** ** Concrete inputs *)

Module Scenario.

(** *** Cluster views (packages/health-monitor) *)

Definition now : string := "2026-01-01T12:00:00.000Z".

Definition peer (id : string) : ClusterPeer.t := ClusterPeer.mk id None "Ready".

Definition view (nodeId : string) (peers : list string) (error : option string)
    : NodeClusterView.t :=
  NodeClusterView.mk nodeId ML0 ("n" +:+ nodeId) 9200 (map peer peers) now error.

(** Nodes 1 and 2 agree, node 3 sees only itself. *)
Definition twoAgainstOne : ClusterSnapshot.t :=
  ClusterSnapshot.mk ML0 now
    [ view "1" ["p1"; "p2"] None;
      view "2" ["p2"; "p1"] None;
      view "3" ["p3"] None ].

(** Two views that disagree: one group each, the first with the
    greater key. *)
Definition tied : ClusterSnapshot.t :=
  ClusterSnapshot.mk ML0 now [ view "1" ["b"] None; view "2" ["a"] None ].

(** The same two views in the other order. *)
Definition tiedReversed : ClusterSnapshot.t :=
  ClusterSnapshot.mk ML0 now [ view "2" ["a"] None; view "1" ["b"] None ].

(** Nodes 1 and 2 agree, node 3 does not answer. *)
Definition oneUnreachable : ClusterSnapshot.t :=
  ClusterSnapshot.mk ML0 now
    [ view "1" ["pa"] None;
      view "2" ["pa"] None;
      view "3" [] (Some "ECONNREFUSED") ].

Definition node1 : NodeInfo.t :=
  NodeInfo.mk "1" "10.0.0.1" [LayerConfig.mk GL0 9000; LayerConfig.mk ML0 9200].

(** An endpoint that answers with an empty array. *)
Definition emptyCluster : Cluster.FetchFn :=
  fun _ => Js.Resolved (Cluster.JArray []).

Definition threeWaySplit : list Cluster.GL0NodeState.t :=
  [ Cluster.GL0NodeState.mk "1" 100 None;
    Cluster.GL0NodeState.mk "2" 200 None;
    Cluster.GL0NodeState.mk "3" 300 None ].

Definition oneLagging : list Cluster.GL0NodeState.t :=
  [ Cluster.GL0NodeState.mk "1" 6200 None;
    Cluster.GL0NodeState.mk "2" 6200 None;
    Cluster.GL0NodeState.mk "3" 5548 None ].

(** *** Ordinal snapshots *)

Definition noon : Z := 1767268800000.

Definition ordinalAt (ordinal : Z) : OrdinalSnapshot.t :=
  OrdinalSnapshot.mk "n1" ML0 ordinal now.

(** Ordinals 100, 101, 101, 99 of one node, a minute apart. *)
Definition calls : list (OrdinalSnapshot.t * Z) :=
  [ (ordinalAt 100, noon);
    (ordinalAt 101, noon + 60000);
    (ordinalAt 101, noon + 120000);
    (ordinalAt 99, noon + 180000) ]%Z.

Definition seen100 : Snapshot.StallTracker.t :=
  (Snapshot.StallTracker.update Snapshot.StallTracker.new (ordinalAt 100) noon).1.

(** *** The watchdog (src/) *)

Import Watchdog.

Definition nodes3 : list NodeConfig.t :=
  [ NodeConfig.mk "node1" "10.0.0.1";
    NodeConfig.mk "node2" "10.0.0.2";
    NodeConfig.mk "node3" "10.0.0.3" ].

Definition ports : Ports.t := Ports.mk 9000 9200 9300 9400.

Definition config3 : Config.t := Config.mk nodes3 ports 4 60 10 6.

Definition config4 : Config.t :=
  Config.mk (nodes3 ++ [NodeConfig.mk "node4" "10.0.0.4"]) ports 4 60 10 6.

(** Stand-ins for [JSON.stringify] and for the digest, which keep the
    member lists of these scenarios apart as the real ones do. *)
Definition stringify (l : list string) : string :=
  "[" +:+ Js.join "," l +:+ "]".

Definition sha256_hex (s : string) : string :=
  s +:+ "0000000000000000000000000000000000000000000000000000000000000000".

Definition member (id : string) : ClusterMember.t := ClusterMember.mk id "Ready".

(** Node 3 answers with an empty cluster on every layer. *)
Definition node3Alone (ip : string) (port : Z) : list ClusterMember.t :=
  if String.eqb ip "10.0.0.3" then [] else [member "p1"; member "p2"].

(** Nodes 1 and 2 see one cluster, nodes 3 and 4 another. *)
Definition twoAgainstTwo (ip : string) (port : Z) : list ClusterMember.t :=
  if String.eqb ip "10.0.0.1" || String.eqb ip "10.0.0.2"
  then [member "p1"; member "p2"] else [member "p3"; member "p4"].

(** Two nodes, each of which sees only itself. *)
Definition config2 : Config.t :=
  Config.mk [NodeConfig.mk "node1" "10.0.0.1"; NodeConfig.mk "node2" "10.0.0.2"]
            ports 4 60 10 6.

Definition eachAlone (ip : string) (port : Z) : list ClusterMember.t :=
  if String.eqb ip "10.0.0.1" then [member "y"] else [member "x"].

(** Every node reports ordinal 500. *)
Definition ordinal500 (ip : string) (port : Z) (layer : Layer) : Z := 500.

(** Node 1 does not answer, the others report ordinal 498. *)
Definition ordinal498 (ip : string) (port : Z) (layer : Layer) : Z :=
  if String.eqb ip "10.0.0.1" then (-1) else 498.

(** A stand-in for [toFixed(1)] on the minutes. *)
Definition toFixed1 (ms : Z) : string :=
  let tenths := ((ms + 3000) / 6000)%Z in
  pretty (tenths / 10)%Z +:+ "." +:+ pretty (tenths mod 10)%Z.

(** Ordinal 500 was first seen at noon. *)
Definition stalled : SnapshotsStopped.State.t :=
  SnapshotsStopped.State.mk 500 noon.

(** The tick of five past noon: node 3 is split off, the ordinal is
    still 500, the unhealthy-nodes check finds nothing, and the
    orchestrator skips every restart.  The state that is threaded
    through the tick is the record of the stall detector. *)
Definition detectFork (w : SnapshotsStopped.State.t)
    : SnapshotsStopped.State.t * Js.Settled DetectionResult.t :=
  (w, Js.Resolved
        (ForkedCluster.detectForkedCluster sha256_hex stringify node3Alone
           config3)).

Definition detectStall (w : SnapshotsStopped.State.t)
    : SnapshotsStopped.State.t * Js.Settled DetectionResult.t :=
  let out := SnapshotsStopped.detectSnapshotsStopped ordinal500 toFixed1
               config3 (noon + 300000) w in
  (out.1.1, Js.Resolved out.1.2).

Definition detectUnhealthy (w : SnapshotsStopped.State.t)
    : SnapshotsStopped.State.t * Js.Settled DetectionResult.t :=
  (w, Js.Resolved (DetectionResult.mk false UnhealthyNodes "" none None None)).

Definition skipRestart (r : DetectionResult.t) (w : SnapshotsStopped.State.t)
    : SnapshotsStopped.State.t * Js.Settled bool :=
  (w, Js.Resolved false).

Definition tick (w : SnapshotsStopped.State.t)
    : SnapshotsStopped.State.t * list Monitor.Step :=
  Monitor.runHealthCheck detectFork detectStall detectUnhealthy skipRestart w.

(** The record of a cluster that has been at ordinal 498 since noon. *)
Definition stalled498 : SnapshotsStopped.State.t :=
  SnapshotsStopped.State.mk 498 noon.

(** *** The orchestrator *)

Definition cluster : Orchestrator.Config.t :=
  Orchestrator.Config.mk
    [ Orchestrator.Node.mk "1" "10.0.0.1";
      Orchestrator.Node.mk "2" "10.0.0.2";
      Orchestrator.Node.mk "3" "10.0.0.3" ]
    10 6.

(** A command port on which every command succeeds. *)
Definition port (c : Orchestrator.Command) : bool := true.

Definition stallEvent : Orchestrator.HealthEvent.t :=
  Orchestrator.HealthEvent.mk Orchestrator.L0m ["1"; "2"; "3"]
    Orchestrator.RestartScope.FullMetagraph.

(** The state after a full-metagraph restart that began at noon. *)
Definition restarted : Orchestrator.State.t :=
  (Orchestrator.execute port cluster stallEvent noon
     Orchestrator.State.initial).1.

End Scenario.

(** * Further parts of the sources *)

(** ** The clock

    [Date.now()] and [new Date()] read the machine's clock.  Where a
    function reads it more than once, the readings are an input of the
    function: [clock i] is the reading number [i], in epoch milliseconds,
    and the function counts its readings. *)

Module Clock.
Definition t : Type := nat -> Z.
End Clock.

(** A [number] that is a quotient of integers, with its exact value.
    The quotients below are elapsed milliseconds over 1000; on numbers
    of that size the division on doubles, compared with an integer or
    rounded, gives what the exact quotient gives. *)
Module Num.
Import QArith_base.

Definition t : Type := Q.

(** [a / 1000] for an integer [a]. *)
Definition div1000 (a : Z) : t := Qmake a 1000.

(** [a >= b] for an integer [b]. *)
Definition ge (a : t) (b : Z) : bool := Qle_bool (inject_Z b) a.

(** [Math.round]: the nearest integer, a half goes up. *)
Definition round (a : t) : Z := Qround.Qfloor (Qplus a (Qmake 1 2)).
End Num.

(** ** packages/health-monitor/src/snapshot.ts: stall detection

    The functions below read the clock several times and share one
    tracker object.  They run in the monad [M]: a computation gets the
    clock, the tracker and the number of readings made so far, and gives
    its result, the tracker and the number of readings after it. *)

Module Stall.
Import Snapshot.

Module World.
Record t : Type := mk { tracker : StallTracker.t; reads : nat }.
End World.

Definition M (A : Type) : Type := Clock.t -> World.t -> A * World.t.

Global Instance M_ret : MRet M := fun A a _ w => (a, w).

Global Instance M_bind : MBind M := fun A B f m clock w =>
  let '(a, w') := m clock w in f a clock w'.

(** [Date.now()]. *)
Definition dateNow : M Z := fun clock w =>
  (clock (World.reads w), World.mk (World.tracker w) (S (World.reads w))).

Definition getTracker : M StallTracker.t := fun _ w => (World.tracker w, w).

(** A [for ... of] loop with a body that returns nothing. *)
Fixpoint forEach {A : Type} (l : list A) (body : A -> M unit) : M unit :=
  match l with
  | [] => mret tt
  | x :: l' => body x ;; forEach l' body
  end.

(** A loop that carries a local variable. *)
Fixpoint foldM {A B : Type} (body : B -> A -> M B) (l : list A) (b : B)
    : M B :=
  match l with
  | [] => mret b
  | x :: l' => b' ← body b x; foldM body l' b'
  end.

(** [Array.prototype.filter] with a predicate that reads the clock. *)
Fixpoint filterM {A : Type} (p : A -> M bool) (l : list A) : M (list A) :=
  match l with
  | [] => mret []
  | x :: l' =>
      keep ← p x;
      rest ← filterM p l';
      mret (if keep : bool then x :: rest else rest)
  end.

(** [tracker.update(snap)]: the clock is read in the branch that
    writes, and only there. *)
Definition update (snap : OrdinalSnapshot.t) : M bool := fun clock w =>
  let '(tracker, changed) :=
    StallTracker.update (World.tracker w) snap (clock (World.reads w)) in
  (changed,
   World.mk tracker
     (if changed then S (World.reads w) else World.reads w)).

(** [tracker.staleSecs(nodeId, layer)]. *)
Definition staleSecs (nodeId layer : string) : M (option Num.t) :=
  this ← getTracker;
  let k := StallTracker.key nodeId layer in
  let changed := StallTracker.lastChanged this !! k in
  match changed with
  | None => mret None
  | Some changed =>
      now ← dateNow;
      mret (Some (Num.div1000 (now - changed)))
  end.

Section detectors.
(** [new Date(ms).toISOString()]. *)
Variable toISOString : Z -> string.

Definition nowISO : M string := ms ← dateNow; mret (toISOString ms).

Definition stallEvent (snap : OrdinalSnapshot.t) (lastOrd : Z)
    (secs : Num.t) (thresholdSec : Z) (now : string) : HealthEvent.t :=
  HealthEvent.mk SNAPSHOT_STALL (OrdinalSnapshot.layer snap)
    [OrdinalSnapshot.nodeId snap]
    (LayerName_str (OrdinalSnapshot.layer snap) +:+ " node "
       +:+ OrdinalSnapshot.nodeId snap +:+ " stalled at ordinal "
       +:+ pretty lastOrd +:+ " for " +:+ pretty (Num.round secs)
       +:+ "s (threshold: " +:+ pretty thresholdSec +:+ "s)")
    now (Some FullMetagraph).

(** The body of the second loop of [detectStalls]; [events] is the
    array built so far. *)
Definition pushIfStalled (thresholdSec : Z) (now : string)
    (events : list HealthEvent.t) (snap : OrdinalSnapshot.t)
    : M (list HealthEvent.t) :=
  secs ← staleSecs (OrdinalSnapshot.nodeId snap)
                   (LayerName_str (OrdinalSnapshot.layer snap));
  match secs with
  | Some secs =>
      if Num.ge secs thresholdSec then
        tracker ← getTracker;
        let lastOrd :=
          default 0%Z
            (StallTracker.lastOrdinalFor tracker
               (OrdinalSnapshot.nodeId snap)
               (LayerName_str (OrdinalSnapshot.layer snap))) in
        mret (events ++ [stallEvent snap lastOrd secs thresholdSec now])
      else mret events
  | None => mret events
  end.

(** [thresholdSec] is an integer: the configuration reads it with
    [parseInt]. *)
Definition detectStalls (snapshots : list OrdinalSnapshot.t)
    (thresholdSec : Z) : M (list HealthEvent.t) :=
  now ← nowISO;
  forEach snapshots (fun snap => update snap ;; mret tt) ;;
  foldM (pushIfStalled thresholdSec now) snapshots [].

Definition clusterStallEvent (layer : LayerName)
    (stalledNodes : list NodeInfo.t) (lastOrd : Z) (stallSecs : Num.t)
    (now : string) : HealthEvent.t :=
  HealthEvent.mk SNAPSHOT_STALL layer
    (map NodeInfo.nodeId stalledNodes)
    ("ALL " +:+ LayerName_str layer +:+ " nodes stalled at ordinal ~"
       +:+ pretty lastOrd +:+ " for " +:+ pretty (Num.round stallSecs)
       +:+ "s — full metagraph restart recommended")
    now (Some FullMetagraph).

(** The predicate of the filter of [detectClusterStall]. *)
Definition isStalled (layer : LayerName) (thresholdSec : Z)
    (n : NodeInfo.t) : M bool :=
  secs ← staleSecs (NodeInfo.nodeId n) (LayerName_str layer);
  mret (match secs with
        | Some secs => Num.ge secs thresholdSec
        | None => false
        end).

(** The type of [layer] allows ['ML0'] and ['GL0']; the body treats every
    layer name alike.  [Math.round] of the [null] that the last
    [staleSecs] could return in principle is 0. *)
Definition detectClusterStall (layer : LayerName) (nodes : list NodeInfo.t)
    (thresholdSec : Z) : M (option HealthEvent.t) :=
  now ← nowISO;
  stalledNodes ← filterM (isStalled layer thresholdSec) nodes;
  if (length stalledNodes =? length nodes)%nat && (0 <? length nodes)%nat
  then
    match stalledNodes with
    | sample :: _ =>
        tracker ← getTracker;
        let lastOrd :=
          default 0%Z
            (StallTracker.lastOrdinalFor tracker (NodeInfo.nodeId sample)
               (LayerName_str layer)) in
        stallSecs ← staleSecs (NodeInfo.nodeId sample) (LayerName_str layer);
        mret (Some (clusterStallEvent layer stalledNodes lastOrd
                      (default (Num.div1000 0) stallSecs) now))
    | [] => mret None
    end
  else mret None.
End detectors.
End Stall.

(** ** packages/health-monitor/src/restart.ts

    [ssh.ts] is not part of the sources at hand: its two functions are an
    input of the procedures, which are run on a log of what they did so
    far.  The configuration, which the procedures only hand on to
    [ssh.ts], and the lines written to the console are left out. *)

Module RestartPlan.
Record t : Type := mk {
  group : RestartGroup;
  layer : LayerName;
  nodeIds : list string;
  reason : string;
  seedNode : option string
}.
End RestartPlan.

Module Restart.

(** A call of [ssh.ts]; [restartLayerOnNode] gets [undefined] as its
    node when the list of nodes is empty. *)
Inductive Call : Type :=
| stopLayerOnNode (node : NodeInfo.t) (layer : LayerName)
| restartLayerOnNode (node : option NodeInfo.t) (layer : LayerName)
    (seedHost : option string).

Inductive Event : Type :=
| Ssh (call : Call)
| Sleep (ms : Z).

Definition Log : Type := list Event.

(** An [async] function: it adds to the log and resolves or rejects; a
    rejection ends the function that awaits it. *)
Definition Async (A : Type) : Type := Log -> Log * Js.Settled A.

Global Instance Async_ret : MRet Async := fun A x log => (log, Js.Resolved x).

Global Instance Async_bind : MBind Async := fun A B f m log =>
  match m log with
  | (log', Js.Resolved x) => f x log'
  | (log', Js.Rejected err) => (log', Js.Rejected err)
  end.

Section restart.
(** What a call of [ssh.ts] settles to, given the log at the call. *)
Variable ssh : Log -> Call -> Js.Settled unit.

Definition call (c : Call) : Async unit := fun log =>
  (log ++ [Ssh c], ssh log c).

Definition sleep (ms : Z) : Async unit := fun log =>
  (log ++ [Sleep ms], Js.Resolved tt).

(** [await Promise.all(calls)]: every call is made, and the whole
    rejects when one of them does.  The reason is taken from the first
    rejected call of the array; in JavaScript it is that of the call
    that rejects first in time. *)
Fixpoint all (calls : list Call) : Async unit := fun log =>
  match calls with
  | [] => (log, Js.Resolved tt)
  | c :: calls' =>
      let r := ssh log c in
      let '(log', rs) := all calls' (log ++ [Ssh c]) in
      (log', match r with
             | Js.Rejected err => Js.Rejected err
             | Js.Resolved _ => rs
             end)
  end.

Fixpoint forEach {A : Type} (l : list A) (body : A -> Async unit)
    : Async unit :=
  match l with
  | [] => mret tt
  | x :: l' => body x ;; forEach l' body
  end.

Definition restartIndividualNode (targetNode : NodeInfo.t)
    (layer : LayerName) (seedNode : option NodeInfo.t) : Async unit :=
  call (restartLayerOnNode (Some targetNode) layer
          (NodeInfo.host <$> seedNode)) ;;
  sleep 15000.

(** [const [genesis, ...joiners] = nodes]: [genesis] is [undefined]
    when [nodes] is empty, and then there is no joiner. *)
Definition restartFullLayer (nodes : list NodeInfo.t) (layer : LayerName)
    : Async unit :=
  all (map (fun n => stopLayerOnNode n layer) nodes) ;;
  sleep 5000 ;;
  let genesis := head nodes in
  let joiners := tail nodes in
  call (restartLayerOnNode genesis layer None) ;;
  sleep 30000 ;;
  forEach joiners (fun joiner =>
    call (restartLayerOnNode (Some joiner) layer
            (NodeInfo.host <$> genesis)) ;;
    sleep 10000).

Definition layerOrder : list LayerName := [DL1; CL1; GL0; ML0].
Definition startOrder : list LayerName := [ML0; GL0; CL1; DL1].

Definition restartFullMetagraph (nodes : list NodeInfo.t) : Async unit :=
  forEach layerOrder (fun layer =>
    all (map (fun n => stopLayerOnNode n layer) nodes) ;;
    sleep 3000) ;;
  let genesis := head nodes in
  let joiners := tail nodes in
  forEach startOrder (fun layer =>
    call (restartLayerOnNode genesis layer None) ;;
    sleep 30000 ;;
    forEach joiners (fun joiner =>
      call (restartLayerOnNode (Some joiner) layer
              (NodeInfo.host <$> genesis)) ;;
      sleep 10000) ;;
    sleep 20000).

(** [plan.nodeIds.includes(id)]. *)
Definition includes (ids : list string) (id : string) : bool :=
  bool_decide (id ∈ ids).

Definition targetNodes (plan : RestartPlan.t) (nodes : list NodeInfo.t)
    : list NodeInfo.t :=
  List.filter (fun n => includes (RestartPlan.nodeIds plan) (NodeInfo.nodeId n))
              nodes.

Definition seedNode (plan : RestartPlan.t) (nodes : list NodeInfo.t)
    : option NodeInfo.t :=
  if Js.truthy (RestartPlan.seedNode plan)
  then List.find (fun n => bool_decide (Some (NodeInfo.nodeId n)
                                        = RestartPlan.seedNode plan)) nodes
  else List.find (fun n => negb (includes (RestartPlan.nodeIds plan)
                                          (NodeInfo.nodeId n))) nodes.

Definition executeRestartPlan (plan : RestartPlan.t)
    (nodes : list NodeInfo.t) : Async unit :=
  let targetNodes := targetNodes plan nodes in
  let seedNode := seedNode plan nodes in
  match RestartPlan.group plan with
  | IndividualNode =>
      forEach targetNodes (fun node =>
        restartIndividualNode node (RestartPlan.layer plan) seedNode)
  | FullLayer => restartFullLayer nodes (RestartPlan.layer plan)
  | FullMetagraph => restartFullMetagraph nodes
  end.
End restart.
End Restart.

(** ** src/services/hypergraph-api.ts *)

Module HypergraphApi.

Module Found.
Record t (T : Type) : Type := mk { result : T; url : string }.
Arguments mk {T} result url.
Arguments result {T} t.
Arguments url {T} t.
End Found.

(** [fn] resolves to a value or to [null], or rejects.  The second
    component lists the URLs [fn] was called with, in order. *)
Fixpoint tryFirstSuccess {T : Type} (urls : list string)
    (fn : string -> Js.Settled (option T))
    : option (Found.t T) * list string :=
  match urls with
  | [] => (None, [])
  | url :: rest =>
      match fn url with
      | Js.Resolved (Some result) => (Some (Found.mk result url), [url])
      | _ =>
          let '(found, called) := tryFirstSuccess rest fn in
          (found, url :: called)
      end
  end.

End HypergraphApi.

(** ** src/conditions/hypergraph-health.ts

    [src/types.ts] is not part of the sources at hand: of a health
    snapshot the model has the fields the detector reads.  The result
    carries its condition as the string the source writes. *)

Module HypergraphHealth.
Import Watchdog.

Module HypergraphConfig.
Record t : Type := mk {
  enabled : bool;
  l0Urls : list string;
  l1Urls : option (list string);
  metagraphId : option string;
  checkIntervalMultiplier : Z
}.
End HypergraphConfig.

Module LayerHealth.
Record t : Type := mk {
  layer : Layer;
  reachable : bool;
  clusterSize : option Z
}.
End LayerHealth.

Module NodeHealth.
Record t : Type := mk {
  ip : string;
  name : string;
  layers : list LayerHealth.t
}.
End NodeHealth.

Module HealthSnapshot.
Record t : Type := mk { nodes : list NodeHealth.t }.
End HealthSnapshot.

Module Result.
Record t : Type := mk {
  detected : bool;
  condition : string;
  details : string;
  restartScope : RestartScope
}.
End Result.

(** [Math.max(...sizes)]; [None] stands for [-Infinity], the maximum of
    no number. *)
Definition mathMax (sizes : list Z) : option Z :=
  foldr (fun x acc => Some (match acc with
                            | None => x
                            | Some m => Z.max x m
                            end)) None sizes.

(** [n.layers.find(l => l.layer === 'gl0')]. *)
Definition gl0Of (n : NodeHealth.t) : option LayerHealth.t :=
  List.find (fun l => bool_decide (LayerHealth.layer l = gl0))
            (NodeHealth.layers n).

Section detector.
Context {T : Type}.
(** [deps.checkL0 ?? checkHypergraphL0] and
    [deps.getCluster ?? getHypergraphCluster]: the two requests. *)
Variable checkL0Fn : string -> Js.Settled (option T).
Variable getClusterFn : string -> Js.Settled (list ClusterMember.t).

(** [hypergraph] is [config.hypergraph]; of the rest of the
    configuration the detector reads [config.nodes.length]. *)
Definition detectHypergraphHealth (hypergraph : option HypergraphConfig.t)
    (config : Config.t) (snapshot : HealthSnapshot.t)
    : Js.Settled Result.t :=
  match hypergraph with
  | None => Js.Resolved (Result.mk false "HypergraphHealth" "" none)
  | Some hgConfig =>
      if negb (HypergraphConfig.enabled hgConfig)
      then Js.Resolved (Result.mk false "HypergraphHealth" "" none)
      else
        let l0Result :=
          (HypergraphApi.tryFirstSuccess (HypergraphConfig.l0Urls hgConfig)
             checkL0Fn).1 in
        match l0Result with
        | None =>
            Js.Resolved
              (Result.mk true "HypergraphHealth"
                 ("Hypergraph L0 unreachable — all "
                  +:+ pretty (length (HypergraphConfig.l0Urls hgConfig))
                  +:+ " URLs failed")
                 none)
        | Some l0Result =>
            let ourGl0Nodes :=
              List.filter
                (fun n => match gl0Of n with
                          | Some layer => LayerHealth.reachable layer
                          | None => false
                          end)
                (HealthSnapshot.nodes snapshot) in
            if (length ourGl0Nodes =? 0)%nat
            then Js.Resolved (Result.mk false "HypergraphHealth" "" none)
            else
              match getClusterFn (HypergraphApi.Found.url l0Result) with
              | Js.Rejected err => Js.Rejected err
              | Js.Resolved hgCluster =>
                  if (length hgCluster =? 0)%nat
                  then Js.Resolved
                         (Result.mk false "HypergraphHealth" "" none)
                  else
                    let ourNodeCount :=
                      Z.of_nat (length (Config.nodes config)) in
                    let gl0ClusterSizes :=
                      map (fun n =>
                             default 0%Z
                               (gl0Of n ≫= LayerHealth.clusterSize))
                          ourGl0Nodes in
                    let maxGl0ClusterSize := mathMax gl0ClusterSizes in
                    if match maxGl0ClusterSize with
                       | None => true
                       | Some m => (m <=? ourNodeCount)%Z
                       end
                    then
                      Js.Resolved
                        (Result.mk true "HypergraphHealth"
                           ("GL0 disconnected from hypergraph — cluster size "
                            +:+ from_option pretty "-Infinity"
                                  maxGl0ClusterSize
                            +:+ " (only local nodes), hypergraph has "
                            +:+ pretty (length hgCluster) +:+ " peers")
                           none)
                    else Js.Resolved
                           (Result.mk false "HypergraphHealth" "" none)
              end
        end
  end.
End detector.
End HypergraphHealth.

(** ** The stall detector of the watchdog over several ticks

    A tick has the node API as it answers at that time, and the reading
    of the clock in the tick.  The two module-level variables of
    [snapshots-stopped.ts] are handed from one call to the next. *)

Definition StallTick : Type := (string -> Z -> Watchdog.Layer -> Z) * Z.

(** The ordinal the detector takes in a tick; negative when no node
    answers. *)
Definition tickOrdinal (config : Watchdog.Config.t) (tick : StallTick) : Z :=
  (Watchdog.SnapshotsStopped.firstOrdinal (fst tick)
     (Watchdog.Ports.ml0 (Watchdog.Config.ports config))
     (Watchdog.Config.nodes config)).1.

Fixpoint detectSnapshotsStoppedEach (toFixed1 : Z -> string)
    (config : Watchdog.Config.t) (ticks : list StallTick)
    (st : Watchdog.SnapshotsStopped.State.t)
    : Watchdog.SnapshotsStopped.State.t * list Watchdog.DetectionResult.t :=
  match ticks with
  | [] => (st, [])
  | tick :: rest =>
      let '(st', result, _) :=
        Watchdog.SnapshotsStopped.detectSnapshotsStopped (fst tick) toFixed1
          config (snd tick) st in
      let '(final, results) :=
        detectSnapshotsStoppedEach toFixed1 config rest st' in
      (final, result :: results)
  end.

(** ** More vocabulary of the statements *)

(** No comma among the characters of a string. *)
Fixpoint noComma (s : string) : bool :=
  match s with
  | EmptyString => true
  | String c s' => negb (Ascii.eqb c ","%char) && noComma s'
  end.

(** An id that the canonical key shows as it is: not empty, without a
    comma, and not the word the key uses for no peers. *)
Definition plainId (s : string) : bool :=
  negb (String.eqb s "") && noComma s && negb (String.eqb s "EMPTY").

Definition peerIds (view : NodeClusterView.t) : list string :=
  map ClusterPeer.id (NodeClusterView.peers view).

(** Both maps of a tracker have the same keys. *)
Definition sameKeys (this : Snapshot.StallTracker.t) : Prop :=
  forall k, Snapshot.StallTracker.lastOrdinal this !! k = None
            <-> Snapshot.StallTracker.lastChanged this !! k = None.

(** A snapshot that raises what the tracker holds for its node and
    layer. *)
Definition advances (this : Snapshot.StallTracker.t)
    (snap : OrdinalSnapshot.t) : Prop :=
  match Snapshot.StallTracker.lastOrdinal this !! keyOf snap with
  | None => True
  | Some prev => (prev < OrdinalSnapshot.ordinal snap)%Z
  end.

(** An event is about one node on a layer. *)
Definition eventFor (nodeId : string) (layer : LayerName)
    (e : HealthEvent.t) : Prop :=
  HealthEvent.nodeIds e = [nodeId] /\ HealthEvent.layer e = layer.

(** *** Reading a log of [restart.ts] *)

Definition isStop (e : Restart.Event) : bool :=
  match e with
  | Restart.Ssh (Restart.stopLayerOnNode _ _) => true
  | _ => false
  end.

Definition isRestart (e : Restart.Event) : bool :=
  match e with
  | Restart.Ssh (Restart.restartLayerOnNode _ _ _) => true
  | _ => false
  end.

(** The calls of a log, without the pauses. *)
Definition callsOf (log : Restart.Log) : list Restart.Call :=
  flat_map (fun e => match e with
                     | Restart.Ssh c => [c]
                     | Restart.Sleep _ => []
                     end) log.

(** The time a log spends in pauses, in milliseconds. *)
Definition sleptMs (log : Restart.Log) : Z :=
  foldr (fun e acc => match e with
                      | Restart.Sleep ms => (ms + acc)%Z
                      | Restart.Ssh _ => acc
                      end) 0%Z log.

(** The stops of a layer, one per node. *)
Definition stopsOf (nodes : list NodeInfo.t) (layer : LayerName)
    : list Restart.Call :=
  map (fun n => Restart.stopLayerOnNode n layer) nodes.

(** The starts of a layer: the first node without seed, the others with
    the first node's host as seed. *)
Definition startsOf (nodes : list NodeInfo.t) (layer : LayerName)
    : list Restart.Call :=
  Restart.restartLayerOnNode (head nodes) layer None
  :: map (fun joiner => Restart.restartLayerOnNode (Some joiner) layer
                          (NodeInfo.host <$> head nodes))
         (tail nodes).

(** All the calls of [added], made one after the other on the log
    [log], resolve. *)
Fixpoint succeeded (ssh : Restart.Log -> Restart.Call -> Js.Settled unit)
    (log added : Restart.Log) : bool :=
  match added with
  | [] => true
  | e :: rest =>
      match e with
      | Restart.Ssh c =>
          match ssh log c with
          | Js.Resolved _ => true
          | Js.Rejected _ => false
          end
      | Restart.Sleep _ => true
      end && succeeded ssh (log ++ [e]) rest
  end.

(** How a procedure that went from [log] to [log ++ added] has ended:
    resolved, and then all its calls did; or rejected, and then a call
    did, the calls before it resolved, and nothing but stops of the same
    batch came after it, and nothing at all when it was a restart. *)
Definition endedAt (ssh : Restart.Log -> Restart.Call -> Js.Settled unit)
    (log added : Restart.Log) (r : Js.Settled unit) : Prop :=
  match r with
  | Js.Resolved _ => succeeded ssh log added = true
  | Js.Rejected err =>
      exists pre c post,
        added = pre ++ Restart.Ssh c :: post
        /\ succeeded ssh log pre = true
        /\ ssh (log ++ pre) c = Js.Rejected err
        /\ forallb isStop post = true
        /\ (isRestart (Restart.Ssh c) = true -> post = [])
  end.

(** A procedure that only adds to the log and ends as [endedAt] says. *)
Definition failsFast (ssh : Restart.Log -> Restart.Call -> Js.Settled unit)
    (m : Restart.Async unit) : Prop :=
  forall log, exists added,
    (m log).1 = log ++ added /\ endedAt ssh log added (m log).2.

(** A procedure that, when it resolves, has added [events] to the log. *)
Definition logsWhenResolved (m : Restart.Async unit) (events : Restart.Log)
    : Prop :=
  forall log log', m log = (log', Js.Resolved tt) -> log' = log ++ events.

(** *** Reading a health snapshot of the watchdog *)

(** The reachable GL0 entries of a snapshot, one per node that has
    one. *)
Definition reachableGl0 (snapshot : HypergraphHealth.HealthSnapshot.t)
    : list HypergraphHealth.LayerHealth.t :=
  omap (fun n => match HypergraphHealth.gl0Of n with
                 | Some layer =>
                     if HypergraphHealth.LayerHealth.reachable layer
                     then Some layer else None
                 | None => None
                 end)
       (HypergraphHealth.HealthSnapshot.nodes snapshot).

(** A request that gives no result: it resolves to [null], or it
    rejects. *)
Definition noResult {T : Type} (r : Js.Settled (option T)) : Prop :=
  match r with
  | Js.Resolved (Some _) => False
  | _ => True
  end.

(** ** More concrete inputs *)

Module Cases.

(** *** packages/health-monitor *)

Definition layers4 : list LayerConfig.t :=
  [ LayerConfig.mk GL0 9000; LayerConfig.mk ML0 9200;
    LayerConfig.mk CL1 9300; LayerConfig.mk DL1 9400 ].

Definition nodeA : NodeInfo.t := NodeInfo.mk "1" "10.0.0.1" layers4.
Definition nodeB : NodeInfo.t := NodeInfo.mk "2" "10.0.0.2" layers4.
Definition nodes2 : list NodeInfo.t := [nodeA; nodeB].

(** No request gets through. *)
Definition refused : Cluster.FetchFn := fun _ => Js.Rejected "ECONNREFUSED".

(** Every node answers with the same two peers. *)
Definition bothPeers : list ClusterPeer.t :=
  [Scenario.peer "pa"; Scenario.peer "pb"].

Definition agreed : Cluster.FetchFn :=
  fun _ => Js.Resolved (Cluster.JArray bothPeers).

(** A clock that stands at noon, and one that stands at five past. *)
Definition atNoon : Clock.t := fun _ => Scenario.noon.
Definition fivePast : Clock.t := fun _ => (Scenario.noon + 300000)%Z.

(** A stand-in for [toISOString]. *)
Definition toISOString (ms : Z) : string := "t" +:+ pretty ms.

(** The node of [Scenario.ordinalAt]. *)
Definition n1 : NodeInfo.t :=
  NodeInfo.mk "n1" "10.0.0.1" [LayerConfig.mk ML0 9200].

(** A tracker that has seen nothing, and one that saw ordinal 100 of
    node n1 at noon; no reading of the clock made yet. *)
Definition fresh : Stall.World.t :=
  Stall.World.mk Snapshot.StallTracker.new 0.

Definition seen : Stall.World.t := Stall.World.mk Scenario.seen100 0.

(** An [ssh.ts] on which every call resolves. *)
Definition reliable : Restart.Log -> Restart.Call -> Js.Settled unit :=
  fun _ _ => Js.Resolved tt.

Definition restartNode1 : RestartPlan.t :=
  RestartPlan.mk IndividualNode ML0 ["1"] "fork" None.

(** *** The watchdog (src/) *)

(** Every node sees the same two members, node 1 in another order. *)
Definition shuffled (ip : string) (port : Z)
    : list Watchdog.ClusterMember.t :=
  if String.eqb ip "10.0.0.1"
  then [Scenario.member "p1"; Scenario.member "p2"]
  else [Scenario.member "p2"; Scenario.member "p1"].

(** Ordinal 500 at noon, a minute later and five minutes later. *)
Definition firstAt500 : StallTick := (Scenario.ordinal500, Scenario.noon).

Definition stillAt500 : list StallTick :=
  [ (Scenario.ordinal500, Scenario.noon + 60000);
    (Scenario.ordinal500, Scenario.noon + 300000) ]%Z.

End Cases.

(** * Properties *)

Import Cluster.

(** ** The canonical key *)

Lemma sort_Sorted (l : list string) : Sorted String.le (Js.sort l).
Proof. apply Sorted_merge_sort, _. Qed.

Lemma sort_perm (l : list string) : Js.sort l ≡ₚ l.
Proof. apply merge_sort_Permutation. Qed.

(** Sorting forgets the order of its input. *)
Lemma sort_Permutation (l1 l2 : list string) :
  l1 ≡ₚ l2 → Js.sort l1 = Js.sort l2.
Proof.
  intros Hp. apply (Sorted_unique String.le); try apply sort_Sorted.
  by rewrite !sort_perm.
Qed.

(** C9.  The canonical key of a view does not depend on the order of its
    peers: any permutation of the peers gives the same key.  For a view
    without error the key is the comma-joined list of the peer ids sorted
    in ascending order, or [EMPTY] when that string is empty. *)
Theorem clusterKey_permutation
    (view : NodeClusterView.t) (peers' : list ClusterPeer.t) :
  NodeClusterView.peers view ≡ₚ peers' →
  clusterKey (withPeers view peers') = clusterKey view
  ∧ (isError view = false →
     ∃ ids, Sorted String.le ids
            ∧ ids ≡ₚ map ClusterPeer.id (NodeClusterView.peers view)
            ∧ clusterKey view = Js.or_else (Js.join "," ids) "EMPTY").
Proof.
  intros Hp. split.
  - unfold clusterKey, withPeers; simpl.
    destruct (Js.truthy _); [done|].
    by rewrite (sort_Permutation _ _ (Permutation_map ClusterPeer.id Hp)).
  - intros Hh.
    exists (Js.sort (map ClusterPeer.id (NodeClusterView.peers view))).
    split; [apply sort_Sorted|]. split; [apply sort_perm|].
    unfold clusterKey. unfold isError in Hh. by rewrite Hh.
Qed.

Lemma clusterKey_permutation_witness :
  let view := Scenario.view "1" ["peer-c"; "peer-a"] None in
  let peers' := [Scenario.peer "peer-a"; Scenario.peer "peer-c"] in
  NodeClusterView.peers view ≡ₚ peers'
  ∧ clusterKey (withPeers view peers') = "peer-a,peer-c"
  ∧ clusterKey view = "peer-a,peer-c".
Proof.
  assert (Hp : NodeClusterView.peers (Scenario.view "1" ["peer-c"; "peer-a"] None)
               ≡ₚ [Scenario.peer "peer-a"; Scenario.peer "peer-c"]).
  { simpl. apply perm_swap. }
  split; [exact Hp|].
  destruct (clusterKey_permutation _ _ Hp) as [Heq _].
  split; [|reflexivity]. rewrite Heq. reflexivity.
Defined.

(** The watchdog's digest of a cluster point of view is taken from the
    sorted ids as well. *)
Lemma hashClusterPOV_permutation
    (sha256_hex : string → string) (stringify : list string → string)
    (members members' : list Watchdog.ClusterMember.t) :
  members ≡ₚ members' →
  Watchdog.ForkedCluster.hashClusterPOV sha256_hex stringify members'
  = Watchdog.ForkedCluster.hashClusterPOV sha256_hex stringify members.
Proof.
  intros Hp. unfold Watchdog.ForkedCluster.hashClusterPOV.
  by rewrite (sort_Permutation _ _ (Permutation_map Watchdog.ClusterMember.id Hp)).
Qed.

(** The key keeps every id, also one that occurs twice. *)
Example clusterKey_keeps_duplicates :
  clusterKey (Scenario.view "1" ["b"; "a"; "b"] None) = "a,b,b".
Proof. reflexivity. Qed.

(** ** Polling *)

Lemma append_nonempty (a b : string) : a ≠ "" → a +:+ b ≠ "".
Proof. destruct a; [done|]. simpl. discriminate. Qed.

(** C8, as the code has it.  A view with an error has no peers.  The error
    is set exactly when the layer is not configured for the node (with a
    diagnostic that is not empty) or when the fetch fails (with the text of
    what was thrown).  A view that was polled with success has no error and
    carries the array the endpoint answered with, or no peers when the
    answer is not an array: its peers may be empty. *)
Theorem pollNodeCluster_error_peers
    (node : NodeInfo.t) (layer : LayerName) (fetchFn : FetchFn) (now : string) :
  let view := pollNodeCluster node layer fetchFn now in
  (NodeClusterView.error view ≠ None → NodeClusterView.peers view = [])
  ∧ (layerConfigOf node layer = None →
     ∃ msg, NodeClusterView.error view = Some msg ∧ msg ≠ "")
  ∧ (∀ cfg err,
       layerConfigOf node layer = Some cfg →
       fetchFn (clusterInfoUrl (NodeInfo.host node) (LayerConfig.port cfg))
         = Js.Rejected err →
       NodeClusterView.error view = Some err)
  ∧ (∀ cfg data,
       layerConfigOf node layer = Some cfg →
       fetchFn (clusterInfoUrl (NodeInfo.host node) (LayerConfig.port cfg))
         = Js.Resolved data →
       NodeClusterView.error view = None
       ∧ NodeClusterView.peers view
         = match data with JArray items => items | JOther => [] end).
Proof.
  unfold pollNodeCluster, layerConfigOf, clusterInfoUrl.
  destruct (List.find _ _) as [cfg|] eqn:Hfind.
  - destruct (fetchFn _) as [data|err] eqn:Hfetch; simpl;
      split_and!; try done;
      intros cfg' x Hcfg Hx; simplify_eq; rewrite Hfetch in Hx; by simplify_eq.
  - simpl. split_and!; try done.
    intros _. eexists; split; [done|]. by apply append_nonempty.
Qed.

Lemma pollNodeCluster_error_peers_witness :
  let view := pollNodeCluster Scenario.node1 GL0 Scenario.emptyCluster Scenario.now in
  layerConfigOf Scenario.node1 GL0 = Some (LayerConfig.mk GL0 9000)
  ∧ Scenario.emptyCluster (clusterInfoUrl "10.0.0.1" 9000) = Js.Resolved (JArray [])
  ∧ NodeClusterView.error view = None
  ∧ NodeClusterView.peers view = [].
Proof.
  split; [reflexivity|]. split; [reflexivity|].
  destruct (pollNodeCluster_error_peers Scenario.node1 GL0 Scenario.emptyCluster
              Scenario.now) as (_ & _ & _ & Hok).
  exact (Hok (LayerConfig.mk GL0 9000) (JArray []) eq_refl eq_refl).
Defined.

(** A node whose endpoint answers with an empty array is polled with
    success: its view has no peers and no error, so an empty peers list
    does not imply an error. *)
Lemma pollNodeCluster_empty_without_error :
  let view := pollNodeCluster Scenario.node1 GL0 Scenario.emptyCluster Scenario.now in
  ¬ (NodeClusterView.error view ≠ None ↔ NodeClusterView.peers view = []).
Proof. simpl. intros [_ H]. by apply H. Qed.

(** ** The stall tracker *)

Import Snapshot.

(** One call of [update] either overwrites the entry of the snapshot's
    key, on a first observation or a strictly larger ordinal, or changes
    nothing. *)
Lemma update_cases (this : StallTracker.t) (snap : OrdinalSnapshot.t) (now : Z) :
  (StallTracker.update this snap now
     = (StallTracker.mk
          (<[keyOf snap := OrdinalSnapshot.ordinal snap]> (StallTracker.lastOrdinal this))
          (<[keyOf snap := now]> (StallTracker.lastChanged this)), true)
   ∧ (StallTracker.lastOrdinal this !! keyOf snap = None
      ∨ ∃ prev, StallTracker.lastOrdinal this !! keyOf snap = Some prev
                ∧ (prev < OrdinalSnapshot.ordinal snap)%Z))
  ∨ (StallTracker.update this snap now = (this, false)
     ∧ ∃ prev, StallTracker.lastOrdinal this !! keyOf snap = Some prev
               ∧ (OrdinalSnapshot.ordinal snap ≤ prev)%Z).
Proof.
  unfold StallTracker.update, keyOf.
  destruct (StallTracker.lastOrdinal this !! _) as [prev|] eqn:Hprev.
  - destruct (Z.ltb_spec prev (OrdinalSnapshot.ordinal snap)).
    + left. split; [done|]. right. eauto.
    + right. split; [done|]. eauto.
  - left. split; [done|]. by left.
Qed.

Lemma update_lastOrdinal_mono (this : StallTracker.t) (snap : OrdinalSnapshot.t)
    (now : Z) (k : string) (a : Z) :
  StallTracker.lastOrdinal this !! k = Some a →
  ∃ b, StallTracker.lastOrdinal (StallTracker.update this snap now).1 !! k = Some b
       ∧ (a ≤ b)%Z.
Proof.
  intros Ha.
  destruct (update_cases this snap now) as [[-> Hc]|[-> _]]; simpl.
  - destruct (decide (keyOf snap = k)) as [<-|Hne].
    + rewrite lookup_insert_eq. eexists; split; [done|].
      destruct Hc as [Hc|(prev & Hc & Hlt)]; simplify_eq; lia.
    + rewrite lookup_insert_ne; [|done]. eexists; split; [done|lia].
  - eexists; split; [done|lia].
Qed.

Lemma updates_cons (this : StallTracker.t) (snap : OrdinalSnapshot.t) (now : Z)
    (calls : list (OrdinalSnapshot.t * Z)) :
  updates this ((snap, now) :: calls)
  = ((updates (StallTracker.update this snap now).1 calls).1,
     (StallTracker.update this snap now).2
       :: (updates (StallTracker.update this snap now).1 calls).2).
Proof.
  simpl. destruct (StallTracker.update this snap now) as [this' r]; simpl.
  by destruct (updates this' calls).
Qed.

Lemma updates_lastOrdinal_mono (calls : list (OrdinalSnapshot.t * Z)) :
  ∀ (this : StallTracker.t) (k : string) (a : Z),
    StallTracker.lastOrdinal this !! k = Some a →
    ∃ b, StallTracker.lastOrdinal (updates this calls).1 !! k = Some b ∧ (a ≤ b)%Z.
Proof.
  induction calls as [|[snap now] calls IH]; intros this k a Ha.
  - exists a. split; [done|lia].
  - rewrite updates_cons; simpl.
    destruct (update_lastOrdinal_mono this snap now k a Ha) as (b & Hb & Hab).
    destruct (IH _ k b Hb) as (c & Hc & Hbc).
    exists c. split; [done|lia].
Qed.




(** ** The grouping loop *)

Section groups_facts.
Context {A K : Type} `{EqDecision K}.
Variables (skip : A → bool) (key : A → K) (val : A → string).

Abbreviation groupStep := (groupStep skip key val).
Abbreviation groupsOf := (groupsOf skip key val).
Abbreviation members := (members skip key val).
Abbreviation grouped := (grouped skip key val).

Lemma get_absent (m : list (K * list string)) (k : K) :
  ¬ In k (map fst m) → JsMap.get m k = None.
Proof.
  induction m as [|[k' v'] m IH]; simpl; [done|]. intros Hn.
  destruct (decide (k = k')) as [->|Hne]; [tauto|]. apply IH. tauto.
Qed.

Lemma set_absent (m : list (K * list string)) (k : K) (v : list string) :
  ¬ In k (map fst m) → JsMap.set m k v = m ++ [(k, v)].
Proof.
  induction m as [|[k' v'] m IH]; simpl; [done|]. intros Hn.
  destruct (decide (k = k')) as [->|Hne]; [tauto|]. rewrite IH; [done|tauto].
Qed.

Lemma set_present (m : list (K * list string)) (k : K) (v : list string) :
  In k (map fst m) →
  ∃ g1 v0 g2, m = g1 ++ (k, v0) :: g2 ∧ ¬ In k (map fst g1)
              ∧ JsMap.get m k = Some v0
              ∧ JsMap.set m k v = g1 ++ (k, v) :: g2.
Proof.
  induction m as [|[k' v'] m IH]; simpl; [done|]. intros Hin.
  destruct (decide (k = k')) as [->|Hne].
  - exists [], v', m. simpl. tauto.
  - destruct IH as (g1 & v0 & g2 & -> & Hg1 & Hget & Hset).
    { destruct Hin as [Hin|Hin]; [congruence|done]. }
    exists ((k', v') :: g1), v0, g2. simpl. rewrite Hset.
    split_and!; try done. intros [?|?]; [congruence|tauto].
Qed.

Lemma groupsOf_snoc (l : list A) (x : A) :
  groupsOf (l ++ [x]) = groupStep (groupsOf l) x.
Proof. unfold groupsOf. by rewrite fold_left_app. Qed.

Lemma members_snoc (k : K) (l : list A) (x : A) :
  members k (l ++ [x])
  = members k l
    ++ (if negb (skip x) && bool_decide (key x = k) then [val x] else []).
Proof.
  unfold members. rewrite List.filter_app, List.map_app. simpl.
  by destruct (negb (skip x) && bool_decide (key x = k)).
Qed.

Lemma members_snoc_other (k : K) (l : list A) (x : A) :
  skip x = true ∨ key x ≠ k → members k (l ++ [x]) = members k l.
Proof.
  intros Hx. rewrite members_snoc.
  destruct Hx as [->|Hne]; simpl; [by rewrite app_nil_r|].
  rewrite bool_decide_false by done. rewrite andb_false_r. by rewrite app_nil_r.
Qed.

Lemma members_snoc_same (l : list A) (x : A) :
  skip x = false → members (key x) (l ++ [x]) = members (key x) l ++ [val x].
Proof.
  intros Hx. rewrite members_snoc, Hx. simpl.
  by rewrite bool_decide_true.
Qed.

Lemma grouped_groupsOf (l : list A) : grouped l (groupsOf l).
Proof.
  induction l as [|x l IH] using rev_ind.
  - split_and!; [constructor|done|done].
  - rewrite groupsOf_snoc. unfold groupStep.
    destruct IH as (Hnd & Hmem & Hkeys).
    destruct (skip x) eqn:Hskip.
    + split_and!; [done| |].
      * intros k ns Hin. rewrite members_snoc_other by auto. by apply Hmem.
      * intros y [Hy|[<-|[]]]%in_app_iff Hs; [by apply Hkeys|congruence].
    + destruct (List.in_dec (λ a b, decide (a = b)) (key x) (map fst (groupsOf l))) as [Hin|Hnin].
      * destruct (set_present _ _ (default [] (JsMap.get (groupsOf l) (key x)) ++ [val x]) Hin)
          as (g1 & v0 & g2 & Hm & Hg1 & Hget & Hset).
        rewrite Hset, Hget. simpl. rewrite Hm in Hnd, Hmem, Hkeys.
        assert (Hk : map fst (g1 ++ (key x, v0 ++ [val x]) :: g2)
                     = map fst (g1 ++ (key x, v0) :: g2)).
        { by rewrite !List.map_app. }
        split_and!.
        -- by rewrite Hk.
        -- intros k ns [Hi|[Hi|Hi]]%in_app_iff.
           ++ assert (k ≠ key x).
              { intros ->. apply Hg1. apply in_map_iff. by exists (key x, ns). }
              rewrite members_snoc_other by auto.
              apply Hmem. apply in_app_iff. by left.
           ++ injection Hi as <- <-.
              rewrite members_snoc_same by done.
              destruct (Hmem (key x) v0) as [-> _].
              { apply in_app_iff. right. by left. }
              split; [done|]. by destruct (members (key x) l).
           ++ assert (k ≠ key x).
              { intros ->. rewrite List.map_app in Hnd. simpl in Hnd.
                apply List.NoDup_remove_2 in Hnd. apply Hnd.
                apply in_app_iff. right. apply in_map_iff. by exists (key x, ns). }
              rewrite members_snoc_other by auto.
              apply Hmem. apply in_app_iff. right. by right.
        -- rewrite Hk. intros y [Hy|[<-|[]]]%in_app_iff Hs; [by apply Hkeys|].
           rewrite List.map_app. apply in_app_iff. right. by left.
      * rewrite set_absent, get_absent by done. simpl.
        split_and!.
        -- rewrite List.map_app. simpl.
           apply NoDup_ListNoDup. apply NoDup_app. split_and!.
           ++ by apply NoDup_ListNoDup.
           ++ intros k Hk1 Hk2. apply list_elem_of_In in Hk1.
              apply list_elem_of_singleton in Hk2. by subst.
           ++ apply NoDup_singleton.
        -- intros k ns [Hi|[Hi|[]]]%in_app_iff.
           ++ assert (k ≠ key x).
              { intros ->. apply Hnin. apply in_map_iff. by exists (key x, ns). }
              rewrite members_snoc_other by auto. by apply Hmem.
           ++ injection Hi as <- <-.
              rewrite members_snoc_same by done.
              assert (members (key x) l = []) as ->; [|done].
              unfold members.
              destruct (List.filter _ l) as [|y f] eqn:Hf; [done|exfalso].
              assert (Hy : In y (List.filter
                 (λ x0, negb (skip x0) && bool_decide (key x0 = key x)) l)).
              { rewrite Hf. by left. }
              apply filter_In in Hy as [Hy [Hs Hky]%andb_prop].
              apply bool_decide_eq_true in Hky. apply negb_true_iff in Hs.
              apply Hnin. rewrite <- Hky. by apply Hkeys.
        -- intros y [Hy|[<-|[]]]%in_app_iff Hs; rewrite List.map_app;
             apply in_app_iff; [left; by apply Hkeys|right; by left].
Qed.
End groups_facts.

Section order_facts.
Context {A K : Type} `{EqDecision K}.
Variables (skip : A → bool) (key : A → K) (val : A → string).

Abbreviation groupsOf' := (groupsOf skip key val).

Lemma split_same_keys {V : Type} (g1 g2 : list (K * V)) (e : K * V) :
  ∀ m : list (K * V),
    map fst m = map fst (g1 ++ e :: g2) →
    ∃ h1 v h2, m = h1 ++ (fst e, v) :: h2 ∧ map fst h1 = map fst g1.
Proof.
  induction g1 as [|a g1 IH]; intros m Hm; simpl in Hm.
  - destruct m as [|[k v] m]; [done|]. simpl in Hm. injection Hm as -> _.
    by exists [], v, m.
  - destruct m as [|b m]; [done|]. simpl in Hm. injection Hm as Hb Hm.
    destruct (IH m Hm) as (h1 & v & h2 & -> & Hh).
    exists (b :: h1), v, h2. simpl. by rewrite Hb, Hh.
Qed.

Lemma snoc_split {V : Type} (m g1 g2 : list V) (e e' : V) :
  m ++ [e] = g1 ++ e' :: g2 →
  (g2 = [] ∧ g1 = m ∧ e' = e) ∨ (∃ g2', g2 = g2' ++ [e] ∧ m = g1 ++ e' :: g2').
Proof.
  destruct g2 as [|z g2 _] using rev_ind; intros Heq.
  - left. apply app_inj_tail in Heq as [-> ->]. done.
  - right. exists g2.
    change (g1 ++ e' :: g2 ++ [z]) with (g1 ++ (e' :: g2) ++ [z]) in Heq.
    rewrite app_assoc in Heq. by apply app_inj_tail in Heq as [-> ->].
Qed.

(** The groups are in the order in which their keys first occur: the
    first element with the key of a group comes after elements whose
    keys all belong to earlier groups. *)
Lemma groupsOf_first_occurrence (l : list A) :
  ∀ g1 k ns g2,
    groupsOf' l = g1 ++ (k, ns) :: g2 →
    ∃ l1 x l2, l = l1 ++ x :: l2 ∧ skip x = false ∧ key x = k
               ∧ ∀ y, In y l1 → skip y = false → In (key y) (map fst g1).
Proof.
  induction l as [|x l IH] using rev_ind; intros g1 k ns g2 Hm.
  - by destruct g1.
  - rewrite groupsOf_snoc in Hm. unfold groupStep in Hm.
    destruct (grouped_groupsOf skip key val l) as (Hnd & Hmem & Hkeys).
    assert (Hext : ∀ g1' v g2',
               groupsOf' l = g1' ++ (k, v) :: g2' → map fst g1' = map fst g1 →
               ∃ l1 x0 l2, l ++ [x] = l1 ++ x0 :: l2 ∧ skip x0 = false
                 ∧ key x0 = k
                 ∧ ∀ y, In y l1 → skip y = false → In (key y) (map fst g1)).
    { intros g1' v g2' Hl Hg.
      destruct (IH _ _ _ _ Hl) as (l1 & x0 & l2 & -> & Hs & Hk & Hbefore).
      exists l1, x0, (l2 ++ [x]). rewrite <- app_assoc. simpl.
      split_and!; try done. rewrite <- Hg. done. }
    destruct (skip x) eqn:Hskip.
    + by apply (Hext g1 ns g2).
    + destruct (List.in_dec (λ a b, decide (a = b)) (key x)
                  (map fst (groupsOf' l))) as [Hin|Hnin].
      * destruct (set_present _ _
            (default [] (JsMap.get (groupsOf' l) (key x)) ++ [val x]) Hin)
          as (h1 & v0 & h2 & Hl & _ & _ & Hset).
        rewrite Hset in Hm.
        assert (Hk : map fst (groupsOf' l) = map fst (g1 ++ (k, ns) :: g2)).
        { rewrite <- Hm, Hl, !List.map_app. done. }
        destruct (split_same_keys _ _ _ _ Hk) as (g1' & v & g2' & Hl' & Hg).
        by apply (Hext g1' v g2').
      * rewrite set_absent in Hm by done.
        apply snoc_split in Hm as [(-> & -> & Heq)|(g2' & -> & Hl)].
        -- injection Heq as -> _.
           exists l, x, []. split_and!; try done.
        -- by apply (Hext g1 ns g2').
Qed.

(** The second loop keeps the first group of greatest length. *)
Lemma largest_fold {K' : Type} (groups : list (K' * list string)) :
  ∀ best : K' * list string,
    let r := fold_left
               (fun best entry =>
                  if (length (snd best) <? length (snd entry))%nat
                  then entry else best) groups best in
    (r = best ∧ ∀ e, In e groups → (length (snd e) ≤ length (snd best))%nat)
    ∨ (∃ g1 g2, groups = g1 ++ r :: g2
         ∧ (length (snd best) < length (snd r))%nat
         ∧ (∀ e, In e g1 → (length (snd e) < length (snd r))%nat)
         ∧ (∀ e, In e g2 → (length (snd e) ≤ length (snd r))%nat)).
Proof.
  induction groups as [|e groups IH]; intros best; simpl.
  - left. split; [done|]. intros e [].
  - destruct (Nat.ltb_spec (length (snd best)) (length (snd e))) as [Hlt|Hge].
    + right. destruct (IH e) as [[Hr Hall]|(g1 & g2 & Hg & Hbr & Hg1 & Hg2)].
      * exists [], groups. simpl in *. rewrite Hr. split_and!; try done.
      * exists (e :: g1), g2. simpl in *. split_and!.
        -- by rewrite Hg at 1.
        -- lia.
        -- intros e' [<-|He']; [lia|by apply Hg1].
        -- done.
    + destruct (IH best) as [[Hr Hall]|(g1 & g2 & Hg & Hbr & Hg1 & Hg2)].
      * left. simpl in *. split; [done|]. intros e' [<-|He']; [lia|by apply Hall].
      * right. exists (e :: g1), g2. simpl in *. split_and!.
        -- by rewrite Hg at 1.
        -- lia.
        -- intros e' [<-|He']; [lia|by apply Hg1].
        -- done.
Qed.

Lemma largest_spec {K' : Type} (init : K') (groups : list (K' * list string)) :
  (∃ e, In e groups ∧ snd e ≠ []) →
  ∃ g1 g2, groups = g1 ++ Cluster.largest init groups :: g2
    ∧ (∀ e, In e g1 →
            (length (snd e) < length (snd (Cluster.largest init groups)))%nat)
    ∧ (∀ e, In e g2 →
            (length (snd e) ≤ length (snd (Cluster.largest init groups)))%nat).
Proof.
  intros (e & He & Hne). unfold Cluster.largest.
  destruct (largest_fold groups (init, [])) as [[_ Hall]|(g1 & g2 & Hg & _ & H1 & H2)].
  - specialize (Hall e He). simpl in Hall. destruct (snd e); [done|simpl in Hall; lia].
  - by exists g1, g2.
Qed.
End order_facts.

Section minority_facts.
Context {A K : Type} `{EqDecision K}.
Variables (skip : A → bool) (key : A → K) (val : A → string).

Lemma offKey_app (k0 k : K) (a b : list string) :
  offKey k0 (k, a ++ b) = offKey k0 (k, a) ++ offKey k0 (k, b).
Proof. unfold offKey. simpl. by destruct (decide (k = k0)). Qed.

Lemma flat_map_set (k0 : K) (m : list (K * list string)) (k : K) (v : string) :
  flat_map (offKey k0) (JsMap.set m k (default [] (JsMap.get m k) ++ [v]))
  ≡ₚ flat_map (offKey k0) m ++ offKey k0 (k, [v]).
Proof.
  induction m as [|[k' v'] m IH]; simpl.
  - by rewrite app_nil_r.
  - destruct (decide (k = k')) as [->|Hne]; simpl.
    + rewrite offKey_app, <- !app_assoc.
      apply Permutation_app_head, Permutation_app_comm.
    + rewrite IH. by rewrite app_assoc.
Qed.

(** The groups off a key hold the kept elements off that key. *)
Lemma groupsOf_others (k0 : K) (l : list A) :
  flat_map (offKey k0) (groupsOf skip key val l) ≡ₚ others skip key val k0 l.
Proof.
  induction l as [|x l IH] using rev_ind; [done|].
  rewrite groupsOf_snoc. unfold groupStep, others.
  rewrite List.filter_app, List.map_app. simpl.
  destruct (skip x); simpl.
  - by rewrite app_nil_r.
  - rewrite flat_map_set, IH. unfold offKey, others. simpl.
    destruct (decide (key x = k0)) as [Hk|Hk].
    + by rewrite bool_decide_true.
    + by rewrite bool_decide_false.
Qed.

Lemma groupsOf_filter (l : list A) :
  groupsOf skip key val (List.filter (fun x => negb (skip x)) l)
  = groupsOf skip key val l.
Proof.
  induction l as [|x l IH] using rev_ind; [done|].
  rewrite List.filter_app. simpl. rewrite groupsOf_snoc. unfold groupStep at 1.
  destruct (skip x) eqn:Hs; simpl.
  - by rewrite app_nil_r.
  - rewrite groupsOf_snoc. unfold groupStep. rewrite Hs. by rewrite IH.
Qed.
End minority_facts.

(** ** The majority partition *)

Lemma keyGroups_groupsOf (views : list NodeClusterView.t) :
  keyGroups views = groupsOf isError clusterKey NodeClusterView.nodeId views.
Proof. reflexivity. Qed.

Lemma members_healthyWithKey (k : string) (views : list NodeClusterView.t) :
  members isError clusterKey NodeClusterView.nodeId k views
  = map NodeClusterView.nodeId (healthyWithKey k views).
Proof. reflexivity. Qed.

Lemma keyGroups_nonempty (views : list NodeClusterView.t) (v : NodeClusterView.t) :
  In v views → isError v = false →
  ∃ e, In e (keyGroups views) ∧ snd e ≠ [].
Proof.
  intros Hv Hh. rewrite keyGroups_groupsOf.
  destruct (grouped_groupsOf isError clusterKey NodeClusterView.nodeId views)
    as (_ & Hmem & Hkeys).
  specialize (Hkeys v Hv Hh). apply in_map_iff in Hkeys as ([k ns] & Hk & Hin).
  exists (k, ns). split; [done|]. by apply (Hmem k ns).
Qed.

(** [findMajority] on a snapshot with a view without error. *)
Lemma findMajority_healthy (s : ClusterSnapshot.t) (v : NodeClusterView.t) :
  In v (ClusterSnapshot.views s) → isError v = false →
  findMajority s
  = let best := largest "" (keyGroups (ClusterSnapshot.views s)) in
    Majority.mk (fst best) (snd best)
      (flat_map (fun entry => if decide (fst entry = fst best) then [] else snd entry)
                (keyGroups (ClusterSnapshot.views s)))
      (map NodeClusterView.nodeId (List.filter isError (ClusterSnapshot.views s))).
Proof.
  intros Hv Hh. unfold findMajority.
  destruct (keyGroups_nonempty _ _ Hv Hh) as (e & He & _).
  destruct (keyGroups (ClusterSnapshot.views s)); [done|]. done.
Qed.

(** The majority nodes are the nodes of the views without error that have
    the majority key. *)
Lemma findMajority_majorityNodes (s : ClusterSnapshot.t) (v : NodeClusterView.t) :
  In v (ClusterSnapshot.views s) → isError v = false →
  Majority.majorityNodes (findMajority s)
  = map NodeClusterView.nodeId
      (healthyWithKey (Majority.majorityKey (findMajority s))
                      (ClusterSnapshot.views s)).
Proof.
  intros Hv Hh. rewrite (findMajority_healthy s v Hv Hh). simpl.
  destruct (grouped_groupsOf isError clusterKey NodeClusterView.nodeId
              (ClusterSnapshot.views s)) as (_ & Hmem & _).
  rewrite <- keyGroups_groupsOf in Hmem.
  destruct (largest_spec "" (keyGroups (ClusterSnapshot.views s))
              (keyGroups_nonempty _ _ Hv Hh)) as (g1 & g2 & Hsplit & _).
  destruct (largest "" (keyGroups (ClusterSnapshot.views s))) as [k ns].
  destruct (Hmem k ns) as [-> _]; [|done].
  rewrite Hsplit. apply in_app_iff. right. by left.
Qed.


Lemma keyGroups_all_errors (views : list NodeClusterView.t) :
  List.filter (fun v => negb (isError v)) views = [] → keyGroups views = [].
Proof.
  intros Hf. rewrite keyGroups_groupsOf, <- groupsOf_filter. by rewrite Hf.
Qed.

Lemma keyGroups_healthy_only (views : list NodeClusterView.t) :
  keyGroups (List.filter (fun v => negb (isError v)) views) = keyGroups views.
Proof. rewrite !keyGroups_groupsOf. apply groupsOf_filter. Qed.

Lemma filter_nil_iff {A : Type} (f : A → bool) (l : list A) :
  List.filter f l = [] ↔ ∀ x, In x l → f x = false.
Proof.
  split.
  - intros Hf x Hx. destruct (f x) eqn:Hfx; [|done].
    assert (In x (List.filter f l)) by (apply filter_In; done).
    rewrite Hf in *. done.
  - intros Hall. induction l as [|x l IH]; [done|]. simpl.
    rewrite (Hall x) by (by left). apply IH. intros y Hy. apply Hall. by right.
Qed.

(** The three node lists of [findMajority], read off the views. *)
Lemma findMajority_partition (s : ClusterSnapshot.t) :
  let views := ClusterSnapshot.views s in
  let m := findMajority s in
  Majority.unreachable m = map NodeClusterView.nodeId (List.filter isError views)
  ∧ Majority.majorityNodes m
    = map NodeClusterView.nodeId (healthyWithKey (Majority.majorityKey m) views)
  ∧ Majority.minorityNodes m
    ≡ₚ map NodeClusterView.nodeId (healthyOffKey (Majority.majorityKey m) views).
Proof.
  intros views m.
  destruct (List.filter (fun v => negb (isError v)) views) as [|v0 rest] eqn:Hh.
  - subst m. unfold findMajority. fold views.
    rewrite (keyGroups_all_errors views Hh). simpl.
    pose proof (proj1 (filter_nil_iff _ _) Hh) as Hall.
    split_and!; [done| |].
    + unfold healthyWithKey.
      rewrite (proj2 (filter_nil_iff _ views)); [done|].
      intros x Hx. by rewrite (Hall x Hx).
    + unfold healthyOffKey.
      rewrite (proj2 (filter_nil_iff _ views)); [done|].
      intros x Hx. by rewrite (Hall x Hx).
  - assert (Hv0 : In v0 views ∧ isError v0 = false).
    { assert (Hin : In v0 (List.filter (fun v => negb (isError v)) views))
        by (rewrite Hh; by left).
      apply filter_In in Hin as [? ?%negb_true_iff]. done. }
    destruct Hv0 as [Hv0 Hh0].
    pose proof (findMajority_majorityNodes s v0 Hv0 Hh0) as Hmaj.
    split_and!; [|done|].
    + subst m. by rewrite (findMajority_healthy s v0 Hv0 Hh0).
    + subst m. rewrite (findMajority_healthy s v0 Hv0 Hh0). simpl. fold views.
      rewrite keyGroups_groupsOf. apply groupsOf_others.
Qed.

(** The fork event of a snapshot lists the minority nodes, the nodes of
    the views without error whose key is not the majority key, and exists
    only when there are some.  It suggests [IndividualNode] exactly when
    the minority nodes are strictly fewer than the majority nodes, and
    [FullLayer] exactly when they are at least as many. *)
Lemma detectForks_fork_event (s : ClusterSnapshot.t) (event : HealthEvent.t) :
  let m := findMajority s in
  let minority := healthyOffKey (Majority.majorityKey m) (ClusterSnapshot.views s) in
  let majority := healthyWithKey (Majority.majorityKey m) (ClusterSnapshot.views s) in
  In event (detectForks s) →
  HealthEvent.condition event = FORK_DETECTED →
  HealthEvent.nodeIds event = Majority.minorityNodes m
  ∧ HealthEvent.nodeIds event ≡ₚ map NodeClusterView.nodeId minority
  ∧ Majority.majorityNodes m = map NodeClusterView.nodeId majority
  ∧ minority ≠ []
  ∧ (HealthEvent.suggestedAction event = Some IndividualNode
     ↔ (length minority < length majority)%nat)
  ∧ (HealthEvent.suggestedAction event = Some FullLayer
     ↔ (length minority ≥ length majority)%nat).
Proof.
  intros m minority majority Hin Hcond.
  destruct (findMajority_partition s) as (_ & Hmaj & Hmin).
  fold m minority in Hmin. fold m majority in Hmaj.
  assert (Hlmin : length (Majority.minorityNodes m) = length minority).
  { rewrite (Permutation_length Hmin). apply length_map. }
  assert (Hlmaj : length (Majority.majorityNodes m) = length majority).
  { rewrite Hmaj. apply length_map. }
  unfold detectForks in Hin. fold m in Hin.
  apply in_app_iff in Hin as [Hin|Hin].
  - destruct (Nat.ltb_spec 0 (length (Majority.minorityNodes m))) as [Hpos|]; [|done].
    destruct Hin as [<-|[]]. unfold forkEvent; simpl.
    split_and!; [done|done|done| | |].
    + intros Hnil. rewrite Hnil in Hlmin. simpl in Hlmin. lia.
    + rewrite Hlmin, Hlmaj.
      destruct (Nat.ltb_spec (length minority) (length majority));
        split; try done; lia.
    + rewrite Hlmin, Hlmaj.
      destruct (Nat.ltb_spec (length minority) (length majority));
        split; try done; lia.
  - destruct (0 <? length (Majority.unreachable m))%nat; [|done].
    destruct Hin as [<-|[]]. done.
Qed.

Lemma detectForks_fork_iff (s : ClusterSnapshot.t) :
  (∃ event, In event (detectForks s) ∧ HealthEvent.condition event = FORK_DETECTED)
  ↔ Majority.minorityNodes (findMajority s) ≠ [].
Proof.
  unfold detectForks. split.
  - intros (event & Hin & Hc) Hnil. rewrite Hnil in Hin. simpl in Hin.
    destruct (0 <? length (Majority.unreachable (findMajority s)))%nat; [|done].
    destruct Hin as [<-|[]]. done.
  - intros Hne. exists (forkEvent s (findMajority s)). split; [|done].
    apply in_app_iff. left.
    destruct (Majority.minorityNodes (findMajority s)); [done|]. by left.
Qed.

Lemma findMajority_healthy_only (s : ClusterSnapshot.t) :
  let s' := withViews s (List.filter (fun v => negb (isError v)) (ClusterSnapshot.views s)) in
  Majority.majorityKey (findMajority s') = Majority.majorityKey (findMajority s)
  ∧ Majority.majorityNodes (findMajority s') = Majority.majorityNodes (findMajority s)
  ∧ Majority.minorityNodes (findMajority s') = Majority.minorityNodes (findMajority s)
  ∧ Majority.unreachable (findMajority s') = [].
Proof.
  intros s'. unfold findMajority, s', withViews. simpl.
  rewrite keyGroups_healthy_only.
  assert (Hnone : List.filter (fun v => Js.truthy (NodeClusterView.error v))
            (List.filter (fun v => negb (isError v)) (ClusterSnapshot.views s)) = []).
  { apply filter_nil_iff. intros x [_ Hx%negb_true_iff]%filter_In. done. }
  rewrite Hnone.
  by destruct (keyGroups (ClusterSnapshot.views s)).
Qed.

(** C3.  Views with an error never reach the partitions: the fork events
    of a snapshot are those of the snapshot without its error views.
    When there is an error view, one [NODE_UNREACHABLE] event lists the
    nodes of the error views.  When every view is an error view, that
    event is the only one: no [FORK_DETECTED] event is emitted. *)
Theorem detectForks_error_views (s : ClusterSnapshot.t) :
  let views := ClusterSnapshot.views s in
  let errors := List.filter isError views in
  let healthy := List.filter (fun v => negb (isError v)) views in
  List.filter isFork (detectForks s) = detectForks (withViews s healthy)
  ∧ (errors ≠ [] →
     ∃ event, List.filter (fun e => negb (isFork e)) (detectForks s) = [event]
              ∧ HealthEvent.condition event = NODE_UNREACHABLE
              ∧ HealthEvent.nodeIds event = map NodeClusterView.nodeId errors)
  ∧ (healthy = [] → views ≠ [] →
     ∃ event, detectForks s = [event]
              ∧ HealthEvent.condition event = NODE_UNREACHABLE
              ∧ HealthEvent.nodeIds event = map NodeClusterView.nodeId views).
Proof.
  intros views errors healthy.
  destruct (findMajority_partition s) as (Hunr & _ & _). fold views errors in Hunr.
  destruct (findMajority_healthy_only s) as (Hk & Hmaj & Hmin & Hnone).
  fold views healthy in Hk, Hmaj, Hmin, Hnone.
  split_and!.
  - unfold detectForks. rewrite Hmin, Hnone. simpl. rewrite app_nil_r.
    rewrite List.filter_app.
    assert (forkEvent (withViews s healthy) (findMajority (withViews s healthy))
            = forkEvent s (findMajority s)) as ->.
    { unfold forkEvent. by rewrite Hmin, Hmaj. }
    destruct (0 <? length (Majority.minorityNodes (findMajority s)))%nat;
      destruct (0 <? length (Majority.unreachable (findMajority s)))%nat; done.
  - intros Herr. exists (unreachableEvent s (findMajority s)).
    split_and!; [|done|done].
    unfold detectForks. rewrite List.filter_app, Hunr.
    assert ((0 <? length (map NodeClusterView.nodeId errors))%nat = true) as ->.
    { destruct errors; [done|]. done. }
    by destruct (0 <? length (Majority.minorityNodes (findMajority s)))%nat.
  - intros Hnil Hne.
    assert (Hall : errors = views).
    { unfold errors. clear -Hnil. subst healthy.
      induction views as [|v vs IH]; [done|]. simpl in *.
      destruct (isError v); simpl in *; [|done]. by rewrite IH. }
    assert (Hfm : findMajority s
                  = Majority.mk "EMPTY" [] [] (map NodeClusterView.nodeId views)).
    { unfold findMajority. fold views. rewrite (keyGroups_all_errors views Hnil).
      change (Majority.mk "EMPTY" [] [] (map NodeClusterView.nodeId errors)
              = Majority.mk "EMPTY" [] [] (map NodeClusterView.nodeId views)).
      by rewrite Hall. }
    exists (unreachableEvent s (findMajority s)).
    unfold detectForks. rewrite Hfm. simpl.
    split_and!; [|done|done].
    destruct views; [done|]. done.
Qed.

(** ** The GL0 ordinal fork *)

Lemma ordinalCount_groupsOf (states : list GL0NodeState.t) :
  ordinalCount states
  = groupsOf (fun _ => false) GL0NodeState.ordinal GL0NodeState.nodeId states.
Proof. reflexivity. Qed.

Lemma members_atOrdinal (o : Z) (states : list GL0NodeState.t) :
  members (fun _ => false) GL0NodeState.ordinal GL0NodeState.nodeId o states
  = map GL0NodeState.nodeId (atOrdinal o states).
Proof. reflexivity. Qed.

(** The majority ordinal is the ordinal of a state, no ordinal is held by
    more states, and every ordinal first seen before it is held by
    fewer. *)
Lemma majorityOrdinal_spec (states : list GL0NodeState.t) :
  states ≠ [] →
  (∀ s, In s states →
        (length (atOrdinal (GL0NodeState.ordinal s) states)
         ≤ length (atOrdinal (majorityOrdinal states) states))%nat)
  ∧ ∃ pre st post,
      states = pre ++ st :: post
      ∧ GL0NodeState.ordinal st = majorityOrdinal states
      ∧ ∀ u, In u pre →
             (length (atOrdinal (GL0NodeState.ordinal u) states)
              < length (atOrdinal (majorityOrdinal states) states))%nat.
Proof.
  intros Hne. unfold majorityOrdinal.
  destruct (grouped_groupsOf (fun _ => false) GL0NodeState.ordinal
              GL0NodeState.nodeId states) as (Hnd & Hmem & Hkeys).
  rewrite <- ordinalCount_groupsOf in Hnd, Hmem, Hkeys.
  assert (Hsize : ∀ u, In u states →
            ∃ ns, In (GL0NodeState.ordinal u, ns) (ordinalCount states)
                  ∧ length ns = length (atOrdinal (GL0NodeState.ordinal u) states)).
  { intros u Hu. specialize (Hkeys u Hu eq_refl).
    apply in_map_iff in Hkeys as ([k ns] & Hk & Hin). simpl in Hk. subst k.
    exists ns. split; [done|]. destruct (Hmem _ _ Hin) as [-> _].
    by rewrite members_atOrdinal, length_map. }
  assert (Hex : ∃ e, In e (ordinalCount states) ∧ snd e ≠ []).
  { destruct states as [|s0 states']; [done|].
    destruct (Hsize s0) as (ns & Hin & _); [by left|].
    exists (GL0NodeState.ordinal s0, ns). split; [done|]. by apply (Hmem _ _ Hin). }
  destruct (largest_spec 0%Z (ordinalCount states) Hex) as (g1 & g2 & Hsplit & Hg1 & Hg2).
  set (best := largest 0%Z (ordinalCount states)) in *.
  assert (Hbest : In best (ordinalCount states)).
  { rewrite Hsplit. apply in_app_iff. right. by left. }
  assert (Hbestlen : length (snd best) = length (atOrdinal (fst best) states)).
  { destruct best as [k ns]. destruct (Hmem _ _ Hbest) as [-> _]. simpl.
    by rewrite members_atOrdinal, length_map. }
  rewrite <- Hbestlen.
  split.
  - intros u Hu. destruct (Hsize u Hu) as (ns & Hin & <-).
    rewrite Hsplit in Hin.
    apply in_app_iff in Hin as [Hin|[Hin|Hin]];
      [|rewrite Hin; simpl; lia|apply (Hg2 _ Hin)].
    specialize (Hg1 _ Hin). simpl in Hg1. lia.
  - destruct best as [k ns] eqn:Ebest.
    destruct (groupsOf_first_occurrence (fun _ => false) GL0NodeState.ordinal
                GL0NodeState.nodeId states g1 k ns g2)
      as (pre & st & post & Hst & _ & Hk & Hbefore).
    { by rewrite <- ordinalCount_groupsOf. }
    exists pre, st, post. split_and!; try done.
    intros u Hu.
    destruct (Hsize u) as (ns' & Hin' & <-).
    { rewrite Hst. apply in_app_iff. by left. }
    specialize (Hbefore u Hu eq_refl).
    apply in_map_iff in Hbefore as ([k'' ns''] & Hk'' & Hin''). simpl in Hk''. subst k''.
    assert (ns'' = ns') as ->.
    { destruct (Hmem _ _ Hin') as [-> _].
      apply (Hmem (GL0NodeState.ordinal u) ns''). rewrite Hsplit.
      apply in_app_iff. by left. }
    apply (Hg1 _ Hin'').
Qed.

(** C10.  [detectGL0Fork] returns no event for fewer than two states and
    when all states have the same ordinal, and it returns one as soon as
    two states differ in their ordinal.  The majority ordinal of an event
    is an ordinal held by the largest number of states, the one seen first
    among those: every ordinal seen before it is held by strictly fewer
    states.  The event has condition [FORK_DETECTED] on layer [GL0], lists
    exactly the nodes whose ordinal differs from the majority ordinal, in
    the order of the states, and always suggests [IndividualNode]. *)
Theorem detectGL0Fork_spec (states : list GL0NodeState.t) (timestamp : string) :
  ((length states < 2)%nat → detectGL0Fork states timestamp = None)
  ∧ ((∀ a b, In a states → In b states →
             GL0NodeState.ordinal a = GL0NodeState.ordinal b) →
     detectGL0Fork states timestamp = None)
  ∧ ((∃ a b, In a states ∧ In b states
             ∧ GL0NodeState.ordinal a ≠ GL0NodeState.ordinal b) →
     ∃ event, detectGL0Fork states timestamp = Some event)
  ∧ (∀ event, detectGL0Fork states timestamp = Some event →
       (∀ s, In s states →
             (length (atOrdinal (GL0NodeState.ordinal s) states)
              ≤ length (atOrdinal (majorityOrdinal states) states))%nat)
       ∧ (∃ pre st post,
            states = pre ++ st :: post
            ∧ GL0NodeState.ordinal st = majorityOrdinal states
            ∧ ∀ u, In u pre →
                   (length (atOrdinal (GL0NodeState.ordinal u) states)
                    < length (atOrdinal (majorityOrdinal states) states))%nat)
       ∧ HealthEvent.condition event = FORK_DETECTED
       ∧ HealthEvent.layer event = GL0
       ∧ HealthEvent.nodeIds event
         = map GL0NodeState.nodeId (offOrdinal (majorityOrdinal states) states)
       ∧ HealthEvent.nodeIds event ≠ []
       ∧ HealthEvent.suggestedAction event = Some IndividualNode
       ∧ HealthEvent.timestamp event = timestamp).
Proof.
  split_and!.
  - intros Hlt. unfold detectGL0Fork.
    by destruct (Nat.ltb_spec (length states) 2); [|lia].
  - intros Hsame. unfold detectGL0Fork.
    destruct (length states <? 2)%nat eqn:Hlen; [done|].
    assert (Hne : states ≠ []) by (by destruct states).
    destruct (majorityOrdinal_spec states Hne) as (_ & pre & st & post & Hst & Hk & _).
    assert (Hoff : List.filter
              (fun s => negb (bool_decide (GL0NodeState.ordinal s = majorityOrdinal states)))
              states = []).
    { apply filter_nil_iff. intros x Hx.
      rewrite bool_decide_true; [done|]. rewrite <- Hk. apply Hsame; [done|].
      rewrite Hst. apply in_app_iff. right. by left. }
    by rewrite Hoff.
  - intros (a & b & Ha & Hb & Hab).
    assert (Hlen : (2 ≤ length states)%nat).
    { destruct states as [|x [|y l]]; [done| |simpl; lia].
      destruct Ha as [<-|[]], Hb as [<-|[]]. done. }
    assert (Hoff : ∃ x, In x (offOrdinal (majorityOrdinal states) states)).
    { destruct (decide (GL0NodeState.ordinal a = majorityOrdinal states)) as [Hao|Hao].
      - exists b. apply filter_In. split; [done|].
        rewrite bool_decide_eq_false_2; [done|]. congruence.
      - exists a. apply filter_In. split; [done|].
        by rewrite bool_decide_eq_false_2. }
    destruct Hoff as (x & Hx).
    unfold detectGL0Fork.
    destruct (Nat.ltb_spec (length states) 2) as [?|_]; [lia|].
    cbv zeta. fold (offOrdinal (majorityOrdinal states) states).
    destruct (offOrdinal (majorityOrdinal states) states) as [|y l]; [done|].
    simpl. by eexists.
  - intros event Hev.
    assert (Hne : states ≠ []).
    { intros ->. discriminate Hev. }
    destruct (majorityOrdinal_spec states Hne) as (Hmax & Hfirst).
    split; [exact Hmax|]. split; [exact Hfirst|].
    revert Hev. unfold detectGL0Fork, offOrdinal.
    destruct (length states <? 2)%nat; [done|].
    destruct (map GL0NodeState.nodeId _) as [|n ns] eqn:Hmin; [done|]. simpl.
    intros [= <-]. simpl. done.
Qed.

(** Two nodes off a majority of one: the suggestion is still
    [IndividualNode]. *)
Example detectGL0Fork_three_way :
  majorityOrdinal Scenario.threeWaySplit = 100%Z
  ∧ (HealthEvent.nodeIds <$> detectGL0Fork Scenario.threeWaySplit "t") = Some ["2"; "3"]
  ∧ (HealthEvent.suggestedAction <$> detectGL0Fork Scenario.threeWaySplit "t")
    = Some (Some IndividualNode).
Proof. vm_compute. done. Qed.

(** ** The partitions on concrete snapshots *)



(** With the two views in the other order the majority is [a]: the order
    of the views decides, not the keys. *)
Example findMajority_tie_reversed :
  Majority.majorityKey (findMajority Scenario.tied) = "b"
  ∧ Majority.majorityKey (findMajority Scenario.tiedReversed) = "a".
Proof. split; reflexivity. Qed.

Lemma detectForks_error_views_witness :
  let s := Scenario.oneUnreachable in
  List.filter isError (ClusterSnapshot.views s) ≠ []
  ∧ List.filter isFork (detectForks s) = []
  ∧ ∃ event, List.filter (fun e => negb (isFork e)) (detectForks s) = [event]
             ∧ HealthEvent.condition event = NODE_UNREACHABLE
             ∧ HealthEvent.nodeIds event = ["3"].
Proof.
  destruct (detectForks_error_views Scenario.oneUnreachable) as (Hfork & Herr & _).
  assert (Hne : List.filter isError (ClusterSnapshot.views Scenario.oneUnreachable)
                ≠ []) by (vm_compute; discriminate).
  split; [exact Hne|].
  split; [rewrite Hfork; reflexivity|].
  destruct (Herr Hne) as (event & Hev & Hc & Hids).
  exists event. split; [exact Hev|]. split; [exact Hc|].
  rewrite Hids. reflexivity.
Defined.

Lemma detectGL0Fork_spec_witness :
  ∃ event,
    detectGL0Fork Scenario.oneLagging Scenario.now = Some event
    ∧ HealthEvent.condition event = FORK_DETECTED
    ∧ HealthEvent.layer event = GL0
    ∧ HealthEvent.nodeIds event = ["3"]
    ∧ HealthEvent.suggestedAction event = Some IndividualNode.
Proof.
  destruct (detectGL0Fork Scenario.oneLagging Scenario.now) as [event|] eqn:Hev;
    [|vm_compute in Hev; discriminate].
  destruct (detectGL0Fork_spec Scenario.oneLagging Scenario.now) as (_ & _ & _ & Hsome).
  destruct (Hsome event Hev) as (_ & _ & Hc & Hl & Hids & _ & Hact & _).
  exists event. split; [reflexivity|]. split; [exact Hc|]. split; [exact Hl|].
  split; [rewrite Hids; reflexivity|exact Hact].
Defined.

Import Watchdog.
Import Monitor.

(** ** The snapshot stall detector of the watchdog *)

Section SnapshotsStopped_facts.
Variable getLatestOrdinal : string → Z → Layer → Z.
Variable toFixed1 : Z → string.

Abbreviation firstOrdinal := (SnapshotsStopped.firstOrdinal getLatestOrdinal).
Abbreviation detectSnapshotsStopped :=
  (SnapshotsStopped.detectSnapshotsStopped getLatestOrdinal toFixed1).
Abbreviation ordinalOf := (SnapshotsStopped.ordinalOf getLatestOrdinal).

Lemma firstOrdinal_none (port : Z) (nodes : list NodeConfig.t) :
  (∀ n, In n nodes → (getLatestOrdinal (NodeConfig.ip n) port ml0 < 0)%Z) →
  firstOrdinal port nodes = ((-1)%Z, map NodeConfig.ip nodes).
Proof.
  induction nodes as [|n nodes IH]; intros Hall; simpl; [done|].
  destruct (Z.leb_spec 0 (getLatestOrdinal (NodeConfig.ip n) port ml0)) as [Hge|Hlt].
  - specialize (Hall n (or_introl eq_refl)). lia.
  - rewrite IH; [done|]. intros u Hu. apply Hall. by right.
Qed.

Lemma firstOrdinal_first (port : Z) (pre : list NodeConfig.t)
    (n : NodeConfig.t) (post : list NodeConfig.t) :
  (∀ u, In u pre → (getLatestOrdinal (NodeConfig.ip u) port ml0 < 0)%Z) →
  (0 ≤ getLatestOrdinal (NodeConfig.ip n) port ml0)%Z →
  firstOrdinal port (pre ++ n :: post)
  = (getLatestOrdinal (NodeConfig.ip n) port ml0, map NodeConfig.ip (pre ++ [n])).
Proof.
  induction pre as [|u pre IH]; intros Hpre Hn; simpl.
  - by destruct (Z.leb_spec 0 (getLatestOrdinal (NodeConfig.ip n) port ml0)); [|lia].
  - destruct (Z.leb_spec 0 (getLatestOrdinal (NodeConfig.ip u) port ml0)) as [Hge|Hlt].
    + specialize (Hpre u (or_introl eq_refl)). lia.
    + rewrite IH; [done| |done]. intros v Hv. apply Hpre. by right.
Qed.

(** C6.  In a tick the stall detector asks the nodes in configured order
    and stops at the first one that answers with a non-negative
    ordinal, which is the ordinal of the tick.  When no node answers
    with one, it asks them all, reports nothing and keeps its state.
    It reports a stall exactly when the ordinal of the tick is the
    recorded one and the record is at least [snapshotStallMinutes] old;
    the detection then has restart scope [full_metagraph], affected
    layers [ml0; cl1; dl1] and all configured nodes as affected
    nodes. *)
Theorem detectSnapshotsStopped_spec
    (config : Config.t) (now : Z) (st : SnapshotsStopped.State.t) :
  let out := detectSnapshotsStopped config now st in
  let st' := out.1.1 in
  let result := out.1.2 in
  let asked := out.2 in
  ((∀ n, In n (Config.nodes config) → (ordinalOf config n < 0)%Z) →
   asked = map NodeConfig.ip (Config.nodes config)
   ∧ DetectionResult.detected result = false
   ∧ st' = st)
  ∧ (∀ pre n post,
       Config.nodes config = pre ++ n :: post →
       (∀ u, In u pre → (ordinalOf config u < 0)%Z) →
       (0 ≤ ordinalOf config n)%Z →
       asked = map NodeConfig.ip (pre ++ [n])
       ∧ (DetectionResult.detected result = true
          ↔ ordinalOf config n = SnapshotsStopped.State.lastKnownOrdinal st
            ∧ (Config.snapshotStallMinutes config * 60000
               ≤ now - SnapshotsStopped.State.lastOrdinalChangeTime st)%Z)
       ∧ (DetectionResult.detected result = true →
          DetectionResult.condition result = SnapshotsStopped
          ∧ DetectionResult.restartScope result = full_metagraph
          ∧ DetectionResult.affectedLayers result = Some [ml0; cl1; dl1]
          ∧ DetectionResult.affectedNodes result
            = Some (map NodeConfig.ip (Config.nodes config)))
       ∧ st' = (if decide (ordinalOf config n
                           = SnapshotsStopped.State.lastKnownOrdinal st)
                then st
                else SnapshotsStopped.State.mk (ordinalOf config n) now)).
Proof.
  intros out st' result asked.
  subst st' result asked out. unfold SnapshotsStopped.detectSnapshotsStopped.
  split.
  - intros Hall. rewrite (firstOrdinal_none _ _ Hall). simpl. done.
  - intros pre n post Hnodes Hpre Hn.
    assert (Hfirst : firstOrdinal (Ports.ml0 (Config.ports config))
                       (Config.nodes config)
                     = (ordinalOf config n, map NodeConfig.ip (pre ++ [n]))).
    { rewrite Hnodes. by apply firstOrdinal_first. }
    rewrite Hfirst.
    destruct (Z.ltb_spec (ordinalOf config n) 0) as [?|_]; [lia|].
    destruct (decide (ordinalOf config n
                      = SnapshotsStopped.State.lastKnownOrdinal st)) as [Heq|Hne].
    + rewrite bool_decide_true by done. simpl.
      destruct (Z.leb_spec (Config.snapshotStallMinutes config * 60000)
                  (now - SnapshotsStopped.State.lastOrdinalChangeTime st));
        simpl; split_and!; try done.
      split; [done|]. intros [_ ?]. lia.
    + rewrite bool_decide_false by done. simpl.
      split_and!; try done. split; [done|]. intros [? _]. done.
Qed.
End SnapshotsStopped_facts.

(** ** The fork detector of the watchdog *)

Section ForkedCluster_facts.
Variable sha256_hex : string → string.
Variable stringify : list string → string.
Variable getClusterInfo : string → Z → list ClusterMember.t.

Abbreviation checkLayers :=
  (ForkedCluster.checkLayers sha256_hex stringify getClusterInfo).
Abbreviation detectForkedCluster :=
  (ForkedCluster.detectForkedCluster sha256_hex stringify getClusterInfo).

Lemma checkLayers_restartScope (config : Config.t) (layers : list Layer) :
  let result := checkLayers config layers in
  DetectionResult.detected result = true →
  ∃ minorityNodes,
    DetectionResult.affectedNodes result = Some minorityNodes
    ∧ minorityNodes ≠ []
    ∧ (DetectionResult.restartScope result = full_layer
       ↔ (Z.of_nat (length (Config.nodes config)) - 1
          ≤ Z.of_nat (length minorityNodes))%Z)
    ∧ (DetectionResult.restartScope result = individual_node
       ↔ (Z.of_nat (length minorityNodes)
          < Z.of_nat (length (Config.nodes config)) - 1)%Z).
Proof.
  induction layers as [|layer rest IH]; [done|].
  cbn [ForkedCluster.checkLayers].
  set (fork := ForkedCluster.checkLayerFork sha256_hex stringify
                 getClusterInfo config layer).
  assert (Hfork : ForkedCluster.LayerFork.forked fork = true →
                  ForkedCluster.LayerFork.minorityNodes fork ≠ []).
  { unfold fork, ForkedCluster.checkLayerFork.
    cbn [ForkedCluster.LayerFork.forked ForkedCluster.LayerFork.minorityNodes].
    intros Hpos Hnil. by rewrite Hnil in Hpos. }
  clearbody fork.
  destruct (ForkedCluster.LayerFork.forked fork); [|apply IH].
  intros _. cbn.
  exists (ForkedCluster.LayerFork.minorityNodes fork).
  split; [done|]. split; [by apply Hfork|].
  destruct (Z.leb_spec (Z.of_nat (length (Config.nodes config)) - 1)
              (Z.of_nat (length (ForkedCluster.LayerFork.minorityNodes fork))));
    split; split; try done; lia.
Qed.

(** The restart scope of the watchdog's fork detector: the whole layer
    when at most one node is left outside the minority. *)
Lemma detectForkedCluster_restartScope (config : Config.t) :
  let result := detectForkedCluster config in
  DetectionResult.detected result = true →
  ∃ minorityNodes,
    DetectionResult.affectedNodes result = Some minorityNodes
    ∧ minorityNodes ≠ []
    ∧ (DetectionResult.restartScope result = full_layer
       ↔ (Z.of_nat (length (Config.nodes config)) - 1
          ≤ Z.of_nat (length minorityNodes))%Z)
    ∧ (DetectionResult.restartScope result = individual_node
       ↔ (Z.of_nat (length minorityNodes)
          < Z.of_nat (length (Config.nodes config)) - 1)%Z).
Proof. apply checkLayers_restartScope. Qed.
End ForkedCluster_facts.

Lemma insert_by_In {A : Type} (compare : A → A → Z) (x y : A) (l : list A) :
  In y (insert_by compare x l) ↔ y = x ∨ In y l.
Proof.
  induction l as [|z l IH]; simpl.
  - intuition.
  - destruct (compare x z <=? 0)%Z; simpl; [intuition|]. rewrite IH. intuition.
Qed.

Lemma sort_by_In {A : Type} (compare : A → A → Z) (y : A) (l : list A) :
  In y (sort_by compare l) ↔ In y l.
Proof.
  induction l as [|x l IH]; simpl; [done|].
  rewrite insert_by_In, IH. intuition.
Qed.

Lemma set_keys {K V : Type} `{EqDecision K} (m : list (K * V)) (k : K) (v : V) :
  ∀ k', In k' (map fst (JsMap.set m k v)) ↔ k' = k ∨ In k' (map fst m).
Proof.
  induction m as [|[k0 v0] m IH]; intros k'; simpl.
  - intuition.
  - destruct (decide (k = k0)) as [->|Hne]; simpl; [intuition|].
    rewrite IH. intuition.
Qed.

Lemma freq_keys (povs : list ForkedCluster.Pov.t) (k : string) :
  In k (map fst (ForkedCluster.freq povs))
  ↔ ∃ p, In p povs ∧ ForkedCluster.Pov.hash p = k.
Proof.
  unfold ForkedCluster.freq.
  induction povs as [|p povs IH] using rev_ind; simpl.
  - split; [done|]. by intros (p & [] & _).
  - rewrite fold_left_app. simpl. rewrite set_keys, IH. split.
    + intros [->|(q & Hq & Hk)].
      * exists p. split; [|done]. apply in_app_iff. right. by left.
      * exists q. split; [|done]. apply in_app_iff. by left.
    + intros (q & [Hq|[<-|[]]]%in_app_iff & Hk); [right; by exists q|by left].
Qed.

(** The majority hash is the hash of some node's point of view. *)
Lemma majorityHash_In (povs : list ForkedCluster.Pov.t) :
  povs ≠ [] →
  ∃ p, In p povs ∧ ForkedCluster.majorityHash povs = Some (ForkedCluster.Pov.hash p).
Proof.
  intros Hne. unfold ForkedCluster.majorityHash.
  destruct (sort_by _ (ForkedCluster.freq povs)) as [|[k c] rest] eqn:Hsort.
  - exfalso. destruct povs as [|p povs]; [done|].
    assert (Hk : In (ForkedCluster.Pov.hash p) (map fst (ForkedCluster.freq (p :: povs)))).
    { apply freq_keys. exists p. split; [by left|done]. }
    apply in_map_iff in Hk as (e & _ & He).
    apply (sort_by_In (fun a b => (snd b - snd a)%Z)) in He. rewrite Hsort in He. done.
  - simpl.
    assert (Hin : In (k, c) (ForkedCluster.freq povs)).
    { apply (sort_by_In (fun a b => (snd b - snd a)%Z)). rewrite Hsort. by left. }
    destruct (proj1 (freq_keys povs k)) as (p & Hp & Hk).
    { apply in_map_iff. by exists (k, c). }
    exists p. by rewrite Hk.
Qed.

Section ForkedCluster_three.
Variable sha256_hex : string → string.
Variable stringify : list string → string.
Variable getClusterInfo : string → Z → list ClusterMember.t.

Abbreviation povs := (ForkedCluster.povs sha256_hex stringify getClusterInfo).
Abbreviation checkLayerFork :=
  (ForkedCluster.checkLayerFork sha256_hex stringify getClusterInfo).

(** On a layer that is forked, with at most three configured nodes,
    "at most one node outside the minority" and "the minority is no
    smaller than the majority" are the same test. *)
Lemma checkLayerFork_three_nodes (config : Config.t) (layer : Layer) :
  let majorityHash := ForkedCluster.majorityHash (povs config layer) in
  let majority := withHash majorityHash (povs config layer) in
  let minority := offHash majorityHash (povs config layer) in
  ForkedCluster.LayerFork.minorityNodes (checkLayerFork config layer)
  = map ForkedCluster.Pov.ip minority
  ∧ (ForkedCluster.LayerFork.forked (checkLayerFork config layer) = true →
     (length (Config.nodes config) ≤ 3)%nat →
     (Z.of_nat (length (Config.nodes config)) - 1 ≤ Z.of_nat (length minority))%Z
     ↔ (length minority ≥ length majority)%nat).
Proof.
  intros majorityHash majority minority. split; [done|].
  intros Hforked Hthree.
  assert (Hmin : (0 < length minority)%nat).
  { unfold ForkedCluster.checkLayerFork in Hforked.
    cbn [ForkedCluster.LayerFork.forked] in Hforked.
    apply Nat.ltb_lt in Hforked. rewrite length_map in Hforked. exact Hforked. }
  assert (Hn : length (povs config layer) = length (Config.nodes config)).
  { unfold ForkedCluster.povs. apply length_map. }
  assert (Hsum : (length majority + length minority = length (povs config layer))%nat).
  { apply List.filter_length. }
  assert (Hmaj : (1 ≤ length majority)%nat).
  { destruct (majorityHash_In (povs config layer)) as (p & Hp & Hh).
    { intros Hnil. unfold minority, offHash in Hmin. rewrite Hnil in Hmin.
      simpl in Hmin. lia. }
    assert (Hin : In p majority).
    { apply filter_In. split; [done|]. apply bool_decide_eq_true. symmetry. exact Hh. }
    destruct majority; [done|simpl; lia]. }
  lia.
Qed.
End ForkedCluster_three.

(** ** The restart a fork asks for, in both detectors *)

(** A fork the loop over the layers detects is that of a forked layer of
    the list, and the scope is decided on that layer's minority. *)
Lemma checkLayers_reported (sha256_hex : string → string)
    (stringify : list string → string)
    (getClusterInfo : string → Z → list ClusterMember.t)
    (config : Config.t) (layers : list Layer) :
  let result :=
    ForkedCluster.checkLayers sha256_hex stringify getClusterInfo config layers in
  DetectionResult.detected result = true →
  ∃ layer,
    In layer layers
    ∧ ForkedCluster.LayerFork.forked
        (ForkedCluster.checkLayerFork sha256_hex stringify getClusterInfo config layer)
      = true
    ∧ DetectionResult.affectedLayers result = Some [layer]
    ∧ DetectionResult.affectedNodes result
      = Some (ForkedCluster.LayerFork.minorityNodes
                (ForkedCluster.checkLayerFork sha256_hex stringify getClusterInfo
                   config layer))
    ∧ DetectionResult.restartScope result
      = (if (Z.of_nat (length (Config.nodes config)) - 1
             <=? Z.of_nat (length (ForkedCluster.LayerFork.minorityNodes
                    (ForkedCluster.checkLayerFork sha256_hex stringify getClusterInfo
                       config layer))))%Z
         then full_layer else individual_node).
Proof.
  induction layers as [|layer rest IH]; [done|].
  cbn [ForkedCluster.checkLayers].
  destruct (ForkedCluster.LayerFork.forked
              (ForkedCluster.checkLayerFork sha256_hex stringify getClusterInfo
                 config layer)) eqn:Hforked.
  - intros _. exists layer. split; [by left|]. by split_and!.
  - intros Hd. destruct (IH Hd) as (l & Hl & H). exists l. split; [by right|done].
Qed.

(** C2.  The two fork detectors decide the restart by different tests.
    The fork event of [detectForks] lists the minority nodes, the nodes of
    the views without error whose key is not the majority key, and
    suggests [IndividualNode] exactly when they are strictly fewer than
    the majority nodes and [FullLayer] exactly when they are at least as
    many.  A fork that [detectForkedCluster] detects is reported on one of
    the layers ML0, CL1 and DL1; its minority are the nodes whose hash on
    that layer is not the majority hash, and the restart scope is
    [full_layer] exactly when the minority has at least as many nodes as
    are configured, less one, which is when a single node holds the
    majority hash, and [individual_node] otherwise.  A [full_layer] scope
    implies a minority no smaller than the majority; the converse holds
    with at most three configured nodes. *)
Theorem fork_restart_scope
    (s : ClusterSnapshot.t) (event : HealthEvent.t)
    (sha256_hex : string → string) (stringify : list string → string)
    (getClusterInfo : string → Z → list ClusterMember.t) (config : Config.t) :
  (In event (detectForks s) →
   HealthEvent.condition event = FORK_DETECTED →
   let m := findMajority s in
   let minority := healthyOffKey (Majority.majorityKey m) (ClusterSnapshot.views s) in
   let majority := healthyWithKey (Majority.majorityKey m) (ClusterSnapshot.views s) in
   HealthEvent.nodeIds event = Majority.minorityNodes m
   ∧ HealthEvent.nodeIds event ≡ₚ map NodeClusterView.nodeId minority
   ∧ Majority.majorityNodes m = map NodeClusterView.nodeId majority
   ∧ minority ≠ []
   ∧ (HealthEvent.suggestedAction event = Some IndividualNode
      ↔ (length minority < length majority)%nat)
   ∧ (HealthEvent.suggestedAction event = Some FullLayer
      ↔ (length minority ≥ length majority)%nat))
  ∧ (let result :=
       ForkedCluster.detectForkedCluster sha256_hex stringify getClusterInfo config in
     DetectionResult.detected result = true →
     ∃ layer,
       let povs :=
         ForkedCluster.povs sha256_hex stringify getClusterInfo config layer in
       let majority := withHash (ForkedCluster.majorityHash povs) povs in
       let minority := offHash (ForkedCluster.majorityHash povs) povs in
       In layer [ml0; cl1; dl1]
       ∧ DetectionResult.affectedLayers result = Some [layer]
       ∧ DetectionResult.affectedNodes result
         = Some (map ForkedCluster.Pov.ip minority)
       ∧ minority ≠ []
       ∧ majority ≠ []
       ∧ (length majority + length minority = length (Config.nodes config))%nat
       ∧ (DetectionResult.restartScope result = full_layer
          ↔ (Z.of_nat (length (Config.nodes config)) - 1
             ≤ Z.of_nat (length minority))%Z)
       ∧ (DetectionResult.restartScope result = individual_node
          ↔ (Z.of_nat (length minority)
             < Z.of_nat (length (Config.nodes config)) - 1)%Z)
       ∧ (DetectionResult.restartScope result = full_layer
          ↔ length majority = 1%nat)
       ∧ (DetectionResult.restartScope result = full_layer →
          (length minority ≥ length majority)%nat)
       ∧ ((length (Config.nodes config) ≤ 3)%nat →
          (length minority ≥ length majority)%nat →
          DetectionResult.restartScope result = full_layer)).
Proof.
  split.
  - intros Hin Hcond. exact (detectForks_fork_event s event Hin Hcond).
  - intros result Hd. subst result.
    unfold ForkedCluster.detectForkedCluster in *.
    destruct (checkLayers_reported sha256_hex stringify getClusterInfo config
                [ml0; cl1; dl1] Hd)
      as (layer & Hin & Hforked & Hlayers & Hnodes & Hscope).
    exists layer. cbv zeta.
    set (povs := ForkedCluster.povs sha256_hex stringify getClusterInfo config layer).
    set (majority := withHash (ForkedCluster.majorityHash povs) povs).
    set (minority := offHash (ForkedCluster.majorityHash povs) povs).
    assert (Hmn : ForkedCluster.LayerFork.minorityNodes
                    (ForkedCluster.checkLayerFork sha256_hex stringify getClusterInfo
                       config layer)
                  = map ForkedCluster.Pov.ip minority) by done.
    rewrite Hmn in Hnodes, Hscope. rewrite length_map in Hscope.
    assert (Hmin : (0 < length minority)%nat).
    { unfold ForkedCluster.checkLayerFork in Hforked.
      cbn [ForkedCluster.LayerFork.forked] in Hforked.
      apply Nat.ltb_lt in Hforked. rewrite length_map in Hforked. exact Hforked. }
    assert (Hn : length povs = length (Config.nodes config)) by apply length_map.
    assert (Hsum : (length majority + length minority = length povs)%nat)
      by apply List.filter_length.
    assert (Hmaj : (1 ≤ length majority)%nat).
    { destruct (majorityHash_In povs) as (p & Hp & Hh).
      { intros Hnil. unfold minority, offHash in Hmin. rewrite Hnil in Hmin.
        simpl in Hmin. lia. }
      assert (Hp' : In p majority).
      { apply filter_In. split; [done|]. apply bool_decide_eq_true. symmetry. exact Hh. }
      destruct majority; [done|simpl; lia]. }
    split; [done|]. split; [done|]. split; [done|].
    split; [intros Hnil; rewrite Hnil in Hmin; simpl in Hmin; lia|].
    split; [intros Hnil; rewrite Hnil in Hmaj; simpl in Hmaj; lia|].
    split; [lia|].
    rewrite Hscope.
    destruct (Z.leb_spec (Z.of_nat (length (Config.nodes config)) - 1)
                (Z.of_nat (length minority)));
      split_and!; try (split; intros; first [done|lia]); intros; first [done|lia].
Qed.

Lemma fork_restart_scope_witness :
  let s := Scenario.twoAgainstOne in
  let event := forkEvent s (findMajority s) in
  let result :=
    ForkedCluster.detectForkedCluster Scenario.sha256_hex Scenario.stringify
      Scenario.twoAgainstTwo Scenario.config4 in
  In event (detectForks s)
  ∧ HealthEvent.condition event = FORK_DETECTED
  ∧ HealthEvent.nodeIds event = ["3"]
  ∧ HealthEvent.suggestedAction event = Some IndividualNode
  ∧ DetectionResult.detected result = true
  ∧ DetectionResult.affectedLayers result = Some [ml0]
  ∧ DetectionResult.restartScope result ≠ full_layer.
Proof.
  assert (Hin : In (forkEvent Scenario.twoAgainstOne
                      (findMajority Scenario.twoAgainstOne))
                   (detectForks Scenario.twoAgainstOne))
    by (left; reflexivity).
  destruct (fork_restart_scope Scenario.twoAgainstOne
              (forkEvent Scenario.twoAgainstOne (findMajority Scenario.twoAgainstOne))
              Scenario.sha256_hex Scenario.stringify Scenario.twoAgainstTwo
              Scenario.config4) as [Hforks Hwatch].
  destruct (Hforks Hin eq_refl) as (Hids & _ & _ & _ & Hind & _).
  destruct (Hwatch eq_refl) as (layer & Hrule). cbv zeta in Hrule.
  destruct Hrule as (_ & Hlayers & _ & _ & _ & _ & _ & _ & Hone & _).
  assert (Hlayer : layer = ml0) by (vm_compute in Hlayers; congruence).
  subst layer.
  split; [exact Hin|]. split; [reflexivity|].
  split; [rewrite Hids; reflexivity|].
  split; [apply Hind; vm_compute; lia|].
  split; [reflexivity|]. split; [reflexivity|].
  intros Hfull. apply Hone in Hfull. vm_compute in Hfull. discriminate.
Defined.

(** ** The loop of the watchdog *)

Section loop_facts.
Context {W : Type}.
Variable detectForkedCluster : W → W * Js.Settled DetectionResult.t.
Variable detectSnapshotsStopped : W → W * Js.Settled DetectionResult.t.
Variable detectUnhealthyNodes : W → W * Js.Settled DetectionResult.t.
Variable executeRestart : DetectionResult.t → W → W * Js.Settled bool.


End loop_facts.





Section loop_theorem.
Context {W : Type}.
Variable detectForkedCluster : W → W * Js.Settled DetectionResult.t.
Variable detectSnapshotsStopped : W → W * Js.Settled DetectionResult.t.
Variable detectUnhealthyNodes : W → W * Js.Settled DetectionResult.t.
Variable executeRestart : DetectionResult.t → W → W * Js.Settled bool.

End loop_theorem.

(** ** The watchdog on concrete ticks *)

Lemma detectSnapshotsStopped_spec_witness :
  let out :=
    SnapshotsStopped.detectSnapshotsStopped Scenario.ordinal498 Scenario.toFixed1
      Scenario.config3 (Scenario.noon + 300000) Scenario.stalled498 in
  Config.nodes Scenario.config3
  = [NodeConfig.mk "node1" "10.0.0.1"]
    ++ NodeConfig.mk "node2" "10.0.0.2" :: [NodeConfig.mk "node3" "10.0.0.3"]
  ∧ (∀ u, In u [NodeConfig.mk "node1" "10.0.0.1"] →
          (SnapshotsStopped.ordinalOf Scenario.ordinal498 Scenario.config3 u < 0)%Z)
  ∧ (0 ≤ SnapshotsStopped.ordinalOf Scenario.ordinal498 Scenario.config3
           (NodeConfig.mk "node2" "10.0.0.2"))%Z
  ∧ out.2 = ["10.0.0.1"; "10.0.0.2"]
  ∧ DetectionResult.detected out.1.2 = true
  ∧ DetectionResult.restartScope out.1.2 = full_metagraph
  ∧ DetectionResult.affectedLayers out.1.2 = Some [ml0; cl1; dl1]
  ∧ DetectionResult.affectedNodes out.1.2
    = Some ["10.0.0.1"; "10.0.0.2"; "10.0.0.3"].
Proof.
  assert (Hpre : ∀ u, In u [NodeConfig.mk "node1" "10.0.0.1"] →
            (SnapshotsStopped.ordinalOf Scenario.ordinal498 Scenario.config3 u < 0)%Z).
  { intros u [<-|[]]. vm_compute. reflexivity. }
  assert (Hn : (0 ≤ SnapshotsStopped.ordinalOf Scenario.ordinal498 Scenario.config3
                      (NodeConfig.mk "node2" "10.0.0.2"))%Z).
  { vm_compute. discriminate. }
  destruct (detectSnapshotsStopped_spec Scenario.ordinal498 Scenario.toFixed1
              Scenario.config3 (Scenario.noon + 300000) Scenario.stalled498)
    as (_ & Hfirst).
  destruct (Hfirst [NodeConfig.mk "node1" "10.0.0.1"]
              (NodeConfig.mk "node2" "10.0.0.2")
              [NodeConfig.mk "node3" "10.0.0.3"] eq_refl Hpre Hn)
    as (Hasked & Hiff & Hshape & _).
  assert (Hd : DetectionResult.detected
                 (SnapshotsStopped.detectSnapshotsStopped Scenario.ordinal498
                    Scenario.toFixed1 Scenario.config3 (Scenario.noon + 300000)
                    Scenario.stalled498).1.2 = true).
  { apply Hiff. split; [reflexivity|vm_compute; discriminate]. }
  destruct (Hshape Hd) as (_ & Hscope & Hlayers & Hnodes).
  split; [reflexivity|]. split; [exact Hpre|]. split; [exact Hn|].
  split; [exact Hasked|]. split; [exact Hd|]. split; [exact Hscope|].
  split; [exact Hlayers|exact Hnodes].
Defined.



(** The watchdog's fork detector breaks a tie in the same way: of two
    points of view held by one node each, that of the first configured
    node is the majority, here the one with the greater digest. *)
Example checkLayerFork_tie_first_seen :
  ForkedCluster.majorityHash
    (ForkedCluster.povs Scenario.sha256_hex Scenario.stringify
       Scenario.eachAlone Scenario.config2 ml0)
  = Some "[y]000000000"
  ∧ ForkedCluster.LayerFork.minorityNodes
      (ForkedCluster.checkLayerFork Scenario.sha256_hex Scenario.stringify
         Scenario.eachAlone Scenario.config2 ml0)
    = ["10.0.0.2"].
Proof. split; reflexivity. Qed.

(** Four nodes, two of which see one cluster and two another: the
    minority, nodes 3 and 4, is as large as the majority, nodes 1 and 2,
    and the watchdog's fork detector asks for the restart of the two
    minority nodes, not of the layer. *)
Example detectForkedCluster_two_against_two :
  let povs :=
    ForkedCluster.povs Scenario.sha256_hex Scenario.stringify
      Scenario.twoAgainstTwo Scenario.config4 ml0 in
  let majority := withHash (ForkedCluster.majorityHash povs) povs in
  let minority := offHash (ForkedCluster.majorityHash povs) povs in
  let result :=
    ForkedCluster.detectForkedCluster Scenario.sha256_hex Scenario.stringify
      Scenario.twoAgainstTwo Scenario.config4 in
  DetectionResult.detected result = true
  ∧ DetectionResult.affectedLayers result = Some [ml0]
  ∧ DetectionResult.affectedNodes result = Some ["10.0.0.3"; "10.0.0.4"]
  ∧ map ForkedCluster.Pov.ip minority = ["10.0.0.3"; "10.0.0.4"]
  ∧ map ForkedCluster.Pov.ip majority = ["10.0.0.1"; "10.0.0.2"]
  ∧ (length minority ≥ length majority)%nat
  ∧ DetectionResult.restartScope result = individual_node
  ∧ DetectionResult.restartScope result ≠ full_layer.
Proof. vm_compute. split_and!; done. Qed.

(** ** The restart orchestrator *)

Section orchestrator_facts.
Variable port : Orchestrator.Command → bool.
Variable config : Orchestrator.Config.t.

Abbreviation execute := (Orchestrator.execute port config).

(** A call that is not skipped leaves a record that starts at the time
    of the call. *)
Lemma execute_leaves_record (event : Orchestrator.HealthEvent.t) (now : Z)
    (st : Orchestrator.State.t) :
  (∀ reason, (execute event now st).2 ≠ Orchestrator.Skipped reason) →
  ∃ r, Orchestrator.State.records (execute event now st).1
       = r :: Orchestrator.State.records st
       ∧ Orchestrator.RestartRecord.startedAt r = now.
Proof.
  unfold Orchestrator.execute. intros Hns.
  destruct (Orchestrator.inCooldown config now st);
    [by destruct (Hns Orchestrator.cooldown)|].
  destruct (Orchestrator.rateLimited config now st);
    [by destruct (Hns Orchestrator.rate_limit)|].
  destruct (Orchestrator.HealthEvent.suggestedAction event) eqn:Hscope;
    [by destruct (Hns Orchestrator.not_actionable)| | |];
    destruct (Orchestrator.procedure port config event _) as [run [err|[]]];
    simpl; eexists; split; done.
Qed.

(** Inside the cooldown the call returns at its first gate. *)
Lemma execute_cooldown_gate (event : Orchestrator.HealthEvent.t) (now : Z)
    (st : Orchestrator.State.t) :
  Orchestrator.inCooldown config now st = true →
  execute event now st = (st, Orchestrator.Skipped Orchestrator.cooldown).
Proof. intros Hgate. unfold Orchestrator.execute. by rewrite Hgate. Qed.

(** C7.  A call of the orchestrator while the most recent restart record
    finished less than [restartCooldownMinutes] ago returns
    [Skipped cooldown], sends no command through the command port and
    leaves the state of the orchestrator, records and commands sent, as
    it was. *)
Theorem execute_within_cooldown (event : Orchestrator.HealthEvent.t) (now : Z)
    (st : Orchestrator.State.t) (r : Orchestrator.RestartRecord.t)
    (rest : list Orchestrator.RestartRecord.t) :
  Orchestrator.State.records st = r :: rest →
  (now - Orchestrator.RestartRecord.finishedAt r
   < Orchestrator.Config.restartCooldownMinutes config * 60000)%Z →
  (execute event now st).2 = Orchestrator.Skipped Orchestrator.cooldown
  ∧ Orchestrator.State.invocations (execute event now st).1
    = Orchestrator.State.invocations st
  ∧ (execute event now st).1 = st.
Proof.
  intros Hrec Hlt.
  assert (Hgate : Orchestrator.inCooldown config now st = true).
  { unfold Orchestrator.inCooldown. rewrite Hrec. apply Z.ltb_lt. exact Hlt. }
  rewrite (execute_cooldown_gate event now st Hgate). simpl. done.
Qed.

(** Two calls: when the first one ran a procedure, a second one within
    the cooldown of the record it left is skipped. *)
Lemma execute_twice (event1 event2 : Orchestrator.HealthEvent.t) (now1 now2 : Z)
    (st : Orchestrator.State.t) :
  (∀ reason, (execute event1 now1 st).2 ≠ Orchestrator.Skipped reason) →
  ∃ r, head (Orchestrator.State.records (execute event1 now1 st).1) = Some r
       ∧ ((now2 - Orchestrator.RestartRecord.finishedAt r
           < Orchestrator.Config.restartCooldownMinutes config * 60000)%Z →
          execute event2 now2 (execute event1 now1 st).1
          = ((execute event1 now1 st).1, Orchestrator.Skipped Orchestrator.cooldown)).
Proof.
  intros Hns. destruct (execute_leaves_record event1 now1 st Hns) as (r & Hrec & _).
  exists r. split; [by rewrite Hrec|].
  intros Hlt. apply execute_cooldown_gate.
  unfold Orchestrator.inCooldown. rewrite Hrec. apply Z.ltb_lt. exact Hlt.
Qed.
End orchestrator_facts.

(** Two minutes after the full-metagraph restart of noon has finished, a
    second event is skipped and the 24 commands of the restart remain the
    only ones sent. *)
Lemma execute_within_cooldown_witness :
  let now := (Scenario.noon + 292000 + 120000)%Z in
  let out := Orchestrator.execute Scenario.port Scenario.cluster
               Scenario.stallEvent now Scenario.restarted in
  (∃ r rest,
      Orchestrator.State.records Scenario.restarted = r :: rest
      ∧ (now - Orchestrator.RestartRecord.finishedAt r
         < Orchestrator.Config.restartCooldownMinutes Scenario.cluster * 60000)%Z)
  ∧ out.2 = Orchestrator.Skipped Orchestrator.cooldown
  ∧ length (Orchestrator.State.invocations out.1) = 24%nat.
Proof.
  assert (Hrec : Orchestrator.State.records Scenario.restarted
                 = Orchestrator.RestartRecord.mk
                     Orchestrator.RestartScope.FullMetagraph
                     (Some Orchestrator.L0m) ["1"; "2"; "3"] Scenario.noon
                     (Scenario.noon + 292000) Orchestrator.success :: [])
    by (vm_compute; reflexivity).
  assert (Hlt : (Scenario.noon + 292000 + 120000
                 - Orchestrator.RestartRecord.finishedAt
                     (Orchestrator.RestartRecord.mk
                        Orchestrator.RestartScope.FullMetagraph
                        (Some Orchestrator.L0m) ["1"; "2"; "3"] Scenario.noon
                        (Scenario.noon + 292000) Orchestrator.success)
                 < Orchestrator.Config.restartCooldownMinutes Scenario.cluster
                   * 60000)%Z)
    by (vm_compute; reflexivity).
  destruct (execute_within_cooldown Scenario.port Scenario.cluster
              Scenario.stallEvent (Scenario.noon + 292000 + 120000)
              Scenario.restarted _ _ Hrec Hlt) as (Hout & Hinv & _).
  split; [eexists _, _; split; [exact Hrec|exact Hlt]|].
  split; [exact Hout|].
  rewrite Hinv. vm_compute. reflexivity.
Defined.

(** * Further properties *)

(** ** The canonical key and the majority (cluster.ts) *)

Lemma noComma_app (a b : string) : noComma (a +:+ b) = noComma a && noComma b.
Proof.
  induction a as [|c a IH]; simpl; [done|]. rewrite IH. by rewrite andb_assoc.
Qed.

(** Two comma-free strings followed by a comma and something are equal as
    soon as the whole strings are. *)
Lemma comma_split (s1 s2 r1 r2 : string) :
  noComma s1 = true → noComma s2 = true →
  s1 +:+ "," +:+ r1 = s2 +:+ "," +:+ r2 → s1 = s2 ∧ r1 = r2.
Proof.
  revert s2. induction s1 as [|c s1 IH]; intros [|d s2] H1 H2 Heq;
    cbn [noComma String.append] in *.
  - by simplify_eq.
  - by simplify_eq.
  - by simplify_eq.
  - apply andb_prop in H1 as [_ H1]. apply andb_prop in H2 as [_ H2].
    injection Heq as -> Heq.
    destruct (IH s2 H1 H2 Heq) as [-> ->]. done.
Qed.

Lemma comma_not_plain (s r t : string) :
  noComma t = true → s +:+ "," +:+ r ≠ t.
Proof.
  intros Ht Heq. rewrite <- Heq, !noComma_app in Ht. simpl in Ht.
  by rewrite andb_false_r in Ht.
Qed.

Lemma join_cons2 (x y : string) (l : list string) :
  Js.join "," (x :: y :: l) = x +:+ "," +:+ Js.join "," (y :: l).
Proof. reflexivity. Qed.

Lemma join_inj (l1 l2 : list string) :
  Forall (fun s => noComma s = true) l1 →
  Forall (fun s => noComma s = true) l2 →
  l1 ≠ [] → l2 ≠ [] →
  Js.join "," l1 = Js.join "," l2 → l1 = l2.
Proof.
  revert l2. induction l1 as [|x l1 IH]; intros l2 H1 H2 Hn1 Hn2 Heq; [done|].
  destruct l2 as [|y l2]; [done|].
  apply Forall_cons in H1 as [Hx H1]. apply Forall_cons in H2 as [Hy H2].
  destruct l1 as [|x' l1], l2 as [|y' l2].
  - simpl in Heq. by subst.
  - rewrite join_cons2 in Heq. simpl in Heq. symmetry in Heq.
    by apply comma_not_plain in Heq.
  - rewrite join_cons2 in Heq. simpl in Heq.
    by apply comma_not_plain in Heq.
  - rewrite !join_cons2 in Heq.
    destruct (comma_split _ _ _ _ Hx Hy Heq) as [-> Hrest].
    f_equal. by apply IH.
Qed.

Lemma join_plain_nonempty (l : list string) :
  Forall (fun s => plainId s = true) l → l ≠ [] →
  Js.join "," l ≠ "" ∧ Js.join "," l ≠ "EMPTY".
Proof.
  intros Hl Hne. destruct l as [|x [|y l]]; [done| |].
  - apply Forall_cons in Hl as [Hx _]. unfold plainId in Hx.
    apply andb_prop in Hx as [[Hx1 _]%andb_prop Hx3]. simpl.
    split; intros ->; done.
  - rewrite join_cons2. split; [by destruct x|].
    by apply comma_not_plain.
Qed.

Lemma plain_noComma (l : list string) :
  Forall (fun s => plainId s = true) l → Forall (fun s => noComma s = true) l.
Proof.
  intros Hl. eapply Forall_impl; [exact Hl|]. intros s Hs. unfold plainId in Hs.
  by apply andb_prop in Hs as [[_ ?]%andb_prop _].
Qed.

Lemma or_else_nonempty (a b : string) : a ≠ "" → Js.or_else a b = a.
Proof. intros Ha. unfold Js.or_else. by destruct a. Qed.

Lemma clusterKey_healthy (view : NodeClusterView.t) :
  isError view = false →
  clusterKey view = Js.or_else (Js.join "," (Js.sort (peerIds view))) "EMPTY".
Proof. intros Hh. unfold clusterKey. unfold isError in Hh. by rewrite Hh. Qed.

(** X1.  Two views without error, whose peer ids are plain, have the same key
    exactly when they list the same ids, each as often as the other, in
    any order. *)
Theorem clusterKey_eq_iff (v1 v2 : NodeClusterView.t) :
  isError v1 = false → isError v2 = false →
  Forall (fun s => plainId s = true) (peerIds v1) →
  Forall (fun s => plainId s = true) (peerIds v2) →
  clusterKey v1 = clusterKey v2 ↔ peerIds v1 ≡ₚ peerIds v2.
Proof.
  intros Hh1 Hh2 Hp1 Hp2.
  rewrite (clusterKey_healthy v1 Hh1), (clusterKey_healthy v2 Hh2).
  split; [|intros Hp; by rewrite (sort_Permutation _ _ Hp)].
  assert (Hs1 : Forall (fun s => plainId s = true) (Js.sort (peerIds v1))).
  { by rewrite sort_perm. }
  assert (Hs2 : Forall (fun s => plainId s = true) (Js.sort (peerIds v2))).
  { by rewrite sort_perm. }
  intros Heq.
  rewrite <- (sort_perm (peerIds v1)), <- (sort_perm (peerIds v2)).
  destruct (Js.sort (peerIds v1)) as [|x l1] eqn:E1,
           (Js.sort (peerIds v2)) as [|y l2] eqn:E2.
  - done.
  - exfalso. destruct (join_plain_nonempty (y :: l2) Hs2) as [Hne Hnk]; [done|].
    rewrite (or_else_nonempty _ _ Hne) in Heq. by apply Hnk.
  - exfalso. destruct (join_plain_nonempty (x :: l1) Hs1) as [Hne Hnk]; [done|].
    rewrite (or_else_nonempty _ _ Hne) in Heq. by apply Hnk.
  - destruct (join_plain_nonempty (x :: l1) Hs1) as [Hne1 _]; [done|].
    destruct (join_plain_nonempty (y :: l2) Hs2) as [Hne2 _]; [done|].
    rewrite (or_else_nonempty _ _ Hne1), (or_else_nonempty _ _ Hne2) in Heq.
    by rewrite (join_inj _ _ (plain_noComma _ Hs1) (plain_noComma _ Hs2)
                  ltac:(done) ltac:(done) Heq).
Qed.

Lemma clusterKey_eq_iff_witness :
  let v1 := Scenario.view "1" ["p1"; "p2"] None in
  let v2 := Scenario.view "2" ["p2"; "p1"] None in
  isError v1 = false ∧ isError v2 = false
  ∧ Forall (fun s => plainId s = true) (peerIds v1)
  ∧ Forall (fun s => plainId s = true) (peerIds v2)
  ∧ clusterKey v1 = clusterKey v2.
Proof.
  assert (H1 : Forall (fun s => plainId s = true)
                 (peerIds (Scenario.view "1" ["p1"; "p2"] None)))
    by (repeat constructor).
  assert (H2 : Forall (fun s => plainId s = true)
                 (peerIds (Scenario.view "2" ["p2"; "p1"] None)))
    by (repeat constructor).
  split; [reflexivity|]. split; [reflexivity|].
  split; [exact H1|]. split; [exact H2|].
  apply (clusterKey_eq_iff (Scenario.view "1" ["p1"; "p2"] None)
           (Scenario.view "2" ["p2"; "p1"] None) eq_refl eq_refl H1 H2).
  apply perm_swap.
Defined.

(** Without the condition on the ids the key can merge different peer
    lists: one peer whose id has a comma, and two peers. *)
Example clusterKey_comma_collision :
  clusterKey (Scenario.view "1" ["a,b"] None)
  = clusterKey (Scenario.view "2" ["a"; "b"] None).
Proof. reflexivity. Qed.

(** The three lists of the views, by error and by key. *)
Lemma views_three_way (k : string) (views : list NodeClusterView.t) :
  healthyWithKey k views ++ healthyOffKey k views ++ List.filter isError views
  ≡ₚ views.
Proof.
  induction views as [|v views IH]; [done|].
  unfold healthyWithKey, healthyOffKey in *. cbn [List.filter].
  destruct (isError v); cbn [negb andb].
  - do 2 rewrite <- Permutation_middle. by rewrite IH.
  - destruct (bool_decide (clusterKey v = k)); cbn [negb andb].
    + by rewrite <- app_comm_cons, IH.
    + by rewrite <- app_comm_cons, <- Permutation_middle, IH.
Qed.

(** X2.  Every node of a snapshot is in exactly one of the three lists of
    [findMajority]. *)
Theorem findMajority_accounts_for_every_node (s : ClusterSnapshot.t) :
  let m := findMajority s in
  Majority.majorityNodes m ++ Majority.minorityNodes m ++ Majority.unreachable m
  ≡ₚ map NodeClusterView.nodeId (ClusterSnapshot.views s).
Proof.
  intros m. subst m.
  destruct (findMajority_partition s) as (-> & -> & ->).
  rewrite <- !map_app. apply Permutation_map, views_three_way.
Qed.

Lemma findMajority_maximal (s : ClusterSnapshot.t) (v : NodeClusterView.t) :
  In v (ClusterSnapshot.views s) → isError v = false →
  (length (healthyWithKey (clusterKey v) (ClusterSnapshot.views s))
   ≤ length (healthyWithKey (Majority.majorityKey (findMajority s))
               (ClusterSnapshot.views s)))%nat.
Proof.
  intros Hv Hh.
  rewrite <- (length_map NodeClusterView.nodeId (healthyWithKey (Majority.majorityKey _) _)).
  rewrite <- (findMajority_majorityNodes s v Hv Hh).
  rewrite (findMajority_healthy s v Hv Hh). simpl.
  set (views := ClusterSnapshot.views s) in *.
  destruct (grouped_groupsOf isError clusterKey NodeClusterView.nodeId views)
    as (Hnd & Hmem & Hkeys).
  rewrite <- keyGroups_groupsOf in Hnd, Hmem, Hkeys.
  destruct (largest_spec "" (keyGroups views) (keyGroups_nonempty _ _ Hv Hh))
    as (g1 & g2 & Hsplit & Hg1 & Hg2).
  set (best := largest "" (keyGroups views)) in *.
  specialize (Hkeys v Hv Hh).
  apply in_map_iff in Hkeys as ([k ns] & Hk & Hin). simpl in Hk. subst k.
  assert (Hlen : length ns
                 = length (healthyWithKey (clusterKey v) views)).
  { destruct (Hmem _ _ Hin) as [-> _].
    by rewrite members_healthyWithKey, length_map. }
  rewrite <- Hlen. rewrite Hsplit in Hin.
  apply in_app_iff in Hin as [Hin|[Heq|Hin]].
  - specialize (Hg1 _ Hin). simpl in Hg1. lia.
  - rewrite Heq. simpl. lia.
  - apply (Hg2 _ Hin).
Qed.

Lemma findMajority_key_held (s : ClusterSnapshot.t) (v : NodeClusterView.t) :
  In v (ClusterSnapshot.views s) → isError v = false →
  ∃ w, In w (ClusterSnapshot.views s) ∧ isError w = false
       ∧ clusterKey w = Majority.majorityKey (findMajority s).
Proof.
  intros Hv Hh. pose proof (findMajority_maximal s v Hv Hh) as Hle.
  assert (Hpos : (0 < length (healthyWithKey (clusterKey v) (ClusterSnapshot.views s)))%nat).
  { assert (In v (healthyWithKey (clusterKey v) (ClusterSnapshot.views s))) as Hin.
    { apply filter_In. split; [done|]. rewrite Hh. simpl. by apply bool_decide_eq_true. }
    destruct (healthyWithKey _ _); [done|simpl; lia]. }
  destruct (healthyWithKey (Majority.majorityKey (findMajority s)) (ClusterSnapshot.views s))
    as [|w ws] eqn:E; [simpl in Hle; lia|].
  assert (In w (healthyWithKey (Majority.majorityKey (findMajority s)) (ClusterSnapshot.views s))) as Hw.
  { rewrite E. by left. }
  apply filter_In in Hw as [Hw Hc]. apply andb_prop in Hc as [Hc1 Hc2].
  exists w. split_and!; [done|by destruct (isError w)|by apply bool_decide_eq_true in Hc2].
Qed.

Lemma two_keys_count (k k' : string) (views : list NodeClusterView.t) :
  k ≠ k' →
  (length (healthyWithKey k views) + length (healthyWithKey k' views)
   ≤ length (List.filter (fun v => negb (isError v)) views))%nat.
Proof.
  intros Hne. induction views as [|v views IH]; [done|].
  unfold healthyWithKey in *. cbn [List.filter].
  destruct (isError v); cbn [negb andb]; [done|].
  destruct (decide (clusterKey v = k)) as [->|Hk].
  - rewrite bool_decide_eq_true_2 by done.
    rewrite (bool_decide_eq_false_2 (k = k')) by done. simpl. lia.
  - rewrite (bool_decide_eq_false_2 (clusterKey v = k)) by done.
    destruct (bool_decide (clusterKey v = k')); simpl; lia.
Qed.

(** X3.  A key that more than half of the views without error share is the
    majority key, wherever its views stand in the snapshot. *)
Theorem findMajority_strict_majority (s : ClusterSnapshot.t) (k : string) :
  let views := ClusterSnapshot.views s in
  (length (List.filter (fun v => negb (isError v)) views)
   < 2 * length (healthyWithKey k views))%nat →
  Majority.majorityKey (findMajority s) = k
  ∧ Majority.majorityNodes (findMajority s)
    = map NodeClusterView.nodeId (healthyWithKey k views)
  ∧ (length (Majority.minorityNodes (findMajority s))
     < length (Majority.majorityNodes (findMajority s)))%nat.
Proof.
  intros views Hhalf.
  destruct (healthyWithKey k views) as [|v vs] eqn:E; [simpl in Hhalf; lia|].
  assert (In v (healthyWithKey k views)) as Hv by (rewrite E; by left).
  apply filter_In in Hv as [Hv Hc]. apply andb_prop in Hc as [Hc1 Hc2].
  apply bool_decide_eq_true in Hc2.
  assert (Hh : isError v = false) by (by destruct (isError v)).
  pose proof (findMajority_maximal s v Hv Hh) as Hmax. fold views in Hmax.
  rewrite Hc2, E in Hmax.
  assert (Hkey : Majority.majorityKey (findMajority s) = k).
  { destruct (decide (Majority.majorityKey (findMajority s) = k)) as [|Hne]; [done|].
    pose proof (two_keys_count _ _ views Hne) as Hcount.
    rewrite E in Hcount. rewrite <- E in Hhalf, Hmax. rewrite E in Hhalf, Hmax.
    lia. }
  destruct (findMajority_partition s) as (_ & Hmaj & Hmin). fold views in Hmaj, Hmin.
  split_and!; [done|by rewrite Hmaj, Hkey, E|].
  rewrite Hmaj, Hmin, Hkey, !length_map.
  pose proof (views_three_way k views) as Hp.
  assert (Hlen : (length (healthyWithKey k views) + length (healthyOffKey k views)
           = length (List.filter (fun v => negb (isError v)) views))%nat).
  { clear. induction views as [|v views IH]; [done|].
    unfold healthyWithKey, healthyOffKey in *. cbn [List.filter].
    destruct (isError v); cbn [negb andb]; [done|].
    destruct (bool_decide (clusterKey v = k)); simpl; lia. }
  rewrite E in Hlen |- *. lia.
Qed.

Lemma findMajority_strict_majority_witness :
  let s := Scenario.twoAgainstOne in
  (length (List.filter (fun v => negb (isError v)) (ClusterSnapshot.views s))
   < 2 * length (healthyWithKey "p1,p2" (ClusterSnapshot.views s)))%nat
  ∧ Majority.majorityKey (findMajority s) = "p1,p2"
  ∧ Majority.majorityNodes (findMajority s) = ["1"; "2"].
Proof.
  assert (Hhalf : (length (List.filter (fun v => negb (isError v))
                             (ClusterSnapshot.views Scenario.twoAgainstOne))
                   < 2 * length (healthyWithKey "p1,p2"
                                   (ClusterSnapshot.views Scenario.twoAgainstOne)))%nat)
    by (vm_compute; lia).
  destruct (findMajority_strict_majority Scenario.twoAgainstOne "p1,p2" Hhalf)
    as (Hkey & Hnodes & _).
  split; [exact Hhalf|]. split; [exact Hkey|]. rewrite Hnodes. reflexivity.
Defined.

(** Views without error that share one key give no event. *)
Lemma detectForks_same_key (s : ClusterSnapshot.t) :
  (∀ v, In v (ClusterSnapshot.views s) → isError v = false) →
  (∀ v w, In v (ClusterSnapshot.views s) → In w (ClusterSnapshot.views s) →
          clusterKey v = clusterKey w) →
  detectForks s = [].
Proof.
  intros Hok Hsame.
  destruct (findMajority_partition s) as (Hun & _ & Hmin).
  assert (Hun' : Majority.unreachable (findMajority s) = []).
  { rewrite Hun. rewrite (proj2 (filter_nil_iff _ _)); [done|].
    intros v Hv. by apply Hok. }
  assert (Hmin' : Majority.minorityNodes (findMajority s) = []).
  { apply Permutation_nil_r. rewrite Hmin.
    destruct (ClusterSnapshot.views s) as [|v0 vs] eqn:Ev; [done|].
    destruct (findMajority_key_held s v0) as (w & Hw & _ & Hkw).
    { rewrite Ev. by left. } { apply Hok. by left. }
    rewrite Ev in Hw. unfold healthyOffKey.
    rewrite (proj2 (filter_nil_iff _ _)); [done|].
    intros v Hv. rewrite <- Hkw, (Hsame v w Hv Hw).
    rewrite bool_decide_eq_true_2 by done. simpl. apply andb_false_r. }
  unfold detectForks. cbv zeta. by rewrite Hun', Hmin'.
Qed.

(** X4.  [detectForks] is silent exactly when no view has an error and all
    views have the same key. *)
Theorem detectForks_silent_iff (s : ClusterSnapshot.t) :
  detectForks s = []
  ↔ (∀ v, In v (ClusterSnapshot.views s) → isError v = false)
    ∧ (∀ v w, In v (ClusterSnapshot.views s) → In w (ClusterSnapshot.views s) →
              clusterKey v = clusterKey w).
Proof.
  split; [|intros [Hok Hsame]; by apply detectForks_same_key].
  intros Hnil.
  destruct (findMajority_partition s) as (Hun & _ & Hmin).
  unfold detectForks in Hnil. cbv zeta in Hnil.
  apply app_eq_nil in Hnil as [Hf Hu].
  assert (Hmin' : Majority.minorityNodes (findMajority s) = []).
  { destruct (Majority.minorityNodes (findMajority s)); [done|]. simpl in Hf. done. }
  assert (Hun' : Majority.unreachable (findMajority s) = []).
  { destruct (Majority.unreachable (findMajority s)); [done|]. simpl in Hu. done. }
  rewrite Hun' in Hun. rewrite Hmin' in Hmin.
  symmetry in Hun. apply map_eq_nil in Hun.
  symmetry in Hmin. apply Permutation_nil_r, map_eq_nil in Hmin.
  assert (Hok : ∀ v, In v (ClusterSnapshot.views s) → isError v = false).
  { intros v Hv. destruct (isError v) eqn:Ee; [|done].
    assert (In v (List.filter isError (ClusterSnapshot.views s))) as Hin
      by (apply filter_In; by split).
    rewrite Hun in Hin. destruct Hin. }
  assert (Hkey : ∀ v, In v (ClusterSnapshot.views s) →
                      clusterKey v = Majority.majorityKey (findMajority s)).
  { intros v Hv. destruct (decide (clusterKey v = Majority.majorityKey (findMajority s))) as [|Hne]; [done|].
    assert (In v (healthyOffKey (Majority.majorityKey (findMajority s)) (ClusterSnapshot.views s))) as Hin.
    { apply filter_In. split; [done|]. rewrite (Hok v Hv).
      by rewrite bool_decide_eq_false_2. }
    rewrite Hmin in Hin. destruct Hin. }
  split; [done|]. intros v w Hv Hw. by rewrite (Hkey v Hv), (Hkey w Hw).
Qed.

(** ** Polling and detecting (cluster.ts) *)

Lemma pollLayerCluster_views (nodes : list NodeInfo.t) (layer : LayerName)
    (fetchFn : FetchFn) (now : string) :
  map NodeClusterView.nodeId
    (ClusterSnapshot.views (pollLayerCluster nodes layer fetchFn now))
  = map NodeInfo.nodeId nodes.
Proof.
  simpl. rewrite map_map. apply map_ext. intros node.
  unfold pollNodeCluster. destruct (find _ _); [|done].
  by destruct (fetchFn _).
Qed.

(** X5.  Polling a layer on which no node answers, and looking for forks in
    the result, gives one event: all the nodes are unreachable.  A node
    does not answer when the layer is not configured for it or its
    request fails with a message. *)
Theorem pollLayerCluster_detectForks_all_down (nodes : list NodeInfo.t)
    (layer : LayerName) (fetchFn : FetchFn) (now : string) :
  nodes ≠ [] →
  (∀ node cfg, In node nodes → layerConfigOf node layer = Some cfg →
     ∃ err, fetchFn (clusterInfoUrl (NodeInfo.host node) (LayerConfig.port cfg))
            = Js.Rejected err ∧ err ≠ "") →
  ∃ event,
    detectForks (pollLayerCluster nodes layer fetchFn now) = [event]
    ∧ HealthEvent.condition event = NODE_UNREACHABLE
    ∧ HealthEvent.layer event = layer
    ∧ HealthEvent.nodeIds event = map NodeInfo.nodeId nodes
    ∧ HealthEvent.timestamp event = now
    ∧ HealthEvent.suggestedAction event = Some IndividualNode.
Proof.
  intros Hne Hdown.
  set (s := pollLayerCluster nodes layer fetchFn now).
  assert (Herr : ∀ v, In v (ClusterSnapshot.views s) → isError v = true).
  { intros v Hv. simpl in Hv. apply in_map_iff in Hv as (node & <- & Hnode).
    unfold pollNodeCluster.
    destruct (find _ _) as [cfg|] eqn:Ecfg; [|done].
    destruct (Hdown node cfg Hnode Ecfg) as (err & Hf & Herr).
    unfold clusterInfoUrl in Hf. rewrite Hf. unfold isError. simpl.
    by destruct err. }
  assert (Hall : List.filter isError (ClusterSnapshot.views s) = ClusterSnapshot.views s).
  { clear -Herr. induction (ClusterSnapshot.views s) as [|v vs IH]; [done|].
    simpl. rewrite (Herr v) by (by left). f_equal. apply IH.
    intros w Hw. apply Herr. by right. }
  assert (Hnone : List.filter (fun v => negb (isError v)) (ClusterSnapshot.views s) = []).
  { apply filter_nil_iff. intros v Hv. by rewrite (Herr v Hv). }
  destruct (findMajority_partition s) as (Hun & _ & _).
  rewrite Hall in Hun. unfold s in Hun at 2. rewrite pollLayerCluster_views in Hun.
  assert (Hmin : Majority.minorityNodes (findMajority s) = []).
  { unfold findMajority. cbv zeta. by rewrite (keyGroups_all_errors _ Hnone). }
  exists (unreachableEvent s (findMajority s)).
  unfold detectForks. cbv zeta. rewrite Hmin, Hun.
  destruct nodes as [|n ns]; [done|]. simpl. by rewrite Hun.
Qed.

Lemma pollLayerCluster_detectForks_all_down_witness :
  Cases.nodes2 ≠ []
  ∧ ∃ event,
      detectForks (pollLayerCluster Cases.nodes2 ML0 Cases.refused Scenario.now)
      = [event]
      ∧ HealthEvent.condition event = NODE_UNREACHABLE
      ∧ HealthEvent.nodeIds event = ["1"; "2"].
Proof.
  assert (Hne : Cases.nodes2 ≠ []) by discriminate.
  split; [exact Hne|].
  destruct (pollLayerCluster_detectForks_all_down Cases.nodes2 ML0 Cases.refused
              Scenario.now Hne) as (event & Hev & Hcond & _ & Hids & _).
  { intros node cfg _ _. exists "ECONNREFUSED". split; [reflexivity|discriminate]. }
  exists event. split; [exact Hev|]. split; [exact Hcond|]. rewrite Hids. reflexivity.
Defined.

(** X6.  Polling a layer on which every node answers with the same peers, in
    whatever order each, and looking for forks in the result, gives no
    event. *)
Theorem pollLayerCluster_detectForks_agreeing (nodes : list NodeInfo.t)
    (layer : LayerName) (fetchFn : FetchFn) (now : string)
    (answer : NodeInfo.t → list ClusterPeer.t) :
  (∀ node, In node nodes →
     ∃ cfg, layerConfigOf node layer = Some cfg
            ∧ fetchFn (clusterInfoUrl (NodeInfo.host node) (LayerConfig.port cfg))
              = Js.Resolved (JArray (answer node))) →
  (∀ n n', In n nodes → In n' nodes →
     map ClusterPeer.id (answer n) ≡ₚ map ClusterPeer.id (answer n')) →
  detectForks (pollLayerCluster nodes layer fetchFn now) = [].
Proof.
  intros Hans Hsame.
  assert (Hview : ∀ v, In v (ClusterSnapshot.views (pollLayerCluster nodes layer fetchFn now)) →
            ∃ node, In node nodes ∧ isError v = false
                    ∧ clusterKey v
                      = Js.or_else (Js.join "," (Js.sort (map ClusterPeer.id (answer node)))) "EMPTY").
  { intros v Hv. simpl in Hv. apply in_map_iff in Hv as (node & <- & Hnode).
    exists node. destruct (Hans node Hnode) as (cfg & Hcfg & Hf).
    unfold layerConfigOf in Hcfg. unfold clusterInfoUrl in Hf.
    unfold pollNodeCluster. rewrite Hcfg, Hf. done. }
  apply detectForks_same_key.
  - intros v Hv. by destruct (Hview v Hv) as (_ & _ & ? & _).
  - intros v w Hv Hw.
    destruct (Hview v Hv) as (n & Hn & _ & ->).
    destruct (Hview w Hw) as (n' & Hn' & _ & ->).
    by rewrite (sort_Permutation _ _ (Hsame n n' Hn Hn')).
Qed.

Lemma pollLayerCluster_detectForks_agreeing_witness :
  (∀ node, In node Cases.nodes2 →
     ∃ cfg, layerConfigOf node ML0 = Some cfg
            ∧ Cases.agreed (clusterInfoUrl (NodeInfo.host node) (LayerConfig.port cfg))
              = Js.Resolved (JArray Cases.bothPeers))
  ∧ detectForks (pollLayerCluster Cases.nodes2 ML0 Cases.agreed Scenario.now) = [].
Proof.
  assert (Hans : ∀ node, In node Cases.nodes2 →
     ∃ cfg, layerConfigOf node ML0 = Some cfg
            ∧ Cases.agreed (clusterInfoUrl (NodeInfo.host node) (LayerConfig.port cfg))
              = Js.Resolved (JArray Cases.bothPeers)).
  { intros node [<-|[<-|[]]]; eexists; split; reflexivity. }
  split; [exact Hans|].
  apply (pollLayerCluster_detectForks_agreeing Cases.nodes2 ML0 Cases.agreed
           Scenario.now (fun _ => Cases.bothPeers) Hans).
  intros n n' _ _. reflexivity.
Defined.

(** ** Ordinals of GL0 (cluster.ts) *)

Lemma atOrdinal_offOrdinal_length (o : Z) (states : list GL0NodeState.t) :
  (length (atOrdinal o states) + length (offOrdinal o states) = length states)%nat.
Proof.
  induction states as [|s states IH]; [done|].
  unfold atOrdinal, offOrdinal in *. simpl.
  destruct (bool_decide (GL0NodeState.ordinal s = o)); simpl; lia.
Qed.

(** X7.  Two states at different ordinals always give an event.  It lists at
    least one of the two nodes, never all the nodes, and the nodes it
    leaves out are at least as many as the nodes at any single ordinal. *)
Theorem detectGL0Fork_differing_ordinals (states : list GL0NodeState.t)
    (timestamp : string) (a b : GL0NodeState.t) :
  In a states → In b states →
  GL0NodeState.ordinal a ≠ GL0NodeState.ordinal b →
  ∃ event,
    detectGL0Fork states timestamp = Some event
    ∧ (In (GL0NodeState.nodeId a) (HealthEvent.nodeIds event)
       ∨ In (GL0NodeState.nodeId b) (HealthEvent.nodeIds event))
    ∧ (length (HealthEvent.nodeIds event) < length states)%nat
    ∧ ∀ s, In s states →
           (length (atOrdinal (GL0NodeState.ordinal s) states)
            ≤ length states - length (HealthEvent.nodeIds event))%nat.
Proof.
  intros Ha Hb Hne.
  assert (Hlen : (2 ≤ length states)%nat).
  { destruct states as [|x [|y l]]; [done| |simpl; lia].
    destruct Ha as [<-|[]], Hb as [<-|[]]. done. }
  assert (Hnil : states ≠ []) by (by destruct states).
  destruct (majorityOrdinal_spec states Hnil) as (Hmax & pre & st & post & Hsplit & Hst & _).
  set (mo := majorityOrdinal states) in *.
  pose proof (atOrdinal_offOrdinal_length mo states) as Hsum.
  assert (Hoff : ∀ x, In x states → GL0NodeState.ordinal x ≠ mo →
                      In (GL0NodeState.nodeId x)
                         (map GL0NodeState.nodeId (offOrdinal mo states))).
  { intros x Hx Hxo. apply in_map, filter_In. split; [done|].
    by rewrite bool_decide_eq_false_2. }
  assert (Hab : In (GL0NodeState.nodeId a) (map GL0NodeState.nodeId (offOrdinal mo states))
                ∨ In (GL0NodeState.nodeId b) (map GL0NodeState.nodeId (offOrdinal mo states))).
  { destruct (decide (GL0NodeState.ordinal a = mo)) as [Hao|Hao].
    - right. apply Hoff; [done|]. congruence.
    - left. by apply Hoff. }
  assert (Hpos : (0 < length (atOrdinal mo states))%nat).
  { assert (In st (atOrdinal mo states)) as Hin.
    { apply filter_In. split; [|by apply bool_decide_eq_true].
      rewrite Hsplit. apply in_app_iff. right. by left. }
    destruct (atOrdinal mo states); [done|simpl; lia]. }
  unfold detectGL0Fork. fold mo.
  destruct (length states <? 2)%nat eqn:E2; [apply Nat.ltb_lt in E2; lia|].
  cbv zeta. fold (offOrdinal mo states).
  destruct (length (map GL0NodeState.nodeId (offOrdinal mo states)) =? 0)%nat eqn:E0.
  { apply Nat.eqb_eq in E0.
    destruct (map GL0NodeState.nodeId (offOrdinal mo states)); [|done].
    by destruct Hab. }
  eexists. split; [reflexivity|]. cbn [HealthEvent.nodeIds].
  rewrite length_map. split_and!; [done|lia|].
  intros s Hs. specialize (Hmax s Hs). lia.
Qed.

Lemma detectGL0Fork_differing_ordinals_witness :
  let a := GL0NodeState.mk "1" 6200 None in
  let b := GL0NodeState.mk "3" 5548 None in
  In a Scenario.oneLagging ∧ In b Scenario.oneLagging
  ∧ GL0NodeState.ordinal a ≠ GL0NodeState.ordinal b
  ∧ ∃ event, detectGL0Fork Scenario.oneLagging Scenario.now = Some event
             ∧ (length (HealthEvent.nodeIds event) < 3)%nat.
Proof.
  assert (Ha : In (GL0NodeState.mk "1" 6200 None) Scenario.oneLagging)
    by (left; reflexivity).
  assert (Hb : In (GL0NodeState.mk "3" 5548 None) Scenario.oneLagging)
    by (right; right; left; reflexivity).
  assert (Hne : GL0NodeState.ordinal (GL0NodeState.mk "1" 6200 None)
                ≠ GL0NodeState.ordinal (GL0NodeState.mk "3" 5548 None))
    by discriminate.
  destruct (detectGL0Fork_differing_ordinals Scenario.oneLagging Scenario.now _ _
              Ha Hb Hne) as (event & Hev & _ & Hlen & _).
  split; [exact Ha|]. split; [exact Hb|]. split; [exact Hne|].
  exists event. split; [exact Hev|exact Hlen].
Defined.

(** ** The stall tracker (snapshot.ts) *)

Lemma append_length (a b : string) :
  String.length (a +:+ b) = (String.length a + String.length b)%nat.
Proof. induction a as [|c a IH]; simpl; [done|]. by rewrite IH. Qed.

(** Two strings with ends of the same length are equal part by part. *)
Lemma append_inj_end (a1 a2 b1 b2 : string) :
  String.length b1 = String.length b2 →
  a1 +:+ b1 = a2 +:+ b2 → a1 = a2 ∧ b1 = b2.
Proof.
  intros Hlen. revert a2. induction a1 as [|c a1 IH]; intros [|d a2] Heq.
  - done.
  - exfalso. apply (f_equal String.length) in Heq.
    rewrite !append_length in Heq. simpl in Heq. lia.
  - exfalso. apply (f_equal String.length) in Heq.
    rewrite !append_length in Heq. simpl in Heq. lia.
  - injection Heq as -> Heq. destruct (IH _ Heq) as [-> ->]. done.
Qed.

(** The key tells node and layer apart, whatever the node id. *)
Lemma key_inj (n1 n2 : string) (l1 l2 : LayerName) :
  StallTracker.key n1 (LayerName_str l1) = StallTracker.key n2 (LayerName_str l2) →
  n1 = n2 ∧ l1 = l2.
Proof.
  unfold StallTracker.key. intros Heq.
  apply append_inj_end in Heq as [-> Heq]; [|by destruct l1, l2].
  split; [done|]. by destruct l1, l2.
Qed.

(** X8.  An update for one node and layer leaves what the tracker holds for
    every other node and layer as it is, also when node ids contain the
    separator of the key. *)
Theorem StallTracker_update_other_key (this : StallTracker.t)
    (snap : OrdinalSnapshot.t) (now : Z) (nodeId : string) (layer : LayerName) :
  (nodeId, layer) ≠ (OrdinalSnapshot.nodeId snap, OrdinalSnapshot.layer snap) →
  let this' := (StallTracker.update this snap now).1 in
  StallTracker.lastOrdinalFor this' nodeId (LayerName_str layer)
  = StallTracker.lastOrdinalFor this nodeId (LayerName_str layer)
  ∧ StallTracker.lastChanged this' !! StallTracker.key nodeId (LayerName_str layer)
    = StallTracker.lastChanged this !! StallTracker.key nodeId (LayerName_str layer).
Proof.
  intros Hne this'. subst this'.
  assert (Hk : keyOf snap ≠ StallTracker.key nodeId (LayerName_str layer)).
  { intros Heq. apply key_inj in Heq as [H1 H2]. apply Hne. congruence. }
  unfold StallTracker.lastOrdinalFor.
  destruct (update_cases this snap now) as [[-> _]|[-> _]]; [|done].
  simpl. by rewrite !lookup_insert_ne.
Qed.

Lemma StallTracker_update_other_key_witness :
  ("n2", ML0) ≠ (OrdinalSnapshot.nodeId (Scenario.ordinalAt 101),
                 OrdinalSnapshot.layer (Scenario.ordinalAt 101))
  ∧ StallTracker.lastOrdinalFor
      (StallTracker.update Scenario.seen100 (Scenario.ordinalAt 101) Scenario.noon).1
      "n2" "ML0"
    = None.
Proof.
  assert (Hne : ("n2", ML0) ≠ (OrdinalSnapshot.nodeId (Scenario.ordinalAt 101),
                               OrdinalSnapshot.layer (Scenario.ordinalAt 101)))
    by discriminate.
  split; [exact Hne|].
  destruct (StallTracker_update_other_key Scenario.seen100 (Scenario.ordinalAt 101)
              Scenario.noon "n2" ML0 Hne) as [Hord _].
  simpl in Hord. rewrite Hord. vm_compute. reflexivity.
Defined.

(** *** The tracker holds the highest ordinal *)

Lemma update_lastOrdinal_key (this : StallTracker.t) (snap : OrdinalSnapshot.t) (now : Z) :
  ∃ b, StallTracker.lastOrdinal (StallTracker.update this snap now).1 !! keyOf snap = Some b
       ∧ (OrdinalSnapshot.ordinal snap ≤ b)%Z.
Proof.
  destruct (update_cases this snap now) as [[-> _]|[-> (prev & Hp & Hle)]]; simpl.
  - exists (OrdinalSnapshot.ordinal snap). by rewrite lookup_insert_eq.
  - by exists prev.
Qed.

Lemma update_lastOrdinal_origin (this : StallTracker.t) (snap : OrdinalSnapshot.t)
    (now : Z) (k : string) (b : Z) :
  StallTracker.lastOrdinal (StallTracker.update this snap now).1 !! k = Some b →
  StallTracker.lastOrdinal this !! k = Some b
  ∨ (keyOf snap = k ∧ OrdinalSnapshot.ordinal snap = b).
Proof.
  destruct (update_cases this snap now) as [[-> _]|[-> _]]; simpl; [|by left].
  destruct (decide (keyOf snap = k)) as [<-|Hne].
  - rewrite lookup_insert_eq. intros [= <-]. by right.
  - rewrite lookup_insert_ne by done. by left.
Qed.

Lemma updates_fst_cons (this : StallTracker.t) (snap : OrdinalSnapshot.t) (now : Z)
    (calls : list (OrdinalSnapshot.t * Z)) :
  (updates this ((snap, now) :: calls)).1
  = (updates (StallTracker.update this snap now).1 calls).1.
Proof. by rewrite updates_cons. Qed.

Lemma updates_reported_le (calls : list (OrdinalSnapshot.t * Z))
    (this : StallTracker.t) (snap : OrdinalSnapshot.t) (now : Z) :
  In (snap, now) calls →
  ∃ b, StallTracker.lastOrdinal (updates this calls).1 !! keyOf snap = Some b
       ∧ (OrdinalSnapshot.ordinal snap ≤ b)%Z.
Proof.
  revert this. induction calls as [|[s0 t0] calls IH]; intros this Hin; [done|].
  rewrite updates_fst_cons. destruct Hin as [[= -> ->]|Hin]; [|by apply IH].
  destruct (update_lastOrdinal_key this snap now) as (b & Hb & Hle).
  destruct (updates_lastOrdinal_mono calls _ _ _ Hb) as (b' & Hb' & Hle').
  exists b'. split; [done|lia].
Qed.

(** X9.  After a sequence of updates the tracker holds, for every node and
    layer, the highest ordinal among the one it held before and those
    reported since: it is at least each reported ordinal, and it is one
    of these values. *)
Theorem StallTracker_holds_highest (calls : list (OrdinalSnapshot.t * Z))
    (this : StallTracker.t) (k : string) :
  let final := StallTracker.lastOrdinal (updates this calls).1 in
  (∀ snap now, In (snap, now) calls → keyOf snap = k →
     ∃ b, final !! k = Some b ∧ (OrdinalSnapshot.ordinal snap ≤ b)%Z)
  ∧ (∀ b, final !! k = Some b →
       StallTracker.lastOrdinal this !! k = Some b
       ∨ ∃ snap now, In (snap, now) calls ∧ keyOf snap = k
                     ∧ OrdinalSnapshot.ordinal snap = b)
  ∧ (final !! k = None →
       StallTracker.lastOrdinal this !! k = None
       ∧ ∀ snap now, In (snap, now) calls → keyOf snap ≠ k).
Proof.
  revert this. induction calls as [|[snap now] calls IH]; intros this final.
  - subst final. simpl. split_and!; [by intros ?? []|by left|done].
  - subst final. rewrite updates_fst_cons.
    destruct (IH (StallTracker.update this snap now).1) as (IH1 & IH2 & IH3).
    split_and!.
    + intros snap' now' [[= <- <-]|Hin] Hk.
      * destruct (update_lastOrdinal_key this snap now) as (b & Hb & Hle).
        rewrite Hk in Hb.
        destruct (updates_lastOrdinal_mono calls _ _ _ Hb) as (b' & Hb' & Hle').
        exists b'. split; [done|lia].
      * by apply (IH1 snap' now').
    + intros b Hb. destruct (IH2 b Hb) as [Hprev|(snap' & now' & Hin & Hk & Ho)].
      * destruct (update_lastOrdinal_origin _ _ _ _ _ Hprev) as [?|[? ?]]; [by left|].
        right. exists snap, now. split_and!; [by left|done|done].
      * right. exists snap', now'. split_and!; [by right|done|done].
    + intros Hnone. destruct (IH3 Hnone) as [Hprev Hno].
      assert (Hk : keyOf snap ≠ k).
      { intros <-. destruct (update_lastOrdinal_key this snap now) as (b & Hb & _).
        by rewrite Hprev in Hb. }
      split.
      * destruct (StallTracker.lastOrdinal this !! k) as [a|] eqn:Ea; [|done].
        destruct (update_lastOrdinal_mono this snap now k a Ea) as (b & Hb & _).
        by rewrite Hprev in Hb.
      * intros snap' now' [[= <- <-]|Hin]; [done|]. by apply (Hno snap' now').
Qed.

(** *** Both maps have the same keys *)

Lemma update_sameKeys (this : StallTracker.t) (snap : OrdinalSnapshot.t) (now : Z) :
  sameKeys this → sameKeys (StallTracker.update this snap now).1.
Proof.
  intros Hc k.
  destruct (update_cases this snap now) as [[-> _]|[-> _]]; simpl; [|apply Hc].
  destruct (decide (keyOf snap = k)) as [<-|Hne].
  - by rewrite !lookup_insert_eq.
  - rewrite !lookup_insert_ne by done. apply Hc.
Qed.

Lemma updates_sameKeys (calls : list (OrdinalSnapshot.t * Z)) (this : StallTracker.t) :
  sameKeys this → sameKeys (updates this calls).1.
Proof.
  revert this. induction calls as [|[snap now] calls IH]; intros this Hc; [done|].
  rewrite updates_fst_cons. by apply IH, update_sameKeys.
Qed.

(** ** Stall detection with the clock (snapshot.ts) *)

Section Stall_clock.
Import Stall.

Lemma ge_div1000 (a thr : Z) :
  Num.ge (Num.div1000 a) thr = true ↔ (1000 * thr ≤ a)%Z.
Proof.
  unfold Num.ge, Num.div1000. rewrite QArith_base.Qle_bool_iff.
  unfold QArith_base.Qle. simpl. lia.
Qed.

Lemma staleSecs_run (nodeId layer : string) (clock : Clock.t) (w : World.t) :
  staleSecs nodeId layer clock w
  = match StallTracker.lastChanged (World.tracker w) !! StallTracker.key nodeId layer with
    | None => (None, w)
    | Some c => (Some (Num.div1000 (clock (World.reads w) - c)),
                 World.mk (World.tracker w) (S (World.reads w)))
    end.
Proof.
  unfold staleSecs, getTracker, dateNow, mbind, M_bind, mret, M_ret.
  by destruct (_ !! _).
Qed.

(** *** What a sequence of updates does to one key *)

Lemma updates_lastChanged_keep (P : Z → Prop) (calls : list (OrdinalSnapshot.t * Z))
    (this : StallTracker.t) (k : string) :
  (∀ snap t, In (snap, t) calls → P t) →
  (∃ c, StallTracker.lastChanged this !! k = Some c ∧ P c) →
  ∃ c, StallTracker.lastChanged (updates this calls).1 !! k = Some c ∧ P c.
Proof.
  revert this. induction calls as [|[s0 t0] calls IH]; intros this HP Hc; [done|].
  rewrite updates_fst_cons. apply IH; [intros ?? ?; eapply HP; by right|].
  destruct Hc as (c & Hc & HPc).
  destruct (update_cases this s0 t0) as [[-> _]|[-> _]]; simpl; [|by exists c].
  destruct (decide (keyOf s0 = k)) as [<-|Hne].
  - exists t0. rewrite lookup_insert_eq. split; [done|]. apply (HP s0). by left.
  - exists c. by rewrite lookup_insert_ne.
Qed.

Lemma updates_lastChanged_advances (P : Z → Prop) (calls : list (OrdinalSnapshot.t * Z))
    (this : StallTracker.t) (snap : OrdinalSnapshot.t) :
  (∀ s t, In (s, t) calls → P t) →
  In snap (map fst calls) → advances this snap →
  ∃ c, StallTracker.lastChanged (updates this calls).1 !! keyOf snap = Some c ∧ P c.
Proof.
  revert this. induction calls as [|[s0 t0] calls IH]; intros this HP Hin Hadv; [done|].
  rewrite updates_fst_cons.
  assert (HP' : ∀ s t, In (s, t) calls → P t) by (intros ?? ?; eapply HP; by right).
  destruct (update_cases this s0 t0) as [[Hu _]|[Hu (prev & Hprev & Hle)]]; rewrite Hu; simpl.
  - destruct (decide (keyOf s0 = keyOf snap)) as [Hk|Hne].
    + apply updates_lastChanged_keep; [done|]. simpl.
      exists t0. rewrite Hk, lookup_insert_eq. split; [done|]. apply (HP s0). by left.
    + apply IH; [done| |].
      * destruct Hin as [<-|Hin]; [done|done].
      * unfold advances. simpl. by rewrite lookup_insert_ne.
  - apply IH; [done| |done].
    destruct Hin as [Heq|Hin]; [|done]. simpl in Heq. subst s0.
    unfold advances in Hadv. rewrite Hprev in Hadv. lia.
Qed.

Lemma updates_stalled_key (calls : list (OrdinalSnapshot.t * Z))
    (this : StallTracker.t) (k : string) (p : Z) :
  StallTracker.lastOrdinal this !! k = Some p →
  (∀ s t, In (s, t) calls → keyOf s = k → (OrdinalSnapshot.ordinal s ≤ p)%Z) →
  StallTracker.lastOrdinal (updates this calls).1 !! k = Some p
  ∧ StallTracker.lastChanged (updates this calls).1 !! k
    = StallTracker.lastChanged this !! k.
Proof.
  revert this. induction calls as [|[s0 t0] calls IH]; intros this Hp Hle; [done|].
  rewrite updates_fst_cons.
  assert (Hle' : ∀ s t, In (s, t) calls → keyOf s = k → (OrdinalSnapshot.ordinal s ≤ p)%Z)
    by (intros ?? ?; eapply Hle; by right).
  destruct (update_cases this s0 t0) as [[Hu Hadv]|[Hu _]]; rewrite Hu; simpl;
    [|by apply IH].
  assert (Hne : keyOf s0 ≠ k).
  { intros Hk. specialize (Hle s0 t0 (or_introl eq_refl) Hk).
    rewrite Hk, Hp in Hadv. destruct Hadv as [|(prev & [= <-] & ?)]; [done|lia]. }
  destruct (IH (StallTracker.mk (<[keyOf s0:=OrdinalSnapshot.ordinal s0]> (StallTracker.lastOrdinal this))
                               (<[keyOf s0:=t0]> (StallTracker.lastChanged this)))) as [H1 H2].
  - simpl. by rewrite lookup_insert_ne.
  - done.
  - split; [done|]. rewrite H2. simpl. by rewrite lookup_insert_ne.
Qed.

(** *** The two loops of [detectStalls] *)

Lemma updateAll_run (snaps : list OrdinalSnapshot.t) (clock : Clock.t) (w : World.t) :
  ∃ calls r',
    forEach snaps (fun snap => update snap ;; mret tt) clock w
    = (tt, World.mk (updates (World.tracker w) calls).1 r')
    ∧ map fst calls = snaps
    ∧ (∀ s t, In (s, t) calls → ∃ i, t = clock i).
Proof.
  revert w. induction snaps as [|x snaps IH]; intros w.
  - exists [], (World.reads w). destruct w. split_and!; [done|done|by intros ?? []].
  - cbn [forEach]. unfold mbind, M_bind, mret, M_ret, update.
    destruct (StallTracker.update (World.tracker w) x (clock (World.reads w)))
      as [tr changed] eqn:Eu.
    set (w1 := World.mk tr _).
    destruct (IH w1) as (calls & r' & Hrun & Hmap & Htimes).
    exists ((x, clock (World.reads w)) :: calls), r'.
    split_and!.
    + unfold mbind, M_bind, mret, M_ret, update in Hrun. rewrite Hrun.
      rewrite updates_fst_cons, Eu. done.
    + simpl. by rewrite Hmap.
    + intros s t [[= <- <-]|Hin]; [by eexists|by apply (Htimes s)].
Qed.

Lemma pushIfStalled_run (thr : Z) (now : string) (events : list HealthEvent.t)
    (snap : OrdinalSnapshot.t) (clock : Clock.t) (w : World.t) :
  pushIfStalled thr now events snap clock w
  = match StallTracker.lastChanged (World.tracker w) !! keyOf snap with
    | None => (events, w)
    | Some c =>
        let secs := Num.div1000 (clock (World.reads w) - c) in
        let w1 := World.mk (World.tracker w) (S (World.reads w)) in
        if Num.ge secs thr
        then (events ++ [stallEvent snap
                           (default 0%Z (StallTracker.lastOrdinalFor (World.tracker w)
                              (OrdinalSnapshot.nodeId snap)
                              (LayerName_str (OrdinalSnapshot.layer snap))))
                           secs thr now], w1)
        else (events, w1)
    end.
Proof.
  unfold pushIfStalled. unfold mbind at 1. unfold M_bind.
  rewrite staleSecs_run. unfold keyOf.
  destruct (_ !! _); [|done]. cbv zeta.
  by destruct (Num.ge _ _).
Qed.

Lemma foldM_cons {A B : Type} (body : B → A → M B) (x : A) (l : list A) (b : B)
    (clock : Clock.t) (w : World.t) :
  foldM body (x :: l) b clock w
  = foldM body l (body b x clock w).1 clock (body b x clock w).2.
Proof. cbn [foldM]. unfold mbind, M_bind. by destruct (body b x clock w). Qed.

(** What the second loop adds: an event for a snapshot of the list whose
    node and layer the tracker saw change at least the threshold before
    some reading. *)
Lemma reportLoop_sound (thr : Z) (now : string) (snaps : list OrdinalSnapshot.t)
    (acc : list HealthEvent.t) (clock : Clock.t) (w : World.t) :
  let out := foldM (pushIfStalled thr now) snaps acc clock w in
  World.tracker out.2 = World.tracker w
  ∧ ∃ new, out.1 = acc ++ new
      ∧ ∀ e, In e new →
          ∃ snap c j, In snap snaps
            ∧ eventFor (OrdinalSnapshot.nodeId snap) (OrdinalSnapshot.layer snap) e
            ∧ HealthEvent.condition e = SNAPSHOT_STALL
            ∧ HealthEvent.suggestedAction e = Some FullMetagraph
            ∧ HealthEvent.timestamp e = now
            ∧ StallTracker.lastChanged (World.tracker w) !! keyOf snap = Some c
            ∧ (1000 * thr ≤ clock j - c)%Z.
Proof.
  revert acc w. induction snaps as [|x snaps IH]; intros acc w out.
  - subst out. simpl. split; [done|]. exists []. by rewrite app_nil_r.
  - subst out. rewrite foldM_cons, pushIfStalled_run.
    destruct (StallTracker.lastChanged (World.tracker w) !! keyOf x) as [c|] eqn:Ec;
      cbv zeta; [destruct (Num.ge _ thr) eqn:Ege|]; cbn [fst snd].
    + match goal with |- context [foldM _ snaps ?a clock ?w1] =>
        destruct (IH a w1) as (Htr & new & Hnew & Hall) end.
      split; [done|].
      eexists (_ :: new). rewrite Hnew, <- app_assoc. split; [done|].
      intros e [<-|He].
      * exists x, c, (World.reads w). apply ge_div1000 in Ege.
        split_and!; try done. by left.
      * destruct (Hall e He) as (snap & c' & j & ? & ? & ? & ? & ? & ? & ?).
        exists snap, c', j. split_and!; try done. by right.
    + match goal with |- context [foldM _ snaps ?a clock ?w1] =>
        destruct (IH a w1) as (Htr & new & Hnew & Hall) end.
      split; [done|]. exists new. split; [done|].
      intros e He. destruct (Hall e He) as (snap & c' & j & ? & ? & ? & ? & ? & ? & ?).
      exists snap, c', j. split_and!; try done. by right.
    + destruct (IH acc w) as (Htr & new & Hnew & Hall).
      split; [done|]. exists new. split; [done|].
      intros e He. destruct (Hall e He) as (snap & c' & j & ? & ? & ? & ? & ? & ? & ?).
      exists snap, c', j. split_and!; try done. by right.
Qed.

Lemma reportLoop_complete (thr : Z) (now : string) (snaps : list OrdinalSnapshot.t)
    (acc : list HealthEvent.t) (clock : Clock.t) (w : World.t)
    (snap : OrdinalSnapshot.t) (c : Z) :
  In snap snaps →
  StallTracker.lastChanged (World.tracker w) !! keyOf snap = Some c →
  (∀ i, 1000 * thr ≤ clock i - c)%Z →
  ∃ e, In e (foldM (pushIfStalled thr now) snaps acc clock w).1
       ∧ eventFor (OrdinalSnapshot.nodeId snap) (OrdinalSnapshot.layer snap) e
       ∧ HealthEvent.condition e = SNAPSHOT_STALL
       ∧ HealthEvent.suggestedAction e = Some FullMetagraph.
Proof.
  revert acc w. induction snaps as [|x snaps IH]; intros acc w Hin Hc Hold; [done|].
  rewrite foldM_cons, pushIfStalled_run.
  destruct Hin as [->|Hin].
  - rewrite Hc. cbv zeta.
    rewrite (proj2 (ge_div1000 _ _) (Hold _)). cbn [fst snd].
    match goal with |- context [foldM _ snaps ?a clock ?w1] =>
      destruct (reportLoop_sound thr now snaps a clock w1) as (_ & new & Hnew & _) end.
    eexists. rewrite Hnew. split.
    + apply in_app_iff. left. apply in_app_iff. right. by left.
    + done.
  - destruct (StallTracker.lastChanged (World.tracker w) !! keyOf x) as [c'|] eqn:Ec.
    + cbv zeta. destruct (Num.ge _ thr); cbn [fst snd]; by apply IH.
    + by apply IH.
Qed.

Lemma detectStalls_run (toISOString : Z → string) (snaps : list OrdinalSnapshot.t)
    (thr : Z) (clock : Clock.t) (w : World.t) :
  ∃ calls r',
    detectStalls toISOString snaps thr clock w
    = foldM (pushIfStalled thr (toISOString (clock (World.reads w)))) snaps [] clock
        (World.mk (updates (World.tracker w) calls).1 r')
    ∧ map fst calls = snaps
    ∧ (∀ s t, In (s, t) calls → ∃ i, t = clock i).
Proof.
  destruct (updateAll_run snaps clock (World.mk (World.tracker w) (S (World.reads w))))
    as (calls & r' & Hrun & Hmap & Htimes).
  exists calls, r'. split; [|done].
  unfold detectStalls, nowISO, dateNow. unfold mbind, M_bind, mret, M_ret.
  unfold mbind, M_bind, mret, M_ret in Hrun. by rewrite Hrun.
Qed.

(** X10.  A snapshot that raises the ordinal the tracker holds is not reported
    in the same call, provided the call reads the clock within less than
    the threshold; on a tracker that has not seen any of the snapshots'
    nodes the call reports nothing. *)
Theorem detectStalls_advancing_not_reported (toISOString : Z → string)
    (snapshots : list OrdinalSnapshot.t) (thresholdSec : Z)
    (clock : Clock.t) (w : World.t) :
  (∀ i j, clock j - clock i < 1000 * thresholdSec)%Z →
  let events := (detectStalls toISOString snapshots thresholdSec clock w).1 in
  (∀ snap e, In snap snapshots → advances (World.tracker w) snap →
     In e events →
     ¬ eventFor (OrdinalSnapshot.nodeId snap) (OrdinalSnapshot.layer snap) e)
  ∧ ((∀ snap, In snap snapshots → advances (World.tracker w) snap) →
     events = []).
Proof.
  intros Hspread events.
  destruct (detectStalls_run toISOString snapshots thresholdSec clock w)
    as (calls & r' & Hrun & Hmap & Htimes).
  subst events. rewrite Hrun.
  match goal with |- context [foldM ?f snapshots [] clock ?w1] =>
    destruct (reportLoop_sound thresholdSec (toISOString (clock (World.reads w)))
                snapshots [] clock w1) as (_ & new & Hnew & Hall) end.
  rewrite Hnew. simpl.
  assert (Hno : ∀ snap e, In snap snapshots → advances (World.tracker w) snap →
                 In e new →
                 ¬ eventFor (OrdinalSnapshot.nodeId snap) (OrdinalSnapshot.layer snap) e).
  { intros snap e Hsnap Hadv He [Hids Hlayer].
    destruct (Hall e He) as (snap' & c & j & Hsnap' & [Hids' Hlayer'] & _ & _ & _ & Hc & Hold).
    assert (Hk : keyOf snap' = keyOf snap).
    { unfold keyOf. rewrite Hids' in Hids. injection Hids as ->. congruence. }
    simpl in Hc. rewrite Hk in Hc.
    destruct (updates_lastChanged_advances (fun t => ∃ i, t = clock i) calls
                (World.tracker w) snap) as (c' & Hc' & i & ->);
      [done|by rewrite Hmap|done|].
    rewrite Hc' in Hc. injection Hc as <-.
    specialize (Hspread i j). lia. }
  split; [done|].
  intros Hevery. destruct new as [|e new']; [done|]. exfalso.
  destruct (Hall e (or_introl eq_refl)) as (snap' & c & j & Hsnap' & Hfor & _).
  apply (Hno snap' e Hsnap' (Hevery _ Hsnap') (or_introl eq_refl) Hfor).
Qed.

Lemma detectStalls_advancing_not_reported_witness :
  (∀ i j, Cases.atNoon j - Cases.atNoon i < 1000 * 240)%Z
  ∧ (Stall.detectStalls Cases.toISOString [Scenario.ordinalAt 100] 240
       Cases.atNoon Cases.fresh).1 = [].
Proof.
  assert (Hspread : (∀ i j, Cases.atNoon j - Cases.atNoon i < 1000 * 240)%Z).
  { intros i j. unfold Cases.atNoon. lia. }
  split; [exact Hspread|].
  destruct (detectStalls_advancing_not_reported Cases.toISOString
              [Scenario.ordinalAt 100] 240 Cases.atNoon Cases.fresh Hspread)
    as [_ Hnone].
  apply Hnone. intros snap [<-|[]]. vm_compute. exact I.
Defined.

(** X11.  A node whose ordinal has not risen is reported, whatever the other
    snapshots of the call do, when every reading of the call is at least
    the threshold after the time the tracker holds for it. *)
Theorem detectStalls_stalled_reported (toISOString : Z → string)
    (snapshots : list OrdinalSnapshot.t) (thresholdSec : Z)
    (clock : Clock.t) (w : World.t) (snap : OrdinalSnapshot.t) (p c : Z) :
  In snap snapshots →
  StallTracker.lastOrdinal (World.tracker w) !! keyOf snap = Some p →
  StallTracker.lastChanged (World.tracker w) !! keyOf snap = Some c →
  (∀ s, In s snapshots → keyOf s = keyOf snap → OrdinalSnapshot.ordinal s ≤ p)%Z →
  (∀ i, 1000 * thresholdSec ≤ clock i - c)%Z →
  let out := detectStalls toISOString snapshots thresholdSec clock w in
  (∃ e, In e out.1
        ∧ eventFor (OrdinalSnapshot.nodeId snap) (OrdinalSnapshot.layer snap) e
        ∧ HealthEvent.condition e = SNAPSHOT_STALL
        ∧ HealthEvent.suggestedAction e = Some FullMetagraph)
  ∧ StallTracker.lastOrdinal (World.tracker out.2) !! keyOf snap = Some p
  ∧ StallTracker.lastChanged (World.tracker out.2) !! keyOf snap = Some c.
Proof.
  intros Hsnap Hp Hc Hle Hold out.
  destruct (detectStalls_run toISOString snapshots thresholdSec clock w)
    as (calls & r' & Hrun & Hmap & Htimes).
  subst out. rewrite Hrun.
  destruct (updates_stalled_key calls (World.tracker w) (keyOf snap) p Hp) as [Hp' Hc'].
  { intros s t Hin Hk. apply Hle; [|done]. rewrite <- Hmap.
    apply in_map_iff. by exists (s, t). }
  rewrite Hc in Hc'.
  match goal with |- context [foldM ?f snapshots [] clock ?w1] =>
    destruct (reportLoop_sound thresholdSec (toISOString (clock (World.reads w)))
                snapshots [] clock w1) as (Htr & _);
    pose proof (reportLoop_complete thresholdSec (toISOString (clock (World.reads w)))
                snapshots [] clock w1 snap c Hsnap Hc' Hold) as Hev end.
  split; [done|]. rewrite Htr. done.
Qed.

Lemma detectStalls_stalled_reported_witness :
  let snap := Scenario.ordinalAt 100 in
  In snap [snap]
  ∧ StallTracker.lastOrdinal (Stall.World.tracker Cases.seen) !! keyOf snap = Some 100%Z
  ∧ StallTracker.lastChanged (Stall.World.tracker Cases.seen) !! keyOf snap
    = Some Scenario.noon
  ∧ (∀ i, 1000 * 240 ≤ Cases.fivePast i - Scenario.noon)%Z
  ∧ ∃ e, In e (Stall.detectStalls Cases.toISOString [snap] 240
                 Cases.fivePast Cases.seen).1
         ∧ eventFor "n1" ML0 e
         ∧ HealthEvent.suggestedAction e = Some FullMetagraph.
Proof.
  assert (Hin : In (Scenario.ordinalAt 100) [Scenario.ordinalAt 100])
    by (left; reflexivity).
  assert (Hp : StallTracker.lastOrdinal (Stall.World.tracker Cases.seen)
               !! keyOf (Scenario.ordinalAt 100) = Some 100%Z)
    by (vm_compute; reflexivity).
  assert (Hc : StallTracker.lastChanged (Stall.World.tracker Cases.seen)
               !! keyOf (Scenario.ordinalAt 100) = Some Scenario.noon)
    by (vm_compute; reflexivity).
  assert (Hold : (∀ i, 1000 * 240 ≤ Cases.fivePast i - Scenario.noon)%Z).
  { intros i. unfold Cases.fivePast. lia. }
  destruct (detectStalls_stalled_reported Cases.toISOString [Scenario.ordinalAt 100]
              240 Cases.fivePast Cases.seen (Scenario.ordinalAt 100) 100 Scenario.noon
              Hin Hp Hc) as ((e & He & Hfor & _ & Hact) & _); [|exact Hold|].
  { intros s [<-|[]] _. simpl. lia. }
  split; [exact Hin|]. split; [exact Hp|]. split; [exact Hc|]. split; [exact Hold|].
  exists e. split; [exact He|]. split; [exact Hfor|exact Hact].
Defined.

(** X12.  After the call the tracker holds, for every snapshot, at least the
    snapshot's ordinal, and it has lowered no ordinal. *)
Theorem detectStalls_records_snapshots (toISOString : Z → string)
    (snapshots : list OrdinalSnapshot.t) (thresholdSec : Z)
    (clock : Clock.t) (w : World.t) :
  let after := World.tracker (detectStalls toISOString snapshots thresholdSec clock w).2 in
  (∀ snap, In snap snapshots →
     ∃ b, StallTracker.lastOrdinal after !! keyOf snap = Some b
          ∧ (OrdinalSnapshot.ordinal snap ≤ b)%Z)
  ∧ (∀ k a, StallTracker.lastOrdinal (World.tracker w) !! k = Some a →
       ∃ b, StallTracker.lastOrdinal after !! k = Some b ∧ (a ≤ b)%Z)
  ∧ (sameKeys (World.tracker w) → sameKeys after).
Proof.
  intros after.
  destruct (detectStalls_run toISOString snapshots thresholdSec clock w)
    as (calls & r' & Hrun & Hmap & Htimes).
  subst after. rewrite Hrun.
  match goal with |- context [foldM ?f snapshots [] clock ?w1] =>
    destruct (reportLoop_sound thresholdSec (toISOString (clock (World.reads w)))
                snapshots [] clock w1) as (Htr & _) end.
  rewrite Htr. simpl. split_and!.
  - intros snap Hsnap. rewrite <- Hmap in Hsnap.
    apply in_map_iff in Hsnap as ([s t] & <- & Hin).
    apply (updates_reported_le calls (World.tracker w) s t Hin).
  - intros k a Ha. apply (updates_lastOrdinal_mono calls _ _ _ Ha).
  - apply updates_sameKeys.
Qed.

Lemma isStalled_run (layer : LayerName) (thr : Z) (n : NodeInfo.t)
    (clock : Clock.t) (w : World.t) :
  isStalled layer thr n clock w
  = match StallTracker.lastChanged (World.tracker w)
          !! StallTracker.key (NodeInfo.nodeId n) (LayerName_str layer) with
    | None => (false, w)
    | Some c => (Num.ge (Num.div1000 (clock (World.reads w) - c)) thr,
                 World.mk (World.tracker w) (S (World.reads w)))
    end.
Proof.
  unfold isStalled. unfold mbind, M_bind. rewrite staleSecs_run.
  by destruct (_ !! _).
Qed.

Lemma filterM_cons {A : Type} (p : A → M bool) (x : A) (l : list A)
    (clock : Clock.t) (w : World.t) :
  filterM p (x :: l) clock w
  = let keep := (p x clock w).1 in
    let out := filterM p l clock (p x clock w).2 in
    (if keep then x :: out.1 else out.1, out.2).
Proof.
  cbn [filterM]. unfold mbind, M_bind, mret, M_ret.
  destruct (p x clock w) as [keep w1]. simpl.
  by destruct (filterM p l clock w1).
Qed.

(** The filter keeps the nodes in order and does not touch the tracker;
    it keeps all of them only if each was found stale at its reading. *)
Lemma stalledNodes_sound (layer : LayerName) (thr : Z) (nodes : list NodeInfo.t)
    (clock : Clock.t) (w : World.t) :
  let out := filterM (isStalled layer thr) nodes clock w in
  World.tracker out.2 = World.tracker w
  ∧ (World.reads w ≤ World.reads out.2)%nat
  ∧ (length out.1 ≤ length nodes)%nat
  ∧ (length out.1 = length nodes →
     out.1 = nodes
     ∧ ∀ n, In n nodes →
         ∃ c j, StallTracker.lastChanged (World.tracker w)
                  !! StallTracker.key (NodeInfo.nodeId n) (LayerName_str layer) = Some c
                ∧ (World.reads w ≤ j < World.reads out.2)%nat
                ∧ (1000 * thr ≤ clock j - c)%Z).
Proof.
  revert w. induction nodes as [|x nodes IH]; intros w out.
  - subst out. simpl. split_and!; done.
  - subst out. rewrite filterM_cons, isStalled_run. cbv zeta.
    destruct (StallTracker.lastChanged (World.tracker w) !! _) as [c|] eqn:Ec; cbn [fst snd].
    + match goal with |- context [filterM _ nodes clock ?w1] =>
        destruct (IH w1) as (Htr & Hr & Hlen & Hall) end.
      cbn [World.tracker World.reads] in Htr, Hr, Hall.
      destruct (Num.ge _ thr) eqn:Ege.
      * split_and!; [done|lia|simpl; lia|].
        cbn [length]. intros Hl. destruct Hall as [Heq Hn]; [lia|].
        split; [by rewrite Heq|].
        intros n [<-|Hin].
        -- exists c, (World.reads w). apply ge_div1000 in Ege.
           split_and!; [done|lia|lia|done].
        -- destruct (Hn n Hin) as (c' & j & ? & ? & ?).
           exists c', j. split_and!; [done|lia|lia|done].
      * split_and!; [done|lia|simpl; lia|]. cbn [length]. lia.
    + destruct (IH w) as (Htr & Hr & Hlen & Hall).
      split_and!; [done|done|simpl; lia|]. cbn [length]. lia.
Qed.

Lemma stalledNodes_complete (layer : LayerName) (thr : Z) (nodes : list NodeInfo.t)
    (clock : Clock.t) (w : World.t) :
  (∀ n, In n nodes →
     ∃ c, StallTracker.lastChanged (World.tracker w)
            !! StallTracker.key (NodeInfo.nodeId n) (LayerName_str layer) = Some c
          ∧ ∀ i, (1000 * thr ≤ clock i - c)%Z) →
  (filterM (isStalled layer thr) nodes clock w).1 = nodes.
Proof.
  revert w. induction nodes as [|x nodes IH]; intros w Hall; [done|].
  rewrite filterM_cons, isStalled_run. cbv zeta.
  destruct (Hall x (or_introl eq_refl)) as (c & -> & Hold). cbn [fst snd].
  rewrite (proj2 (ge_div1000 _ _) (Hold _)). f_equal.
  apply IH. intros n Hn. apply Hall. by right.
Qed.

Lemma detectClusterStall_run (toISOString : Z → string) (layer : LayerName)
    (nodes : list NodeInfo.t) (thr : Z) (clock : Clock.t) (w : World.t) :
  let now := toISOString (clock (World.reads w)) in
  let w0 := World.mk (World.tracker w) (S (World.reads w)) in
  let stalled := filterM (isStalled layer thr) nodes clock w0 in
  detectClusterStall toISOString layer nodes thr clock w
  = if (length stalled.1 =? length nodes)%nat && (0 <? length nodes)%nat
    then match stalled.1 with
         | sample :: _ =>
             let lastOrd :=
               default 0%Z (StallTracker.lastOrdinalFor (World.tracker stalled.2)
                              (NodeInfo.nodeId sample) (LayerName_str layer)) in
             let secs := staleSecs (NodeInfo.nodeId sample) (LayerName_str layer)
                           clock stalled.2 in
             (Some (clusterStallEvent layer stalled.1 lastOrd
                      (default (Num.div1000 0) secs.1) now), secs.2)
         | [] => (None, stalled.2)
         end
    else (None, stalled.2).
Proof.
  intros now w0 stalled. subst now w0 stalled.
  unfold detectClusterStall, nowISO, dateNow, getTracker, mbind, M_bind, mret, M_ret.
  lazy beta iota zeta.
  destruct (filterM _ nodes clock _) as [st w1]. cbn [fst snd].
  destruct (_ && _); [|done]. destruct st as [|sample st]; [done|].
  by destruct (staleSecs _ _ clock w1).
Qed.

(** X13.  An event of [detectClusterStall] lists every node of a list that is
    not empty, and each node was found at least the threshold after its
    last change at one of the call's readings; a node the tracker has
    never seen, or an empty list, gives no event.  The tracker is left as
    it is. *)
Theorem detectClusterStall_event (toISOString : Z → string) (layer : LayerName)
    (nodes : list NodeInfo.t) (thresholdSec : Z) (clock : Clock.t) (w : World.t) :
  let out := detectClusterStall toISOString layer nodes thresholdSec clock w in
  World.tracker out.2 = World.tracker w
  ∧ ∀ e, out.1 = Some e →
      nodes ≠ []
      ∧ HealthEvent.condition e = SNAPSHOT_STALL
      ∧ HealthEvent.layer e = layer
      ∧ HealthEvent.nodeIds e = map NodeInfo.nodeId nodes
      ∧ HealthEvent.suggestedAction e = Some FullMetagraph
      ∧ HealthEvent.timestamp e = toISOString (clock (World.reads w))
      ∧ ∀ n, In n nodes →
          ∃ c j, StallTracker.lastChanged (World.tracker w)
                   !! StallTracker.key (NodeInfo.nodeId n) (LayerName_str layer) = Some c
                 ∧ (World.reads w < j < World.reads out.2)%nat
                 ∧ (1000 * thresholdSec ≤ clock j - c)%Z.
Proof.
  intros out. subst out. rewrite detectClusterStall_run. cbv zeta.
  match goal with |- context [filterM _ nodes clock ?w0] =>
    destruct (stalledNodes_sound layer thresholdSec nodes clock w0)
      as (Htr & Hr & Hlen & Hall) end.
  cbn [World.tracker World.reads] in Htr, Hr, Hall.
  destruct (filterM _ nodes clock _) as [st w1] eqn:Ef. cbn [fst snd] in *.
  destruct ((length st =? length nodes)%nat && (0 <? length nodes)%nat) eqn:Eb;
    [|by split].
  apply andb_prop in Eb as [E1 E2]. apply Nat.eqb_eq in E1. apply Nat.ltb_lt in E2.
  destruct (Hall E1) as [-> Hn].
  destruct nodes as [|sample rest]; [simpl in E2; lia|].
  rewrite staleSecs_run.
  destruct (StallTracker.lastChanged (World.tracker w1) !! _) as [c|] eqn:Ec; cbn [fst snd].
  all: split; [done|]; intros e [= <-]; split_and!; try done.
  all: intros n Hin; destruct (Hn n Hin) as (c' & j & ? & ? & ?).
  all: exists c', j; cbn [World.reads]; split_and!; [done|lia|lia|done].
Qed.

(** X14.  When the tracker has seen every node of a list that is not empty, and
    every reading of the call is at least the threshold after each node's
    last change, [detectClusterStall] gives the event for all the
    nodes. *)
Theorem detectClusterStall_all_stalled (toISOString : Z → string) (layer : LayerName)
    (nodes : list NodeInfo.t) (thresholdSec : Z) (clock : Clock.t) (w : World.t) :
  nodes ≠ [] →
  (∀ n, In n nodes →
     ∃ c, StallTracker.lastChanged (World.tracker w)
            !! StallTracker.key (NodeInfo.nodeId n) (LayerName_str layer) = Some c
          ∧ ∀ i, (1000 * thresholdSec ≤ clock i - c)%Z) →
  ∃ e, (detectClusterStall toISOString layer nodes thresholdSec clock w).1 = Some e
       ∧ HealthEvent.nodeIds e = map NodeInfo.nodeId nodes
       ∧ HealthEvent.layer e = layer
       ∧ HealthEvent.suggestedAction e = Some FullMetagraph.
Proof.
  intros Hne Hall. rewrite detectClusterStall_run. cbv zeta.
  match goal with |- context [filterM _ nodes clock ?w0] =>
    pose proof (stalledNodes_complete layer thresholdSec nodes clock w0 Hall) as Hst end.
  rewrite Hst. rewrite Nat.eqb_refl.
  destruct nodes as [|sample rest]; [done|]. cbn [andb length Nat.ltb Nat.leb].
  eexists. cbn [fst]. split; [reflexivity|]. done.
Qed.

Lemma detectClusterStall_all_stalled_witness :
  [Cases.n1] ≠ []
  ∧ (∀ i, 1000 * 240 ≤ Cases.fivePast i - Scenario.noon)%Z
  ∧ ∃ e, (Stall.detectClusterStall Cases.toISOString ML0 [Cases.n1] 240
            Cases.fivePast Cases.seen).1 = Some e
         ∧ HealthEvent.nodeIds e = ["n1"].
Proof.
  assert (Hne : [Cases.n1] ≠ []) by discriminate.
  assert (Hold : (∀ i, 1000 * 240 ≤ Cases.fivePast i - Scenario.noon)%Z).
  { intros i. unfold Cases.fivePast. lia. }
  destruct (detectClusterStall_all_stalled Cases.toISOString ML0 [Cases.n1] 240
              Cases.fivePast Cases.seen Hne) as (e & He & Hids & _).
  { intros n [<-|[]]. exists Scenario.noon. split; [vm_compute; reflexivity|exact Hold]. }
  split; [exact Hne|]. split; [exact Hold|].
  exists e. split; [exact He|]. rewrite Hids. reflexivity.
Defined.

Lemma updates_unseen (calls : list (OrdinalSnapshot.t * Z)) (this : StallTracker.t)
    (k : string) :
  (∀ s t, In (s, t) calls → keyOf s ≠ k) →
  StallTracker.lastOrdinal (updates this calls).1 !! k
  = StallTracker.lastOrdinal this !! k.
Proof.
  revert this. induction calls as [|[s0 t0] calls IH]; intros this Hno; [done|].
  rewrite updates_fst_cons, IH by (intros ?? ?; eapply Hno; by right).
  destruct (update_cases this s0 t0) as [[-> _]|[-> _]]; [|done].
  simpl. rewrite lookup_insert_ne; [done|]. apply (Hno s0 t0). by left.
Qed.

(** X15.  On a tracker that was reset, [staleSecs] answers [null] for a node
    and layer exactly as long as no update was made for them; it never
    touches the tracker. *)
Theorem staleSecs_null_iff (this0 : StallTracker.t)
    (calls : list (OrdinalSnapshot.t * Z)) (nodeId : string) (layer : LayerName)
    (clock : Clock.t) (reads : nat) :
  let this := (updates (StallTracker.reset this0) calls).1 in
  let out := staleSecs nodeId (LayerName_str layer) clock (World.mk this reads) in
  World.tracker out.2 = this
  ∧ (out.1 = None
     ↔ ∀ snap now, In (snap, now) calls →
         (OrdinalSnapshot.nodeId snap, OrdinalSnapshot.layer snap) ≠ (nodeId, layer)).
Proof.
  intros this out. subst out. rewrite staleSecs_run. cbn [World.tracker World.reads].
  assert (Hsame : sameKeys this).
  { apply updates_sameKeys. intros k. simpl. by rewrite !lookup_empty. }
  set (k := StallTracker.key nodeId (LayerName_str layer)).
  specialize (Hsame k).
  split; [by destruct (StallTracker.lastChanged this !! k)|].
  assert (Hiff : StallTracker.lastChanged this !! k = None
                 ↔ ∀ snap now, In (snap, now) calls →
                     (OrdinalSnapshot.nodeId snap, OrdinalSnapshot.layer snap) ≠ (nodeId, layer)).
  { rewrite <- Hsame. split.
    - intros Hnone snap now Hin [= <- <-].
      destruct (updates_reported_le calls (StallTracker.reset this0) snap now Hin)
        as (b & Hb & _).
      fold this in Hb. unfold keyOf in Hb. fold k in Hb. by rewrite Hnone in Hb.
    - intros Hno. unfold this. rewrite updates_unseen; [done|].
      intros s t Hin Hk. apply key_inj in Hk as [H1 H2].
      apply (Hno s t Hin). by rewrite H1, H2. }
  rewrite <- Hiff. by destruct (StallTracker.lastChanged this !! k).
Qed.
End Stall_clock.

(** ** The restart procedures (restart.ts) *)

Section Restart_procedures.
Import Restart.

Section restart_facts.
Variable ssh : Log → Call → Js.Settled unit.

Lemma succeeded_app (log a b : Log) :
  succeeded ssh log (a ++ b) = succeeded ssh log a && succeeded ssh (log ++ a) b.
Proof.
  revert log. induction a as [|e a IH]; intros log.
  - simpl. by rewrite app_nil_r.
  - simpl. rewrite IH, <- app_assoc. simpl. by rewrite andb_assoc.
Qed.

Lemma failsFast_ret : failsFast ssh (mret tt).
Proof. intros log. exists []. simpl. by rewrite app_nil_r. Qed.

Lemma failsFast_call (c : Call) : failsFast ssh (call ssh c).
Proof.
  intros log. exists [Ssh c]. unfold call. simpl. split; [done|].
  destruct (ssh log c) as [[]|err] eqn:E; simpl.
  - by rewrite E.
  - exists [], c, []. rewrite app_nil_r. by split_and!.
Qed.

Lemma failsFast_sleep (ms : Z) : failsFast ssh (sleep ms).
Proof. intros log. by exists [Sleep ms]. Qed.

Lemma all_log (cs : list Call) (log : Log) :
  (all ssh cs log).1 = log ++ map Ssh cs.
Proof.
  revert log. induction cs as [|c cs IH]; intros log; simpl.
  - by rewrite app_nil_r.
  - specialize (IH (log ++ [Ssh c])).
    destruct (all ssh cs (log ++ [Ssh c])) as [log' rs]. simpl in *.
    by rewrite IH, <- app_assoc.
Qed.

Lemma failsFast_all (cs : list Call) :
  forallb (fun c => isStop (Ssh c)) cs = true → failsFast ssh (all ssh cs).
Proof.
  intros Hstops log. exists (map Ssh cs). split; [apply all_log|].
  revert log. induction cs as [|c cs IH]; intros log; [done|].
  simpl in Hstops. apply andb_prop in Hstops as [Hc Hcs].
  specialize (IH Hcs (log ++ [Ssh c])). simpl.
  destruct (all ssh cs (log ++ [Ssh c])) as [log' rs]. simpl in *.
  destruct (ssh log c) as [[]|err] eqn:E.
  - destruct rs as [[]|err]; simpl in *.
    + by rewrite E.
    + destruct IH as (pre & c' & post & Hsplit & Hpre & Hc' & Hpost & Hres).
      exists (Ssh c :: pre), c', post. rewrite Hsplit. split_and!; try done.
      * simpl. by rewrite E.
      * rewrite <- Hc'. by rewrite <- app_assoc.
  - simpl. exists [], c, (map Ssh cs). rewrite app_nil_r. split_and!; try done.
    + rewrite forallb_forall. intros e He. apply in_map_iff in He as (c' & <- & Hc').
      rewrite forallb_forall in Hcs. by apply Hcs.
    + intros Hr. by destruct c.
Qed.

Lemma failsFast_bind (m k : Async unit) :
  failsFast ssh m → failsFast ssh k → failsFast ssh (m ;; k).
Proof.
  intros Hm Hk log. destruct (Hm log) as (a1 & Hlog1 & Hend1).
  unfold mbind, Async_bind.
  destruct (m log) as [log1 [[]|err]]; simpl in *.
  - subst log1. destruct (Hk (log ++ a1)) as (a2 & Hlog2 & Hend2).
    exists (a1 ++ a2). rewrite Hlog2, <- app_assoc. split; [done|].
    destruct ((k (log ++ a1)).2) as [[]|err]; simpl in *.
    + by rewrite succeeded_app, Hend1, Hend2.
    + destruct Hend2 as (pre & c & post & Hsplit & Hpre & Hc & Hpost & Hres).
      exists (a1 ++ pre), c, post. rewrite Hsplit, <- app_assoc.
      split_and!; try done.
      * by rewrite succeeded_app, Hend1, Hpre.
      * by rewrite app_assoc.
  - by exists a1.
Qed.

Lemma failsFast_forEach {A : Type} (l : list A) (body : A → Async unit) :
  (∀ x, failsFast ssh (body x)) → failsFast ssh (forEach l body).
Proof.
  intros Hbody. induction l as [|x l IH]; [apply failsFast_ret|].
  cbn [forEach]. by apply failsFast_bind.
Qed.

Lemma stopsOf_stops (nodes : list NodeInfo.t) (layer : LayerName) :
  forallb (fun c => isStop (Ssh c)) (map (fun n => stopLayerOnNode n layer) nodes) = true.
Proof. by induction nodes. Qed.

Lemma failsFast_restartFullLayer (nodes : list NodeInfo.t) (layer : LayerName) :
  failsFast ssh (restartFullLayer ssh nodes layer).
Proof.
  unfold restartFullLayer.
  repeat first [ apply failsFast_bind | apply failsFast_forEach; intros ?
               | apply failsFast_call | apply failsFast_sleep
               | apply failsFast_all, stopsOf_stops
               | apply failsFast_ret | progress cbv zeta ].
Qed.

Lemma failsFast_restartFullMetagraph (nodes : list NodeInfo.t) :
  failsFast ssh (restartFullMetagraph ssh nodes).
Proof.
  unfold restartFullMetagraph.
  repeat first [ apply failsFast_bind | apply failsFast_forEach; intros ?
               | apply failsFast_call | apply failsFast_sleep
               | apply failsFast_all, stopsOf_stops
               | apply failsFast_ret | progress cbv zeta ].
Qed.

(** X16.  A restart plan ends at the first call of [ssh.ts] that rejects:
    nothing is started after a rejected call, and after a rejected start
    nothing is done at all; only the stops that were sent together with a
    rejected stop are still in the log.  A plan that resolves has made
    only calls that resolved. *)
Theorem executeRestartPlan_fails_fast (plan : RestartPlan.t)
    (nodes : list NodeInfo.t) (log : Log) :
  let out := executeRestartPlan ssh plan nodes log in
  ∃ added, out.1 = log ++ added ∧ endedAt ssh log added out.2.
Proof.
  intros out. subst out. revert log.
  change (failsFast ssh (executeRestartPlan ssh plan nodes)).
  unfold executeRestartPlan. destruct (RestartPlan.group plan).
  - apply failsFast_forEach. intros node. unfold restartIndividualNode.
    apply failsFast_bind; [apply failsFast_call|apply failsFast_sleep].
  - apply failsFast_restartFullLayer.
  - apply failsFast_restartFullMetagraph.
Qed.

(** *** The log of a procedure that resolves *)

Lemma logs_ret : logsWhenResolved (mret tt) [].
Proof. intros log log' [= <-]. by rewrite app_nil_r. Qed.

Lemma logs_call (c : Call) : logsWhenResolved (call ssh c) [Ssh c].
Proof. intros log log' [= <- _]. done. Qed.

Lemma logs_sleep (ms : Z) : logsWhenResolved (sleep ms) [Sleep ms].
Proof. intros log log' [= <-]. done. Qed.

Lemma logs_all (cs : list Call) : logsWhenResolved (all ssh cs) (map Ssh cs).
Proof.
  intros log log' Heq. rewrite <- all_log. by rewrite Heq.
Qed.

Lemma logs_bind (m k : Async unit) (e1 e2 : Log) :
  logsWhenResolved m e1 → logsWhenResolved k e2 →
  logsWhenResolved (m ;; k) (e1 ++ e2).
Proof.
  intros Hm Hk log log'. unfold mbind, Async_bind.
  destruct (m log) as [log1 [[]|err]] eqn:E; [|done].
  intros Hk'. rewrite (Hk _ _ Hk'), (Hm _ _ E). by rewrite app_assoc.
Qed.

Lemma logs_forEach {A : Type} (l : list A) (body : A → Async unit) (g : A → Log) :
  (∀ x, logsWhenResolved (body x) (g x)) →
  logsWhenResolved (forEach l body) (flat_map g l).
Proof.
  intros Hbody. induction l as [|x l IH]; [apply logs_ret|].
  cbn [forEach flat_map]. by apply logs_bind.
Qed.
End restart_facts.

Lemma callsOf_app (a b : Log) : callsOf (a ++ b) = callsOf a ++ callsOf b.
Proof. unfold callsOf. by rewrite flat_map_app. Qed.

Lemma callsOf_Ssh (cs : list Call) : callsOf (map Ssh cs) = cs.
Proof. induction cs as [|c cs IH]; [done|]. simpl. by rewrite IH. Qed.

Lemma sleptMs_app (a b : Log) : sleptMs (a ++ b) = (sleptMs a + sleptMs b)%Z.
Proof.
  induction a as [|e a IH]; [done|]. simpl. destruct e; rewrite IH; lia.
Qed.

Lemma sleptMs_Ssh (cs : list Call) : sleptMs (map Ssh cs) = 0%Z.
Proof. by induction cs. Qed.

(** The events of the loop over the joiners. *)
Lemma joiners_log (joiners : list NodeInfo.t) (layer : LayerName) (seed : option string) :
  let evs := flat_map (fun joiner =>
               [Ssh (restartLayerOnNode (Some joiner) layer seed); Sleep 10000]) joiners in
  callsOf evs = map (fun joiner => restartLayerOnNode (Some joiner) layer seed) joiners
  ∧ sleptMs evs = (10000 * Z.of_nat (length joiners))%Z.
Proof.
  induction joiners as [|j joiners [IH1 IH2]]; [done|]. split.
  - simpl. f_equal. apply IH1.
  - cbn [flat_map app sleptMs foldr length]. fold (sleptMs (flat_map (fun joiner =>
       [Ssh (restartLayerOnNode (Some joiner) layer seed); Sleep 10000]) joiners)).
    rewrite IH2. lia.
Qed.

Lemma logs_restartFullLayer (ssh : Log → Call → Js.Settled unit)
    (nodes : list NodeInfo.t) (layer : LayerName) :
  logsWhenResolved (restartFullLayer ssh nodes layer)
    (map Ssh (stopsOf nodes layer) ++ [Sleep 5000]
     ++ [Ssh (restartLayerOnNode (head nodes) layer None)] ++ [Sleep 30000]
     ++ flat_map (fun joiner =>
          [Ssh (restartLayerOnNode (Some joiner) layer (NodeInfo.host <$> head nodes));
           Sleep 10000]) (tail nodes)).
Proof.
  unfold restartFullLayer.
  apply logs_bind; [apply logs_all|].
  apply logs_bind; [apply logs_sleep|]. cbv zeta.
  apply logs_bind; [apply logs_call|].
  apply logs_bind; [apply logs_sleep|].
  apply logs_forEach. intros joiner.
  apply (logs_bind _ _ [_] [_]); [apply logs_call|apply logs_sleep].
Qed.

(** X17.  A full layer restart that resolves has stopped every node before it
    started any; it has started the first node without seed and then the
    others, in order, with the first node's host as seed, and it has
    waited 35 s and 10 s more for every node after the first. *)
Theorem restartFullLayer_resolved (ssh : Log → Call → Js.Settled unit)
    (nodes : list NodeInfo.t) (layer : LayerName) (log log' : Log) :
  restartFullLayer ssh nodes layer log = (log', Js.Resolved tt) →
  ∃ stops starts,
    log' = log ++ stops ++ starts
    ∧ callsOf stops = stopsOf nodes layer
    ∧ callsOf starts = startsOf nodes layer
    ∧ sleptMs (stops ++ starts)
      = (35000 + 10000 * Z.of_nat (length (tail nodes)))%Z.
Proof.
  intros Hrun. rewrite (logs_restartFullLayer ssh nodes layer _ _ Hrun).
  destruct (joiners_log (tail nodes) layer (NodeInfo.host <$> head nodes)) as [Hc Hs].
  eexists (map Ssh (stopsOf nodes layer) ++ [Sleep 5000]), _.
  split; [by rewrite <- app_assoc|].
  split_and!.
  - rewrite callsOf_app, callsOf_Ssh. simpl. by rewrite app_nil_r.
  - rewrite !callsOf_app, Hc. done.
  - rewrite !sleptMs_app, sleptMs_Ssh, Hs. simpl. lia.
Qed.

Lemma restartFullLayer_resolved_witness :
  let log' := (Restart.restartFullLayer Cases.reliable Cases.nodes2 ML0 []).1 in
  Restart.restartFullLayer Cases.reliable Cases.nodes2 ML0 [] = (log', Js.Resolved tt)
  ∧ ∃ stops starts,
      log' = [] ++ stops ++ starts
      ∧ callsOf stops = stopsOf Cases.nodes2 ML0
      ∧ callsOf starts = startsOf Cases.nodes2 ML0
      ∧ sleptMs (stops ++ starts) = 45000%Z.
Proof.
  assert (Hrun : Restart.restartFullLayer Cases.reliable Cases.nodes2 ML0 []
                 = ((Restart.restartFullLayer Cases.reliable Cases.nodes2 ML0 []).1,
                    Js.Resolved tt))
    by reflexivity.
  destruct (restartFullLayer_resolved Cases.reliable Cases.nodes2 ML0 [] _ Hrun)
    as (stops & starts & Hlog & Hstops & Hstarts & Hslept).
  split; [exact Hrun|].
  exists stops, starts. split; [exact Hlog|]. split; [exact Hstops|].
  split; [exact Hstarts|]. rewrite Hslept. reflexivity.
Defined.

Lemma logs_restartFullMetagraph (ssh : Log → Call → Js.Settled unit)
    (nodes : list NodeInfo.t) :
  logsWhenResolved (restartFullMetagraph ssh nodes)
    (flat_map (fun layer => map Ssh (stopsOf nodes layer) ++ [Sleep 3000]) layerOrder
     ++ flat_map (fun layer =>
          [Ssh (restartLayerOnNode (head nodes) layer None)] ++ [Sleep 30000]
          ++ flat_map (fun joiner =>
               [Ssh (restartLayerOnNode (Some joiner) layer (NodeInfo.host <$> head nodes));
                Sleep 10000]) (tail nodes)
          ++ [Sleep 20000]) startOrder).
Proof.
  unfold restartFullMetagraph.
  apply logs_bind.
  - apply logs_forEach. intros layer.
    apply logs_bind; [apply logs_all|apply logs_sleep].
  - cbv zeta. apply logs_forEach. intros layer.
    apply logs_bind; [apply logs_call|].
    apply logs_bind; [apply logs_sleep|].
    apply logs_bind; [|apply logs_sleep].
    apply logs_forEach. intros joiner.
    apply (logs_bind _ _ [_] [_]); [apply logs_call|apply logs_sleep].
Qed.

(** X18.  A full metagraph restart that resolves has stopped every layer on
    every node, in the order DL1, CL1, GL0, ML0, before it started any;
    it has then started the layers in the order ML0, GL0, CL1, DL1, each
    on the first node without seed and then on the others with the first
    node's host as seed; and it has waited 212 s and 40 s more for every
    node after the first. *)
Theorem restartFullMetagraph_resolved (ssh : Log → Call → Js.Settled unit)
    (nodes : list NodeInfo.t) (log log' : Log) :
  restartFullMetagraph ssh nodes log = (log', Js.Resolved tt) →
  ∃ stops starts,
    log' = log ++ stops ++ starts
    ∧ callsOf stops = flat_map (stopsOf nodes) [DL1; CL1; GL0; ML0]
    ∧ callsOf starts = flat_map (startsOf nodes) [ML0; GL0; CL1; DL1]
    ∧ sleptMs (stops ++ starts)
      = (212000 + 40000 * Z.of_nat (length (tail nodes)))%Z.
Proof.
  intros Hrun. rewrite (logs_restartFullMetagraph ssh nodes _ _ Hrun).
  eexists _, _. split; [reflexivity|].
  pose proof (fun layer => joiners_log (tail nodes) layer (NodeInfo.host <$> head nodes)) as Hjl.
  cbv zeta in Hjl.
  unfold layerOrder, startOrder. cbn [flat_map].
  split_and!.
  - rewrite !callsOf_app, !callsOf_Ssh. simpl. by rewrite !app_nil_r.
  - rewrite !callsOf_app.
    rewrite (proj1 (Hjl ML0)), (proj1 (Hjl GL0)), (proj1 (Hjl CL1)), (proj1 (Hjl DL1)).
    simpl. by rewrite !app_nil_r.
  - rewrite !sleptMs_app, !sleptMs_Ssh.
    rewrite (proj2 (Hjl ML0)), (proj2 (Hjl GL0)), (proj2 (Hjl CL1)), (proj2 (Hjl DL1)).
    simpl. lia.
Qed.

Lemma restartFullMetagraph_resolved_witness :
  let log' := (Restart.restartFullMetagraph Cases.reliable Cases.nodes2 []).1 in
  Restart.restartFullMetagraph Cases.reliable Cases.nodes2 [] = (log', Js.Resolved tt)
  ∧ ∃ stops starts,
      log' = [] ++ stops ++ starts
      ∧ callsOf stops = flat_map (stopsOf Cases.nodes2) [DL1; CL1; GL0; ML0]
      ∧ callsOf starts = flat_map (startsOf Cases.nodes2) [ML0; GL0; CL1; DL1]
      ∧ sleptMs (stops ++ starts) = 252000%Z.
Proof.
  assert (Hrun : Restart.restartFullMetagraph Cases.reliable Cases.nodes2 []
                 = ((Restart.restartFullMetagraph Cases.reliable Cases.nodes2 []).1,
                    Js.Resolved tt))
    by reflexivity.
  destruct (restartFullMetagraph_resolved Cases.reliable Cases.nodes2 [] _ Hrun)
    as (stops & starts & Hlog & Hstops & Hstarts & Hslept).
  split; [exact Hrun|].
  exists stops, starts. split; [exact Hlog|]. split; [exact Hstops|].
  split; [exact Hstarts|]. rewrite Hslept. reflexivity.
Defined.

Lemma logs_individual (ssh : Log → Call → Js.Settled unit)
    (targets : list NodeInfo.t) (layer : LayerName) (seed : option NodeInfo.t) :
  logsWhenResolved
    (forEach targets (fun node => restartIndividualNode ssh node layer seed))
    (flat_map (fun node =>
       [Ssh (restartLayerOnNode (Some node) layer (NodeInfo.host <$> seed));
        Sleep 15000]) targets).
Proof.
  apply logs_forEach. intros node. unfold restartIndividualNode.
  apply (logs_bind _ _ [_] [_]); [apply logs_call|apply logs_sleep].
Qed.

(** X19.  An individual-node plan that resolves has restarted the configured
    nodes the plan names, in the order of the configuration and each
    once, all with the host of the plan's seed node as seed, and it has
    waited 15 s after each. *)
Theorem executeRestartPlan_individual (ssh : Log → Call → Js.Settled unit)
    (plan : RestartPlan.t) (nodes : list NodeInfo.t) (log log' : Log) :
  RestartPlan.group plan = IndividualNode →
  executeRestartPlan ssh plan nodes log = (log', Js.Resolved tt) →
  ∃ added,
    log' = log ++ added
    ∧ callsOf added
      = map (fun node => restartLayerOnNode (Some node) (RestartPlan.layer plan)
                           (NodeInfo.host <$> seedNode plan nodes))
            (List.filter (fun n => bool_decide (NodeInfo.nodeId n ∈ RestartPlan.nodeIds plan))
                         nodes)
    ∧ sleptMs added
      = (15000 * Z.of_nat (length (List.filter
           (fun n => bool_decide (NodeInfo.nodeId n ∈ RestartPlan.nodeIds plan)) nodes)))%Z.
Proof.
  intros Hgroup Hrun. unfold executeRestartPlan in Hrun. rewrite Hgroup in Hrun.
  cbv zeta in Hrun.
  rewrite (logs_individual ssh _ _ _ _ _ Hrun). eexists. split; [reflexivity|].
  unfold targetNodes, includes.
  induction (List.filter _ nodes) as [|t ts [IH1 IH2]]; [done|]. split.
  - simpl. f_equal. apply IH1.
  - cbn [flat_map app length]. cbn [sleptMs foldr].
    change (foldr _ 0%Z ?l) with (sleptMs l). rewrite IH2. lia.
Qed.

Lemma executeRestartPlan_individual_witness :
  let log' := (Restart.executeRestartPlan Cases.reliable Cases.restartNode1
                 Cases.nodes2 []).1 in
  RestartPlan.group Cases.restartNode1 = IndividualNode
  ∧ Restart.executeRestartPlan Cases.reliable Cases.restartNode1 Cases.nodes2 []
    = (log', Js.Resolved tt)
  ∧ ∃ added,
      log' = [] ++ added
      ∧ callsOf added
        = [Restart.restartLayerOnNode (Some Cases.nodeA) ML0 (Some "10.0.0.2")]
      ∧ sleptMs added = 15000%Z.
Proof.
  assert (Hrun : Restart.executeRestartPlan Cases.reliable Cases.restartNode1
                   Cases.nodes2 []
                 = ((Restart.executeRestartPlan Cases.reliable Cases.restartNode1
                       Cases.nodes2 []).1, Js.Resolved tt))
    by reflexivity.
  destruct (executeRestartPlan_individual Cases.reliable Cases.restartNode1
              Cases.nodes2 [] _ eq_refl Hrun) as (added & Hlog & Hcalls & Hslept).
  split; [reflexivity|]. split; [exact Hrun|].
  exists added. split; [exact Hlog|].
  split; [rewrite Hcalls; vm_compute; reflexivity|].
  rewrite Hslept. vm_compute. reflexivity.
Defined.

Lemma find_first {A : Type} (f : A → bool) (l : list A) (x : A) :
  List.find f l = Some x →
  f x = true ∧ ∃ pre post, l = pre ++ x :: post ∧ ∀ y, In y pre → f y = false.
Proof.
  induction l as [|a l IH]; [done|]. simpl.
  destruct (f a) eqn:Ea.
  - intros [= <-]. split; [done|]. exists [], l. by split.
  - intros Hx. destruct (IH Hx) as (Hfx & pre & post & -> & Hpre).
    split; [done|]. exists (a :: pre), post. split; [done|].
    intros y [<-|Hy]; [done|by apply Hpre].
Qed.

Lemma find_None_iff {A : Type} (f : A → bool) (l : list A) :
  List.find f l = None ↔ ∀ y, In y l → f y = false.
Proof.
  split; [apply find_none|].
  induction l as [|a l IH]; [done|]. intros Hall. simpl.
  rewrite (Hall a) by (by left). apply IH. intros y Hy. apply Hall. by right.
Qed.

(** X20.  The seed node of a plan.  A plan that names a seed gets the first
    configured node of that id, and none when no node has it; the named
    seed may be one of the nodes to restart.  A plan without seed gets
    the first configured node it does not name, which is never one of the
    nodes to restart, and none when it names every node. *)
Theorem executeRestartPlan_seedNode (plan : RestartPlan.t) (nodes : list NodeInfo.t) :
  (∀ id, RestartPlan.seedNode plan = Some id → id ≠ "" →
     (∀ s, seedNode plan nodes = Some s →
        NodeInfo.nodeId s = id
        ∧ ∃ pre post, nodes = pre ++ s :: post
                      ∧ ∀ n, In n pre → NodeInfo.nodeId n ≠ id)
     ∧ (seedNode plan nodes = None ↔ ∀ n, In n nodes → NodeInfo.nodeId n ≠ id))
  ∧ (Js.truthy (RestartPlan.seedNode plan) = false →
     (∀ s, seedNode plan nodes = Some s →
        (NodeInfo.nodeId s ∉ RestartPlan.nodeIds plan)
        ∧ ¬ In s (targetNodes plan nodes)
        ∧ ∃ pre post, nodes = pre ++ s :: post
                      ∧ ∀ n, In n pre → NodeInfo.nodeId n ∈ RestartPlan.nodeIds plan)
     ∧ (seedNode plan nodes = None
        ↔ ∀ n, In n nodes → NodeInfo.nodeId n ∈ RestartPlan.nodeIds plan)).
Proof.
  split.
  - intros id Hid Hne. unfold seedNode. rewrite Hid.
    assert (Ht : Js.truthy (Some id) = true) by (simpl; by destruct id).
    rewrite Ht. split.
    + intros s Hs. apply find_first in Hs as (Hfs & pre & post & Hsplit & Hpre).
      apply bool_decide_eq_true in Hfs. injection Hfs as Hfs.
      split; [done|]. exists pre, post. split; [done|].
      intros n Hn Heq. specialize (Hpre n Hn).
      apply bool_decide_eq_false in Hpre. apply Hpre. by rewrite Heq.
    + rewrite find_None_iff. split.
      * intros Hall n Hn Heq. specialize (Hall n Hn).
        apply bool_decide_eq_false in Hall. apply Hall. by rewrite Heq.
      * intros Hall n Hn. apply bool_decide_eq_false. intros [= Heq].
        by apply (Hall n Hn).
  - intros Hfalsy. unfold seedNode. rewrite Hfalsy. split.
    + intros s Hs. apply find_first in Hs as (Hfs & pre & post & Hsplit & Hpre).
      unfold includes in Hfs, Hpre.
      apply negb_true_iff, bool_decide_eq_false in Hfs.
      split_and!; [done| |].
      * unfold targetNodes, includes. intros Hin. apply filter_In in Hin as [_ Hin].
        by apply bool_decide_eq_true in Hin.
      * exists pre, post. split; [done|]. intros n Hn. specialize (Hpre n Hn).
        by apply negb_false_iff, bool_decide_eq_true in Hpre.
    + rewrite find_None_iff. unfold includes. split.
      * intros Hall n Hn. specialize (Hall n Hn).
        by apply negb_false_iff, bool_decide_eq_true in Hall.
      * intros Hall n Hn. apply negb_false_iff, bool_decide_eq_true.
        by apply Hall.
Qed.
End Restart_procedures.

(** ** The fork detector of the watchdog (forked-cluster.ts) *)

(** *** The most frequent hash *)

Lemma insert_by_head {A : Type} (compare : A → A → Z) (a : A) (s : list A) :
  head (insert_by compare a s)
  = match s with
    | [] => Some a
    | h :: _ => if (compare a h <=? 0)%Z then Some a else Some h
    end.
Proof. destruct s as [|h s]; [done|]. simpl. by destruct (_ <=? _)%Z. Qed.

(** The first element of an array sorted by decreasing count has the
    highest count. *)
Lemma sort_by_head_max {K : Type} (l : list (K * Z)) (x : K * Z) :
  head (sort_by (fun a b => (snd b - snd a)%Z) l) = Some x →
  ∀ y, In y l → (snd y ≤ snd x)%Z.
Proof.
  revert x. induction l as [|a l IH]; intros x Hx y Hy; [done|].
  simpl in Hx. rewrite insert_by_head in Hx.
  destruct (sort_by _ l) as [|h s] eqn:Es.
  - injection Hx as <-. destruct Hy as [<-|Hy]; [lia|].
    apply (sort_by_In (fun a b => (snd b - snd a)%Z)) in Hy. by rewrite Es in Hy.
  - specialize (IH h eq_refl).
    destruct (Z.leb_spec (h.2 - a.2) 0) as [Hle|Hgt]; injection Hx as <-.
    + destruct Hy as [<-|Hy]; [lia|]. specialize (IH y Hy). lia.
    + destruct Hy as [<-|Hy]; [lia|]. by apply IH.
Qed.

Lemma get_map_length {K : Type} `{EqDecision K} (m : list (K * list string)) (k : K) :
  JsMap.get (map (fun e => (e.1, Z.of_nat (length e.2))) m) k
  = (fun ns => Z.of_nat (length ns)) <$> JsMap.get m k.
Proof.
  induction m as [|[k' v] m IH]; [done|]. simpl.
  by destruct (decide (k = k')).
Qed.

Lemma set_map_length {K : Type} `{EqDecision K} (m : list (K * list string)) (k : K)
    (ns : list string) :
  JsMap.set (map (fun e => (e.1, Z.of_nat (length e.2))) m) k (Z.of_nat (length ns))
  = map (fun e => (e.1, Z.of_nat (length e.2))) (JsMap.set m k ns).
Proof.
  induction m as [|[k' v] m IH]; [done|]. simpl.
  destruct (decide (k = k')); [done|]. simpl. by rewrite IH.
Qed.

(** [freq] counts what the grouping loop collects. *)
Lemma freq_groupsOf (povs : list ForkedCluster.Pov.t) :
  ForkedCluster.freq povs
  = map (fun e => (e.1, Z.of_nat (length e.2)))
        (groupsOf (fun _ => false) ForkedCluster.Pov.hash ForkedCluster.Pov.ip povs).
Proof.
  unfold ForkedCluster.freq.
  induction povs as [|p povs IH] using rev_ind; [done|].
  rewrite fold_left_app, groupsOf_snoc. cbn [fold_left]. rewrite IH.
  unfold groupStep. cbn [negb].
  rewrite get_map_length, <- set_map_length. f_equal.
  destruct (JsMap.get _ _); simpl; rewrite ?length_app; simpl; lia.
Qed.

Lemma freq_count (povs : list ForkedCluster.Pov.t) (k : string) (c : Z) :
  In (k, c) (ForkedCluster.freq povs) →
  c = Z.of_nat (length (withHash (Some k) povs)).
Proof.
  rewrite freq_groupsOf. intros Hin.
  apply in_map_iff in Hin as ([k' ns] & [= -> <-] & Hin).
  destruct (grouped_groupsOf (fun _ => false) ForkedCluster.Pov.hash
              ForkedCluster.Pov.ip povs) as (_ & Hmem & _).
  destruct (Hmem _ _ Hin) as [-> _]. unfold members. rewrite length_map.
  f_equal. f_equal. unfold withHash. apply filter_ext. intros p. simpl.
  apply bool_decide_ext. split; [by intros ->|by intros [= ->]].
Qed.

(** The majority hash is the hash of a node, and no hash is the hash of
    more nodes. *)
Lemma majorityHash_max (povs : list ForkedCluster.Pov.t) :
  povs ≠ [] →
  ∃ p, In p povs
       ∧ ForkedCluster.majorityHash povs = Some (ForkedCluster.Pov.hash p)
       ∧ ∀ q, In q povs →
           (length (withHash (Some (ForkedCluster.Pov.hash q)) povs)
            ≤ length (withHash (ForkedCluster.majorityHash povs) povs))%nat.
Proof.
  intros Hne. destruct (majorityHash_In povs Hne) as (p & Hp & Hmaj).
  exists p. split_and!; [done|done|].
  intros q Hq. rewrite Hmaj.
  unfold ForkedCluster.majorityHash in Hmaj.
  destruct (head (sort_by _ (ForkedCluster.freq povs))) as [[k c]|] eqn:Eh; [|done].
  simpl in Hmaj. injection Hmaj as ->.
  assert (Hkc : In (ForkedCluster.Pov.hash p, c) (ForkedCluster.freq povs)).
  { apply (sort_by_In (fun a b => (snd b - snd a)%Z)).
    destruct (sort_by _ (ForkedCluster.freq povs)); [done|].
    injection Eh as ->. by left. }
  assert (Hq' : In (ForkedCluster.Pov.hash q) (map fst (ForkedCluster.freq povs))).
  { apply freq_keys. by exists q. }
  apply in_map_iff in Hq' as ([k' c'] & Hk' & Hin'). simpl in Hk'. subst k'.
  pose proof (sort_by_head_max _ _ Eh _ Hin') as Hle. simpl in Hle.
  rewrite (freq_count _ _ _ Hkc), (freq_count _ _ _ Hin') in Hle. lia.
Qed.

Lemma count_withHash (povs : list ForkedCluster.Pov.t) (k : string) :
  count_occ String.string_dec (map ForkedCluster.Pov.hash povs) k
  = length (withHash (Some k) povs).
Proof.
  induction povs as [|p povs IH]; [done|]. unfold withHash in *. simpl.
  destruct (String.string_dec (ForkedCluster.Pov.hash p) k) as [->|Hne].
  - rewrite bool_decide_eq_true_2 by done. simpl. by rewrite IH.
  - rewrite bool_decide_eq_false_2 by congruence. done.
Qed.

Lemma NoDup_hashes (povs : list ForkedCluster.Pov.t) :
  List.NoDup (map ForkedCluster.Pov.hash povs)
  ↔ ∀ q, In q povs →
      (length (withHash (Some (ForkedCluster.Pov.hash q)) povs) ≤ 1)%nat.
Proof.
  rewrite (List.NoDup_count_occ String.string_dec). split.
  - intros Hc q _. rewrite <- count_withHash. apply Hc.
  - intros Hq k. rewrite count_withHash.
    destruct (withHash (Some k) povs) as [|q qs] eqn:E; [simpl; lia|].
    assert (Hin : In q (withHash (Some k) povs)) by (rewrite E; by left).
    apply filter_In in Hin as [Hin Hk]. apply bool_decide_eq_true in Hk.
    injection Hk as <-. rewrite <- E. by apply Hq.
Qed.

Section ForkedCluster_more.
Variable sha256_hex : string → string.
Variable stringify : list string → string.
Variable getClusterInfo : string → Z → list ClusterMember.t.

Abbreviation povsOf := (ForkedCluster.povs sha256_hex stringify getClusterInfo).
Abbreviation checkLayerFork' :=
  (ForkedCluster.checkLayerFork sha256_hex stringify getClusterInfo).
Abbreviation checkLayers' :=
  (ForkedCluster.checkLayers sha256_hex stringify getClusterInfo).
Abbreviation detectForkedCluster' :=
  (ForkedCluster.detectForkedCluster sha256_hex stringify getClusterInfo).

Lemma checkLayerFork_minority (config : Config.t) (layer : Layer) :
  ForkedCluster.LayerFork.minorityNodes (checkLayerFork' config layer)
  = map ForkedCluster.Pov.ip
      (offHash (ForkedCluster.majorityHash (povsOf config layer)) (povsOf config layer))
  ∧ ForkedCluster.LayerFork.forked (checkLayerFork' config layer)
    = negb (bool_decide
        (offHash (ForkedCluster.majorityHash (povsOf config layer)) (povsOf config layer) = [])).
Proof.
  split; [done|]. unfold ForkedCluster.checkLayerFork.
  cbn [ForkedCluster.LayerFork.forked]. rewrite length_map.
  fold (offHash (ForkedCluster.majorityHash (povsOf config layer)) (povsOf config layer)).
  by destruct (offHash _ _).
Qed.

Lemma checkLayerFork_forked_hashes (config : Config.t) (layer : Layer) :
  ForkedCluster.LayerFork.forked (checkLayerFork' config layer) = true
  ↔ ∃ p q, In p (povsOf config layer) ∧ In q (povsOf config layer)
           ∧ ForkedCluster.Pov.hash p ≠ ForkedCluster.Pov.hash q.
Proof.
  destruct (checkLayerFork_minority config layer) as [_ Hforked].
  set (ps := povsOf config layer) in *.
  rewrite Hforked, negb_true_iff, bool_decide_eq_false. split.
  - intros Hne.
    destruct (offHash (ForkedCluster.majorityHash ps) ps) as [|q qs] eqn:Eoff; [done|].
    assert (Hq : In q (offHash (ForkedCluster.majorityHash ps) ps))
      by (rewrite Eoff; by left).
    apply filter_In in Hq as [Hq Hh]. apply negb_true_iff, bool_decide_eq_false in Hh.
    destruct (majorityHash_In ps) as (p & Hp & Hmaj); [by intros Hnil; rewrite Hnil in Hq|].
    exists p, q. split_and!; [done|done|]. intros Heq. apply Hh. by rewrite Hmaj, Heq.
  - intros (p & q & Hp & Hq & Hpq) Hnil.
    pose proof (proj1 (filter_nil_iff _ _) Hnil) as Hall.
    pose proof (Hall p Hp) as Hp'. pose proof (Hall q Hq) as Hq'.
    apply negb_false_iff, bool_decide_eq_true in Hp'.
    apply negb_false_iff, bool_decide_eq_true in Hq'. congruence.
Qed.

(** X21.  A layer is forked exactly when two nodes have different hashes.  The
    minority never holds every node; a layer on which no node answers is
    not forked. *)
Theorem checkLayerFork_forked_iff (config : Config.t) (layer : Layer) :
  let result := checkLayerFork' config layer in
  (ForkedCluster.LayerFork.forked result = true
   ↔ ∃ p q, In p (povsOf config layer) ∧ In q (povsOf config layer)
            ∧ ForkedCluster.Pov.hash p ≠ ForkedCluster.Pov.hash q)
  ∧ (Config.nodes config ≠ [] →
     (length (ForkedCluster.LayerFork.minorityNodes result)
      < length (Config.nodes config))%nat)
  ∧ ((∀ n, In n (Config.nodes config) →
        getClusterInfo (NodeConfig.ip n) (Ports.get (Config.ports config) layer) = []) →
     ForkedCluster.LayerFork.forked result = false).
Proof.
  intros result. subst result.
  destruct (checkLayerFork_minority config layer) as [Hmin _].
  pose proof (checkLayerFork_forked_hashes config layer) as Hiff.
  set (ps := povsOf config layer) in *.
  assert (Hlen : length ps = length (Config.nodes config)) by apply length_map.
  split_and!; [done| |].
  - intros Hne. rewrite Hmin, length_map, <- Hlen.
    destruct (majorityHash_In ps) as (p & Hp & Hmaj).
    { intros Hnil. rewrite Hnil in Hlen. by destruct (Config.nodes config). }
    assert (Hsum : (length (withHash (ForkedCluster.majorityHash ps) ps)
                    + length (offHash (ForkedCluster.majorityHash ps) ps)
                    = length ps)%nat) by apply List.filter_length.
    assert (In p (withHash (ForkedCluster.majorityHash ps) ps)) as Hin.
    { apply filter_In. split; [done|]. apply bool_decide_eq_true. by rewrite Hmaj. }
    destruct (withHash _ ps); [done|]. simpl in Hsum. lia.
  - intros Hdown. apply not_true_is_false. intros E.
    apply Hiff in E as (p & q & Hp & Hq & Hpq). apply Hpq.
    assert (Hun : ∀ r, In r ps → ForkedCluster.Pov.hash r = "unreachable").
    { intros r Hr. unfold ps, ForkedCluster.povs in Hr.
      apply in_map_iff in Hr as (n & <- & Hn). by rewrite (Hdown n Hn). }
    by rewrite (Hun p Hp), (Hun q Hq).
Qed.

(** X22.  Nodes that answer with the same member ids, each in whatever order,
    are not forked: the hash does not depend on the order of the
    members. *)
Theorem checkLayerFork_agreeing (config : Config.t) (layer : Layer) :
  (∀ n n', In n (Config.nodes config) → In n' (Config.nodes config) →
     map ClusterMember.id
       (getClusterInfo (NodeConfig.ip n) (Ports.get (Config.ports config) layer))
     ≡ₚ map ClusterMember.id
          (getClusterInfo (NodeConfig.ip n') (Ports.get (Config.ports config) layer))) →
  checkLayerFork' config layer = ForkedCluster.LayerFork.mk false [].
Proof.
  intros Hsame.
  assert (Hnot : ForkedCluster.LayerFork.forked (checkLayerFork' config layer) = false).
  { apply not_true_is_false. intros E.
    apply checkLayerFork_forked_hashes in E as (p & q & Hp & Hq & Hpq). apply Hpq.
    unfold ForkedCluster.povs in Hp, Hq.
    apply in_map_iff in Hp as (n & <- & Hn). apply in_map_iff in Hq as (n' & <- & Hn').
    pose proof (Hsame n n' Hn Hn') as Hperm.
    pose proof (Permutation_length Hperm) as Hlen. rewrite !length_map in Hlen.
    cbv zeta. rewrite <- Hlen. destruct (length _ =? 0)%nat; [done|].
    cbn [ForkedCluster.Pov.hash]. unfold ForkedCluster.hashClusterPOV.
    by rewrite (sort_Permutation _ _ Hperm). }
  destruct (checkLayerFork_minority config layer) as [Hmin Hforked].
  rewrite Hforked in Hnot. apply negb_false_iff, bool_decide_eq_true in Hnot.
  unfold ForkedCluster.checkLayerFork.
  fold (offHash (ForkedCluster.majorityHash (povsOf config layer)) (povsOf config layer)).
  by rewrite Hnot.
Qed.

(** The loop over the layers reports the first forked layer. *)
Lemma checkLayers_first (config : Config.t) (pre : list Layer) (l : Layer)
    (post : list Layer) :
  (∀ l', In l' pre → ForkedCluster.LayerFork.forked (checkLayerFork' config l') = false) →
  ForkedCluster.LayerFork.forked (checkLayerFork' config l) = true →
  let result := checkLayers' config (pre ++ l :: post) in
  let minority := ForkedCluster.LayerFork.minorityNodes (checkLayerFork' config l) in
  DetectionResult.detected result = true
  ∧ DetectionResult.affectedLayers result = Some [l]
  ∧ DetectionResult.affectedNodes result = Some minority
  ∧ DetectionResult.restartScope result
    = (if (Z.of_nat (length (Config.nodes config)) - 1 <=? Z.of_nat (length minority))%Z
       then full_layer else individual_node).
Proof.
  intros Hpre Hl. induction pre as [|l0 pre IH]; cbn [app ForkedCluster.checkLayers].
  - rewrite Hl. done.
  - rewrite (Hpre l0) by (by left). apply IH. intros l' Hl'. apply Hpre. by right.
Qed.

Lemma checkLayers_none (config : Config.t) (layers : list Layer) :
  (∀ l, In l layers → ForkedCluster.LayerFork.forked (checkLayerFork' config l) = false) →
  checkLayers' config layers = DetectionResult.mk false ForkedCluster "" none None None.
Proof.
  induction layers as [|l layers IH]; intros Hall; [done|].
  cbn [ForkedCluster.checkLayers]. rewrite (Hall l) by (by left).
  apply IH. intros l' Hl'. apply Hall. by right.
Qed.

(** The first forked layer of a list, if any. *)
Lemma first_forked (config : Config.t) (layers : list Layer) :
  (∀ l, In l layers → ForkedCluster.LayerFork.forked (checkLayerFork' config l) = false)
  ∨ ∃ pre l post, layers = pre ++ l :: post
      ∧ (∀ l', In l' pre → ForkedCluster.LayerFork.forked (checkLayerFork' config l') = false)
      ∧ ForkedCluster.LayerFork.forked (checkLayerFork' config l) = true.
Proof.
  induction layers as [|l layers IH]; [by left|].
  destruct (ForkedCluster.LayerFork.forked (checkLayerFork' config l)) eqn:E.
  - right. exists [], l, layers. by split_and!.
  - destruct IH as [Hall|(pre & l1 & post & -> & Hpre & Hl1)].
    + left. intros l' [<-|Hl']; [done|by apply Hall].
    + right. exists (l :: pre), l1, post. split_and!; [done| |done].
      intros l' [<-|Hl']; [done|by apply Hpre].
Qed.

(** X23.  The detector looks at ML0, CL1 and DL1, in this order, and reports
    the first forked one with its minority; it is silent exactly when none
    of the three is forked, and it never reports GL0. *)
Theorem detectForkedCluster_first_forked_layer (config : Config.t) :
  let result := detectForkedCluster' config in
  (DetectionResult.detected result = false
   ↔ ∀ l, In l [ml0; cl1; dl1] →
       ForkedCluster.LayerFork.forked (checkLayerFork' config l) = false)
  ∧ (∀ pre l post,
       [ml0; cl1; dl1] = pre ++ l :: post →
       (∀ l', In l' pre →
          ForkedCluster.LayerFork.forked (checkLayerFork' config l') = false) →
       ForkedCluster.LayerFork.forked (checkLayerFork' config l) = true →
       DetectionResult.detected result = true
       ∧ DetectionResult.affectedLayers result = Some [l]
       ∧ DetectionResult.affectedNodes result
         = Some (ForkedCluster.LayerFork.minorityNodes (checkLayerFork' config l)))
  ∧ DetectionResult.affectedLayers result ≠ Some [gl0].
Proof.
  intros result. subst result. unfold ForkedCluster.detectForkedCluster.
  assert (Hsecond : ∀ pre l post,
       [ml0; cl1; dl1] = pre ++ l :: post →
       (∀ l', In l' pre →
          ForkedCluster.LayerFork.forked (checkLayerFork' config l') = false) →
       ForkedCluster.LayerFork.forked (checkLayerFork' config l) = true →
       DetectionResult.detected (checkLayers' config [ml0; cl1; dl1]) = true
       ∧ DetectionResult.affectedLayers (checkLayers' config [ml0; cl1; dl1]) = Some [l]
       ∧ DetectionResult.affectedNodes (checkLayers' config [ml0; cl1; dl1])
         = Some (ForkedCluster.LayerFork.minorityNodes (checkLayerFork' config l))).
  { intros pre l post Hsplit Hpre Hl. rewrite Hsplit.
    destruct (checkLayers_first config pre l post Hpre Hl) as (? & ? & ? & _). done. }
  destruct (first_forked config [ml0; cl1; dl1])
    as [Hall|(pre & l & post & Hsplit & Hpre & Hl)].
  - rewrite (checkLayers_none config _ Hall). split_and!; [done| |done].
    intros pre l post Hs _ Hl. rewrite Hall in Hl; [done|].
    rewrite Hs. apply in_app_iff. right. by left.
  - destruct (Hsecond pre l post Hsplit Hpre Hl) as (Hd & Hlayers & Hnodes).
    split_and!; [|done|].
    + rewrite Hd. split; [done|]. intros Hall.
      rewrite Hall in Hl; [done|]. rewrite Hsplit. apply in_app_iff. right. by left.
    + rewrite Hlayers. intros [= ->].
      assert (Hin : In gl0 [ml0; cl1; dl1]).
      { rewrite Hsplit. apply in_app_iff. right. by left. }
      simpl in Hin. by destruct Hin as [|[|[|[]]]].
Qed.

(** X24.  A detected fork asks for a full layer restart exactly when no two
    nodes of the reported layer have the same hash, and for the restart
    of the minority nodes otherwise. *)
Theorem detectForkedCluster_full_layer_iff (config : Config.t) (layer : Layer) :
  let result := detectForkedCluster' config in
  DetectionResult.detected result = true →
  DetectionResult.affectedLayers result = Some [layer] →
  (DetectionResult.restartScope result = full_layer
   ↔ List.NoDup (map ForkedCluster.Pov.hash (povsOf config layer)))
  ∧ (DetectionResult.restartScope result = individual_node
     ↔ ¬ List.NoDup (map ForkedCluster.Pov.hash (povsOf config layer))).
Proof.
  intros result Hd Hlayer. subst result.
  unfold ForkedCluster.detectForkedCluster in *.
  destruct (first_forked config [ml0; cl1; dl1])
    as [Hall|(pre & l & post & Hsplit & Hpre & Hl)].
  { by rewrite (checkLayers_none config _ Hall) in Hd. }
  rewrite Hsplit in Hlayer |- *.
  destruct (checkLayers_first config pre l post Hpre Hl) as (_ & Hlayers & _ & Hscope).
  rewrite Hlayers in Hlayer. injection Hlayer as ->. rewrite Hscope.
  set (ps := povsOf config layer).
  assert (Hlen : length ps = length (Config.nodes config)) by apply length_map.
  assert (Hmin : ForkedCluster.LayerFork.minorityNodes (checkLayerFork' config layer)
                 = map ForkedCluster.Pov.ip (offHash (ForkedCluster.majorityHash ps) ps)) by done.
  rewrite Hmin, length_map.
  assert (Hsum : (length (withHash (ForkedCluster.majorityHash ps) ps)
                  + length (offHash (ForkedCluster.majorityHash ps) ps)
                  = length ps)%nat) by apply List.filter_length.
  assert (Hne : ps ≠ []).
  { intros Hnil. unfold ForkedCluster.checkLayerFork in Hl. fold ps in Hl.
    by rewrite Hnil in Hl. }
  destruct (majorityHash_max ps Hne) as (p & Hp & Hmaj & Hmax).
  assert (Hin : In p (withHash (ForkedCluster.majorityHash ps) ps)).
  { apply filter_In. split; [done|]. apply bool_decide_eq_true. by rewrite Hmaj. }
  assert (Hpos : (1 ≤ length (withHash (ForkedCluster.majorityHash ps) ps))%nat).
  { destruct (withHash _ ps); [done|simpl; lia]. }
  assert (Hone : List.NoDup (map ForkedCluster.Pov.hash ps)
                 ↔ (length (withHash (ForkedCluster.majorityHash ps) ps) ≤ 1)%nat).
  { rewrite NoDup_hashes. split.
    - intros Hq. rewrite Hmaj. by apply Hq.
    - intros Hle q Hq. specialize (Hmax q Hq). lia. }
  rewrite Hone.
  destruct (Z.leb_spec (Z.of_nat (length (Config.nodes config)) - 1)
              (Z.of_nat (length (offHash (ForkedCluster.majorityHash ps) ps))));
    split; split; try done; lia.
Qed.
End ForkedCluster_more.

Lemma checkLayerFork_agreeing_witness :
  (∀ n n', In n (Config.nodes Scenario.config3) → In n' (Config.nodes Scenario.config3) →
     map ClusterMember.id
       (Cases.shuffled (NodeConfig.ip n) (Ports.get (Config.ports Scenario.config3) ml0))
     ≡ₚ map ClusterMember.id
          (Cases.shuffled (NodeConfig.ip n') (Ports.get (Config.ports Scenario.config3) ml0)))
  ∧ ForkedCluster.checkLayerFork Scenario.sha256_hex Scenario.stringify
      Cases.shuffled Scenario.config3 ml0
    = ForkedCluster.LayerFork.mk false [].
Proof.
  assert (Hsame : ∀ n n', In n (Config.nodes Scenario.config3) →
            In n' (Config.nodes Scenario.config3) →
            map ClusterMember.id
              (Cases.shuffled (NodeConfig.ip n) (Ports.get (Config.ports Scenario.config3) ml0))
            ≡ₚ map ClusterMember.id
                 (Cases.shuffled (NodeConfig.ip n') (Ports.get (Config.ports Scenario.config3) ml0))).
  { intros n n' [<-|[<-|[<-|[]]]] [<-|[<-|[<-|[]]]];
      first [reflexivity | apply perm_swap]. }
  split; [exact Hsame|].
  apply (checkLayerFork_agreeing Scenario.sha256_hex Scenario.stringify Cases.shuffled
           Scenario.config3 ml0 Hsame).
Defined.

Lemma detectForkedCluster_full_layer_iff_witness :
  let result :=
    ForkedCluster.detectForkedCluster Scenario.sha256_hex Scenario.stringify
      Scenario.eachAlone Scenario.config2 in
  DetectionResult.detected result = true
  ∧ DetectionResult.affectedLayers result = Some [ml0]
  ∧ DetectionResult.restartScope result = full_layer
  ∧ List.NoDup (map ForkedCluster.Pov.hash
                  (ForkedCluster.povs Scenario.sha256_hex Scenario.stringify
                     Scenario.eachAlone Scenario.config2 ml0)).
Proof.
  destruct (detectForkedCluster_full_layer_iff Scenario.sha256_hex Scenario.stringify
              Scenario.eachAlone Scenario.config2 ml0 eq_refl eq_refl) as [Hfull _].
  split; [reflexivity|]. split; [reflexivity|]. split; [reflexivity|].
  apply Hfull. reflexivity.
Defined.

(** ** The stall detector of the watchdog over several ticks *)

Lemma detectSnapshotsStopped_by_ordinal (toFixed1 : Z → string) (config : Config.t)
    (tick : StallTick) (st : SnapshotsStopped.State.t) :
  let out := SnapshotsStopped.detectSnapshotsStopped (fst tick) toFixed1 config (snd tick) st in
  let o := tickOrdinal config tick in
  out.1.1 = (if (o <? 0)%Z then st
             else if bool_decide (o = SnapshotsStopped.State.lastKnownOrdinal st) then st
             else SnapshotsStopped.State.mk o (snd tick))
  ∧ DetectionResult.detected out.1.2
    = negb (o <? 0)%Z
      && bool_decide (o = SnapshotsStopped.State.lastKnownOrdinal st)
      && (Config.snapshotStallMinutes config * 60000
          <=? snd tick - SnapshotsStopped.State.lastOrdinalChangeTime st)%Z.
Proof.
  intros out o. subst out o. unfold tickOrdinal, SnapshotsStopped.detectSnapshotsStopped.
  destruct (SnapshotsStopped.firstOrdinal _ _ _) as [o asked]. cbn [fst].
  destruct (o <? 0)%Z; [done|].
  destruct (bool_decide (o = _)); cbn [negb andb]; [|done].
  by destruct (_ <=? _)%Z.
Qed.

Lemma each_cons (toFixed1 : Z → string) (config : Config.t) (tick : StallTick)
    (rest : list StallTick) (st : SnapshotsStopped.State.t) :
  let out := SnapshotsStopped.detectSnapshotsStopped (fst tick) toFixed1 config (snd tick) st in
  detectSnapshotsStoppedEach toFixed1 config (tick :: rest) st
  = ((detectSnapshotsStoppedEach toFixed1 config rest out.1.1).1,
     out.1.2 :: (detectSnapshotsStoppedEach toFixed1 config rest out.1.1).2).
Proof.
  cbn [detectSnapshotsStoppedEach].
  destruct (SnapshotsStopped.detectSnapshotsStopped _ _ _ _ _) as [[st' r] asked].
  cbn [fst snd]. by destruct (detectSnapshotsStoppedEach _ _ _ _).
Qed.

(** While the ordinal stays the recorded one, through ticks in which no
    node answers as well, the record stays and a tick detects exactly
    when a node answers and the record is old enough. *)
Lemma each_plateau (toFixed1 : Z → string) (config : Config.t)
    (ticks : list StallTick) (st : SnapshotsStopped.State.t) :
  (0 ≤ SnapshotsStopped.State.lastKnownOrdinal st)%Z →
  (∀ tick, In tick ticks →
     tickOrdinal config tick = SnapshotsStopped.State.lastKnownOrdinal st
     ∨ (tickOrdinal config tick < 0)%Z) →
  let out := detectSnapshotsStoppedEach toFixed1 config ticks st in
  out.1 = st
  ∧ map DetectionResult.detected out.2
    = map (fun tick =>
             (0 <=? tickOrdinal config tick)%Z
             && (Config.snapshotStallMinutes config * 60000
                 <=? snd tick - SnapshotsStopped.State.lastOrdinalChangeTime st)%Z)
          ticks.
Proof.
  intros Hpos. induction ticks as [|tick ticks IH]; intros Hall out; [done|].
  subst out. rewrite each_cons. cbv zeta.
  destruct (detectSnapshotsStopped_by_ordinal toFixed1 config tick st) as [Hst Hd].
  assert (Hst' : (SnapshotsStopped.detectSnapshotsStopped tick.1 toFixed1 config tick.2 st).1.1 = st).
  { rewrite Hst. destruct (Hall tick (or_introl eq_refl)) as [Heq|Hneg].
    - rewrite Heq. destruct (Z.ltb_spec (SnapshotsStopped.State.lastKnownOrdinal st) 0); [done|].
      by rewrite bool_decide_eq_true_2.
    - by destruct (Z.ltb_spec (tickOrdinal config tick) 0); [|lia]. }
  rewrite Hst'. destruct IH as [IH1 IH2]; [intros t Ht; apply Hall; by right|].
  cbn [fst snd map]. split; [done|]. rewrite IH2, Hd. f_equal.
  destruct (Hall tick (or_introl eq_refl)) as [Heq|Hneg].
  - rewrite Heq, bool_decide_eq_true_2 by done.
    destruct (Z.ltb_spec (SnapshotsStopped.State.lastKnownOrdinal st) 0); [lia|].
    destruct (Z.leb_spec 0 (SnapshotsStopped.State.lastKnownOrdinal st)); [done|lia].
  - destruct (Z.ltb_spec (tickOrdinal config tick) 0); [|lia].
    destruct (Z.leb_spec 0 (tickOrdinal config tick)); [lia|done].
Qed.

(** X25.  The stall clock.  A tick that sees a new ordinal records it with its
    time and reports nothing.  From then on, as long as the nodes answer
    with that ordinal or not at all, every tick in which a node answers
    reports a stall once the threshold has passed since that first tick,
    and goes on doing so: a tick without answer neither stops nor
    restarts the clock, and a report does not reset it. *)
Theorem detectSnapshotsStopped_stall_clock (toFixed1 : Z → string)
    (config : Config.t) (first : StallTick) (ticks : list StallTick)
    (st : SnapshotsStopped.State.t) :
  let o := tickOrdinal config first in
  (0 ≤ o)%Z →
  o ≠ SnapshotsStopped.State.lastKnownOrdinal st →
  (∀ tick, In tick ticks →
     tickOrdinal config tick = o ∨ (tickOrdinal config tick < 0)%Z) →
  let out := detectSnapshotsStoppedEach toFixed1 config (first :: ticks) st in
  out.1 = SnapshotsStopped.State.mk o (snd first)
  ∧ map DetectionResult.detected out.2
    = false
      :: map (fun tick =>
                (0 <=? tickOrdinal config tick)%Z
                && (Config.snapshotStallMinutes config * 60000
                    <=? snd tick - snd first)%Z)
             ticks.
Proof.
  intros o Hpos Hnew Hall out. subst out. rewrite each_cons. cbv zeta.
  destruct (detectSnapshotsStopped_by_ordinal toFixed1 config first st) as [Hst Hd].
  fold o in Hst, Hd.
  destruct (Z.ltb_spec o 0) as [?|_]; [lia|].
  rewrite bool_decide_eq_false_2 in Hst, Hd by done.
  rewrite Hst. cbn [fst snd map]. rewrite Hd. cbn [negb andb].
  destruct (each_plateau toFixed1 config ticks (SnapshotsStopped.State.mk o first.2))
    as [H1 H2]; [done|done|].
  by rewrite H1, H2.
Qed.

Lemma detectSnapshotsStopped_stall_clock_witness :
  (0 ≤ tickOrdinal Scenario.config3 Cases.firstAt500)%Z
  ∧ tickOrdinal Scenario.config3 Cases.firstAt500
    ≠ SnapshotsStopped.State.lastKnownOrdinal (SnapshotsStopped.State.initial Scenario.noon)
  ∧ map DetectionResult.detected
      (detectSnapshotsStoppedEach Scenario.toFixed1 Scenario.config3
         (Cases.firstAt500 :: Cases.stillAt500)
         (SnapshotsStopped.State.initial Scenario.noon)).2
    = [false; false; true].
Proof.
  assert (Hpos : (0 ≤ tickOrdinal Scenario.config3 Cases.firstAt500)%Z)
    by (vm_compute; discriminate).
  assert (Hnew : tickOrdinal Scenario.config3 Cases.firstAt500
                 ≠ SnapshotsStopped.State.lastKnownOrdinal
                     (SnapshotsStopped.State.initial Scenario.noon))
    by (vm_compute; discriminate).
  destruct (detectSnapshotsStopped_stall_clock Scenario.toFixed1 Scenario.config3
              Cases.firstAt500 Cases.stillAt500
              (SnapshotsStopped.State.initial Scenario.noon) Hpos Hnew) as [_ Hd].
  { intros tick [<-|[<-|[]]]; left; reflexivity. }
  split; [exact Hpos|]. split; [exact Hnew|].
  rewrite Hd. vm_compute. reflexivity.
Defined.

(** ** The hypergraph detector (hypergraph-api.ts, hypergraph-health.ts) *)

Section Hypergraph_detector.
Import HypergraphApi.
Import HypergraphHealth.

Lemma tryFirstSuccess_found {T : Type} (urls : list string)
    (fn : string → Js.Settled (option T)) (found : Found.t T) :
  (tryFirstSuccess urls fn).1 = Some found →
  ∃ pre post,
    urls = pre ++ Found.url found :: post
    ∧ (∀ u, In u pre → noResult (fn u))
    ∧ fn (Found.url found) = Js.Resolved (Some (Found.result found))
    ∧ (tryFirstSuccess urls fn).2 = pre ++ [Found.url found].
Proof.
  induction urls as [|url urls IH]; [done|]. cbn [tryFirstSuccess].
  destruct (fn url) as [[result|]|err] eqn:E.
  - intros [= <-]. exists [], urls. by split_and!.
  - destruct (tryFirstSuccess urls fn) as [f called]. cbn [fst snd] in *.
    intros Hf. destruct (IH Hf) as (pre & post & -> & Hpre & Hfn & ->).
    exists (url :: pre), post. split_and!; try done.
    intros u [<-|Hu]; [by rewrite E|by apply Hpre].
  - destruct (tryFirstSuccess urls fn) as [f called]. cbn [fst snd] in *.
    intros Hf. destruct (IH Hf) as (pre & post & -> & Hpre & Hfn & ->).
    exists (url :: pre), post. split_and!; try done.
    intros u [<-|Hu]; [by rewrite E|by apply Hpre].
Qed.

Lemma tryFirstSuccess_none {T : Type} (urls : list string)
    (fn : string → Js.Settled (option T)) :
  ((tryFirstSuccess urls fn).1 = None ↔ ∀ u, In u urls → noResult (fn u))
  ∧ ((tryFirstSuccess urls fn).1 = None → (tryFirstSuccess urls fn).2 = urls).
Proof.
  induction urls as [|url urls [IH1 IH2]]; [done|]. cbn [tryFirstSuccess].
  destruct (fn url) as [[result|]|err] eqn:E.
  - split; [|done]. split; [done|]. intros Hall.
    specialize (Hall url (or_introl eq_refl)). by rewrite E in Hall.
  - destruct (tryFirstSuccess urls fn) as [f called]. cbn [fst snd] in *.
    split.
    + rewrite IH1. split.
      * intros Hall u [<-|Hu]; [by rewrite E|by apply Hall].
      * intros Hall u Hu. apply Hall. by right.
    + intros Hf. by rewrite IH2.
  - destruct (tryFirstSuccess urls fn) as [f called]. cbn [fst snd] in *.
    split.
    + rewrite IH1. split.
      * intros Hall u [<-|Hu]; [by rewrite E|by apply Hall].
      * intros Hall u Hu. apply Hall. by right.
    + intros Hf. by rewrite IH2.
Qed.

(** X26.  [tryFirstSuccess] gives the first URL, in the order of the list, on
    which the request has a result, together with that result, and does
    not call the URLs after it; a request that rejects counts like one
    without result.  It gives [null] exactly when no URL has a result,
    after calling them all. *)
Theorem tryFirstSuccess_first {T : Type} (urls : list string)
    (fn : string → Js.Settled (option T)) :
  let out := tryFirstSuccess urls fn in
  (∀ found, out.1 = Some found →
     ∃ pre post,
       urls = pre ++ Found.url found :: post
       ∧ (∀ u, In u pre → noResult (fn u))
       ∧ fn (Found.url found) = Js.Resolved (Some (Found.result found))
       ∧ out.2 = pre ++ [Found.url found])
  ∧ (out.1 = None ↔ ∀ u, In u urls → noResult (fn u))
  ∧ (out.1 = None → out.2 = urls).
Proof.
  intros out. subst out. split; [apply tryFirstSuccess_found|apply tryFirstSuccess_none].
Qed.

(** *** The hypergraph detector *)

Lemma mathMax_le (sizes : list Z) (n : Z) :
  match mathMax sizes with
  | None => sizes = []
  | Some m => sizes ≠ [] ∧ ((m ≤ n)%Z ↔ ∀ x, In x sizes → (x ≤ n)%Z)
  end.
Proof.
  induction sizes as [|x sizes IH]; [done|]. simpl.
  destruct (mathMax sizes) as [m|].
  - destruct IH as [_ IH]. split; [done|]. split.
    + intros Hle y [<-|Hy]; [lia|]. apply IH; [lia|done].
    + intros Hall. apply Z.max_lub; [apply Hall; by left|].
      apply IH. intros y Hy. apply Hall. by right.
  - subst sizes. split; [done|]. split.
    + by intros Hle y [<-|[]].
    + intros Hall. apply Hall. by left.
Qed.

Lemma ourGl0Nodes_sizes (snapshot : HealthSnapshot.t) :
  let ourGl0Nodes :=
    List.filter (fun n => match gl0Of n with
                          | Some layer => LayerHealth.reachable layer
                          | None => false
                          end) (HealthSnapshot.nodes snapshot) in
  map (fun n => default 0%Z (gl0Of n ≫= LayerHealth.clusterSize)) ourGl0Nodes
  = map (fun l => default 0%Z (LayerHealth.clusterSize l)) (reachableGl0 snapshot)
  ∧ length ourGl0Nodes = length (reachableGl0 snapshot).
Proof.
  unfold reachableGl0. induction (HealthSnapshot.nodes snapshot) as [|n ns [IH1 IH2]]; [done|].
  cbn [List.filter]. csimpl. destruct (gl0Of n) as [layer|] eqn:E; [|by split].
  destruct (LayerHealth.reachable layer); [|by split].
  csimpl. rewrite E. csimpl. by rewrite IH1, IH2.
Qed.

Section hypergraph_facts.
Context {T : Type}.
Variable checkL0Fn : string → Js.Settled (option T).
Variable getClusterFn : string → Js.Settled (list ClusterMember.t).

(** X27.  The hypergraph detector never asks for a restart: whatever it
    resolves to has restart scope none.  It rejects only when the
    request for the hypergraph cluster does, and that request goes to a
    configured URL whose L0 check had a result. *)
Theorem detectHypergraphHealth_never_restarts
    (hypergraph : option HypergraphConfig.t) (config : Config.t)
    (snapshot : HealthSnapshot.t) :
  let out := detectHypergraphHealth checkL0Fn getClusterFn hypergraph config snapshot in
  (∀ r, out = Js.Resolved r →
     Result.restartScope r = none ∧ Result.condition r = "HypergraphHealth"
     ∧ (Result.detected r = false → Result.details r = ""))
  ∧ (∀ err, out = Js.Rejected err →
       ∃ hgConfig url,
         hypergraph = Some hgConfig
         ∧ In url (HypergraphConfig.l0Urls hgConfig)
         ∧ ¬ noResult (checkL0Fn url)
         ∧ getClusterFn url = Js.Rejected err).
Proof.
  intros out. subst out. unfold detectHypergraphHealth.
  destruct hypergraph as [hgConfig|]; [|split; [by intros r [= <-]|done]].
  destruct (HypergraphConfig.enabled hgConfig); cbn [negb];
    [|split; [by intros r [= <-]|done]].
  destruct (tryFirstSuccess (HypergraphConfig.l0Urls hgConfig) checkL0Fn).1
    as [found|] eqn:Ef; [|split; [by intros r [= <-]|done]].
  destruct (tryFirstSuccess_found _ _ _ Ef) as (pre & post & Hurls & _ & Hfn & _).
  destruct (length _ =? 0)%nat; [split; [by intros r [= <-]|done]|].
  destruct (getClusterFn (Found.url found)) as [hgCluster|err] eqn:Ec.
  - destruct (length hgCluster =? 0)%nat; [split; [by intros r [= <-]|done]|].
    cbv zeta. destruct (match mathMax _ with Some _ => _ | None => _ end);
      (split; [by intros r [= <-]|done]).
  - split; [done|]. intros err' [= <-]. exists hgConfig, (Found.url found).
    split_and!; [done| |rewrite Hfn; simpl; tauto|done].
    rewrite Hurls. apply in_app_iff. right. by left.
Qed.

(** X28.  What the hypergraph detector detects.  Without an enabled
    configuration it detects nothing.  With one, it detects when no L0
    URL has a result, also when no URL is configured.  When a URL has a
    result and the hypergraph cluster asked at the first such URL is
    known, it detects exactly when the snapshot has a reachable GL0
    entry, the hypergraph cluster is not empty, and no reachable GL0
    entry has a cluster size above the number of configured nodes, an
    entry without cluster size counting as 0. *)
Theorem detectHypergraphHealth_detected_iff
    (hypergraph : option HypergraphConfig.t) (config : Config.t)
    (snapshot : HealthSnapshot.t) :
  let out := detectHypergraphHealth checkL0Fn getClusterFn hypergraph config snapshot in
  ((hypergraph = None ∨ ∃ hgConfig, hypergraph = Some hgConfig
                         ∧ HypergraphConfig.enabled hgConfig = false) →
   out = Js.Resolved (Result.mk false "HypergraphHealth" "" none))
  ∧ (∀ hgConfig,
       hypergraph = Some hgConfig → HypergraphConfig.enabled hgConfig = true →
       ((∀ u, In u (HypergraphConfig.l0Urls hgConfig) → noResult (checkL0Fn u)) →
        ∃ r, out = Js.Resolved r ∧ Result.detected r = true)
       ∧ (∀ pre url post hgCluster,
            HypergraphConfig.l0Urls hgConfig = pre ++ url :: post →
            (∀ u, In u pre → noResult (checkL0Fn u)) →
            ¬ noResult (checkL0Fn url) →
            getClusterFn url = Js.Resolved hgCluster →
            ∃ r, out = Js.Resolved r
                 ∧ (Result.detected r = true
                    ↔ reachableGl0 snapshot ≠ []
                      ∧ hgCluster ≠ []
                      ∧ ∀ l, In l (reachableGl0 snapshot) →
                          (default 0 (LayerHealth.clusterSize l)
                           ≤ Z.of_nat (length (Config.nodes config)))%Z))).
Proof.
  intros out. subst out. unfold detectHypergraphHealth. split.
  { intros [->|(hgConfig & -> & ->)]; done. }
  intros hgConfig -> ->. cbn [negb]. split.
  - intros Hall.
    rewrite (proj2 (proj1 (tryFirstSuccess_none _ checkL0Fn)) Hall). by eexists.
  - intros pre url post hgCluster Hurls Hpre Hurl Hcluster.
    destruct (tryFirstSuccess (HypergraphConfig.l0Urls hgConfig) checkL0Fn).1
      as [found|] eqn:Ef.
    2:{ exfalso. apply Hurl.
        apply (proj1 (proj1 (tryFirstSuccess_none _ checkL0Fn)) Ef).
        rewrite Hurls. apply in_app_iff. right. by left. }
    destruct (tryFirstSuccess_found _ _ _ Ef) as (pre' & post' & Hurls' & Hpre' & Hfn & _).
    assert (Hsame : Found.url found = url).
    { rewrite Hurls in Hurls'. clear -Hurls' Hpre Hpre' Hurl Hfn.
      revert pre' Hurls' Hpre'. induction pre as [|a pre IH]; intros [|b pre'] Heq Hpre'.
      - by injection Heq as ->.
      - injection Heq as -> _. exfalso. apply Hurl. apply Hpre'. by left.
      - injection Heq as -> _. specialize (Hpre _ (or_introl eq_refl)).
        by rewrite Hfn in Hpre.
      - injection Heq as -> Heq. apply (IH (fun u Hu => Hpre u (or_intror Hu)) pre' Heq).
        intros u Hu. apply Hpre'. by right. }
    rewrite Hsame, Hcluster.
    destruct (ourGl0Nodes_sizes snapshot) as [Hsizes Hlen]. cbv zeta in Hsizes, Hlen.
    rewrite Hsizes, Hlen.
    destruct (reachableGl0 snapshot) as [|l ls] eqn:Er.
    { cbn. eexists. split; [done|]. cbn. split; [done|]. by intros [? _]. }
    cbn [length Nat.eqb].
    destruct hgCluster as [|m ms].
    { cbn. eexists. split; [done|]. cbn. split; [done|]. by intros (_ & ? & _). }
    cbn [length Nat.eqb].
    pose proof (mathMax_le (map (fun l0 => default 0%Z (LayerHealth.clusterSize l0)) (l :: ls))
                  (Z.of_nat (length (Config.nodes config)))) as Hmax.
    destruct (mathMax _) as [mx|]; [|done].
    destruct Hmax as [_ Hmax].
    assert (Hall : (mx ≤ Z.of_nat (length (Config.nodes config)))%Z
                   ↔ ∀ l0, In l0 (l :: ls) →
                       (default 0 (LayerHealth.clusterSize l0)
                        ≤ Z.of_nat (length (Config.nodes config)))%Z).
    { rewrite Hmax. split.
      - intros H l0 Hl0. apply H. apply in_map_iff. by exists l0.
      - intros H x Hx. apply in_map_iff in Hx as (l0 & <- & Hl0). by apply H. }
    destruct (Z.leb_spec mx (Z.of_nat (length (Config.nodes config)))) as [Hle|Hgt].
    + eexists. split; [done|]. cbn. split; [|done]. intros _.
      split_and!; [done|done|]. by apply Hall.
    + eexists. split; [done|]. cbn. split; [done|]. intros (_ & _ & H).
      apply Hall in H. lia.
Qed.
End hypergraph_facts.
End Hypergraph_detector.
